(** * Comprehensive-E2E-TTS: the LJSpeech preprocessor

    A shallow embedding of [preprocessor/ljspeech.py]: the alignment-prior
    generator, the IQR outlier filter, the corpus statistics and the
    cache-aware per-utterance pipeline, with the artifacts kept on disk
    modelled as finite maps from file names to arrays.

    Numbers.  NumPy float64 values are modelled by exact rationals ([Q]);
    rounding is not modelled.  Scalars that NumPy can make undefined are
    [npfloat]s (a rational or [NaN]).  Python exceptions are the [Raise]
    branch of [result]. *)

From Stdlib Require Import QArith Qabs ZArith List Ascii String Lia Lqa.
From stdpp Require Import gmap strings list fin_maps.
Import ListNotations.

Set Default Proof Using "Type".

(** ** Exceptions and results *)

Inductive exn : Type :=
| UnboundLocalError
| ValueError
| IndexError
| AttributeError
| FileNotFoundError
| AssertionError
| CollaboratorError.

Inductive result (A : Type) : Type :=
| Ok (a : A)
| Raise (e : exn).

Arguments Ok {A} a.
Arguments Raise {A} e.

Definition rbind {A B : Type} (r : result A) (k : A -> result B) : result B :=
  match r with
  | Ok a => k a
  | Raise e => Raise e
  end.

Declare Scope py_scope.
Delimit Scope py_scope with py.
Notation "'do' x <- r ; k" := (rbind r (fun x => k))
  (at level 10, x pattern, r at level 100, k at level 200) : py_scope.
Local Open Scope py_scope.

(** ** Floats that may be undefined *)

Inductive npfloat : Type :=
| Num (q : Q)
| NaN.

Definition flift2 (op : Q -> Q -> Q) (a b : npfloat) : npfloat :=
  match a, b with
  | Num x, Num y => Num (op x y)
  | _, _ => NaN
  end.

(** Comparisons with NaN are false. *)
Definition Qltb (a b : Q) : bool :=
  (Qnum a * QDen b <? Qnum b * QDen a)%Z.

Definition fltb (a b : npfloat) : bool :=
  match a, b with
  | Num x, Num y => Qltb x y
  | _, _ => false
  end.

(** Natural numbers as rationals. *)
Definition Qnat (n : nat) : Q := inject_Z (Z.of_nat n).

(** ** scipy.stats.betabinom

    The probability mass function of the beta-binomial distribution,
    [C(n,k) * B(k+a, n-k+b) / B(a,b)], written with rising factorials so
    that it is exact on rationals.  As in SciPy, the mass is 0 outside the
    support [0..n] and the result is NaN unless [a > 0] and [b > 0]. *)

Fixpoint binom (n k : nat) : nat :=
  match k with
  | O => 1
  | S k' =>
      match n with
      | O => 0
      | S n' => binom n' k' + binom n' k
      end
  end.

Fixpoint rising (x : Q) (m : nat) : Q :=
  match m with
  | O => 1
  | S m' => (rising x m' * (x + Qnat m'))%Q
  end.

Definition betabinom_mass (n : nat) (a b : Q) (k : nat) : Q :=
  if (k <=? n)%nat
  then (Qnat (binom n k) * rising a k * rising b (n - k)
        / rising (a + b) n)%Q
  else 0%Q.

Definition betabinom_pmf (n : nat) (a b : Q) (k : nat) : npfloat :=
  if Qltb 0 a && Qltb 0 b then Num (betabinom_mass n a b k) else NaN.

(** ** The textbook form of the mass function, for whole-number shapes

    [B(a, b) = (a-1)! (b-1)! / (a+b-1)!] and the beta-binomial mass is
    [C(n,k) * B(k+a, n-k+b) / B(a,b)], the form SciPy documents. *)
Definition beta_nat (a b : nat) : Q :=
  (Qnat (fact (a - 1)) * Qnat (fact (b - 1)) / Qnat (fact (a + b - 1)))%Q.

Definition betabinom_mass_beta (n a b k : nat) : Q :=
  (Qnat (binom n k) * beta_nat (k + a) (n - k + b) / beta_nat a b)%Q.

(** ** Preprocessor.beta_binomial_prior_distribution *)

Definition beta_binomial_prior_distribution
    (phoneme_count mel_count : nat) (scaling_factor : Q)
    : list (list npfloat) :=
  let P := phoneme_count in
  let M := mel_count in
  let x := seq 0 P in
  List.map
    (fun i =>
       let a := (scaling_factor * Qnat i)%Q in
       let b := (scaling_factor * Qnat (M + 1 - i))%Q in
       List.map (betabinom_pmf P a b) x)
    (seq 1 M).

(** ** Row sums and modes of a prior matrix *)

(** [np.sum(row)] *)
Definition fsum (row : list npfloat) : npfloat :=
  fold_right (flift2 Qplus) (Num 0) row.

(** [np.argmax(row)]: the first index holding the largest entry. *)
Fixpoint argmax_from (best_i : nat) (best : npfloat) (i : nat)
    (l : list npfloat) : nat :=
  match l with
  | [] => best_i
  | x :: l' =>
      if fltb best x then argmax_from i x (S i) l'
      else argmax_from best_i best (S i) l'
  end.

Definition np_argmax (row : list npfloat) : nat :=
  match row with
  | [] => 0
  | x :: l => argmax_from 0 x 1 l
  end.

(** A row sums to 1 within [tol]. *)
Definition sums_to_one (tol : Q) (row : list npfloat) : bool :=
  match fsum row with
  | Num t => Qle_bool (Qabs (t - 1)) tol
  | NaN => false
  end.

Definition nonnegative (e : npfloat) : bool :=
  match e with
  | Num q => Qle_bool 0 q
  | NaN => false
  end.

(** ** Finite sums of rationals *)

(** [f 0 + f 1 + ... + f (m-1)] *)
Fixpoint sum_upto (f : nat -> Q) (m : nat) : Q :=
  match m with
  | O => 0%Q
  | S m' => (sum_upto f m' + f m')%Q
  end.

(** ** NumPy helpers used by the statistics *)

Fixpoint np_insert (x : Q) (l : list Q) : list Q :=
  match l with
  | [] => [x]
  | y :: l' => if Qle_bool x y then x :: l else y :: np_insert x l'
  end.

Fixpoint np_sort (l : list Q) : list Q :=
  match l with
  | [] => []
  | x :: l' => np_insert x (np_sort l')
  end.

(** [np.percentile(values, q)] with the default linear interpolation: the
    virtual index is [q/100 * (n-1)]; the value is interpolated between its
    two neighbours in the sorted array.  On an empty array NumPy before
    1.22 raises IndexError and later versions return NaN; [legacy] selects
    which. *)
Definition np_percentile (legacy : bool) (values : list Q) (q : nat)
    : result npfloat :=
  match values with
  | [] => if legacy then Raise IndexError else Ok NaN
  | _ :: _ =>
      let sorted := np_sort values in
      let n := length values in
      let vi := (q * (n - 1))%nat in
      let prev := (vi / 100)%nat in
      let next := Nat.min (prev + 1) (n - 1) in
      let gamma := (Qnat (vi mod 100) / 100)%Q in
      let lo := nth prev sorted 0%Q in
      let hi := nth next sorted 0%Q in
      Ok (Num (lo + (hi - lo) * gamma)%Q)
  end.

(** ** Preprocessor.remove_outlier *)

Definition remove_outlier (legacy : bool) (values : list Q)
    : result (list Q) :=
  do p25 <- np_percentile legacy values 25;
  do p75 <- np_percentile legacy values 75;
  let lower :=
    flift2 Qminus p25 (flift2 Qmult (Num (3 # 2)) (flift2 Qminus p75 p25)) in
  let upper :=
    flift2 Qplus p75 (flift2 Qmult (Num (3 # 2)) (flift2 Qminus p75 p25)) in
  Ok (List.filter (fun v => fltb lower (Num v) && fltb (Num v) upper) values).

(** ** Means, deviations and Python's [min]/[max] *)

Definition Qsum (l : list Q) : Q := fold_right Qplus 0%Q l.

Definition mean (l : list Q) : Q := (Qsum l / Qnat (length l))%Q.

Definition variance (l : list Q) : Q :=
  let m := mean l in
  mean (List.map (fun x => ((x - m) * (x - m))%Q) l).

(** [np.mean] and [np.std] (population deviation, [ddof=0]); on an empty
    array NumPy warns and returns NaN.  [sqrt] stands for [np.sqrt]. *)
Definition np_mean (l : list Q) : npfloat :=
  match l with
  | [] => NaN
  | _ :: _ => Num (mean l)
  end.

Definition np_std (sqrt : Q -> Q) (l : list Q) : npfloat :=
  match l with
  | [] => NaN
  | _ :: _ => Num (sqrt (variance l))
  end.

(** The built-in [max(a, b)] and [min(a, b)] keep the first argument
    unless the second is strictly better. *)
Definition py_max2 (a b : Q) : Q := if Qltb a b then b else a.
Definition py_min2 (a b : Q) : Q := if Qltb b a then b else a.

(** The built-in [max(values)] and [min(values)] over an array raise
    ValueError on an empty one. *)
Definition py_max (values : list Q) : result Q :=
  match values with
  | [] => Raise ValueError
  | v :: vs => Ok (fold_left py_max2 vs v)
  end.

Definition py_min (values : list Q) : result Q :=
  match values with
  | [] => Raise ValueError
  | v :: vs => Ok (fold_left py_min2 vs v)
  end.

(** ** compute_f0_stats (nested in build_from_path)

    [f0_mean] and [f0_std] are bound only under [len(f0s) > 0]; the
    [return] reads them unbound otherwise. *)
Definition compute_f0_stats (sqrt : Q -> Q) (f0s : list (list Q))
    : result (npfloat * npfloat) :=
  match f0s with
  | [] => Raise UnboundLocalError
  | _ :: _ =>
      let f0s1 := concat f0s in
      let f0s2 := List.filter (fun x => negb (Qeq_bool x 0)) f0s1 in
      Ok (np_mean f0s2, np_std sqrt f0s2)
  end.

(** The voiced samples of a corpus: all per-utterance arrays put end to
    end, zeros dropped. *)
Definition voiced (arrays : list (list Q)) : list Q :=
  List.filter (fun x => negb (Qeq_bool x 0)) (concat arrays).

(** ** sklearn.preprocessing.StandardScaler

    Modelled by its contract: the scaler is the sequence of samples it has
    been fitted on; [mean_] is their mean and [scale_] their population
    deviation, a zero deviation being replaced by 1.  Both attributes are
    missing until the first fit. *)
Definition StandardScaler : Type := list Q.

Definition scaler_partial_fit (scaler : StandardScaler) (X : list Q)
    : StandardScaler :=
  scaler ++ X.

Definition scaler_mean_ (scaler : StandardScaler) : result Q :=
  match scaler with
  | [] => Raise AttributeError
  | _ :: _ => Ok (mean scaler)
  end.

Definition scaler_scale_ (sqrt : Q -> Q) (scaler : StandardScaler)
    : result Q :=
  match scaler with
  | [] => Raise AttributeError
  | _ :: _ =>
      let sd := sqrt (variance scaler) in
      Ok (if Qeq_bool sd 0 then 1%Q else sd)
  end.

(** partial_fit (nested in build_from_path). *)
Definition partial_fit (scaler : StandardScaler) (value : list Q)
    : StandardScaler :=
  if (0 <? length value)%nat then scaler_partial_fit scaler value else scaler.

(** ** Preprocessor.normalize

    [in_dir] is the energy directory: a finite map from file names to the
    arrays stored in them.  [os.listdir] enumerates it in an unspecified
    order, [map_to_list]'s here.  [std] is never 0 at the call site. *)

Definition finfo_max : Q := inject_Z (2 ^ 1024 - 2 ^ 971).
Definition finfo_min : Q := (- finfo_max)%Q.

Definition listdir {A : Type} (dir : gmap string A) : list string :=
  (map_to_list dir).*1.

(** Reading an artifact file ([np.load], or [librosa.load] for a cached
    waveform). *)
Definition np_load {A : Type} (dir : gmap string A) (filename : string)
    : result A :=
  match dir !! filename with
  | Some a => Ok a
  | None => Raise FileNotFoundError
  end.

Definition normalize_value (mean std : Q) (v : Q) : Q := ((v - mean) / std)%Q.

Definition normalize_step (mean std : Q)
    (acc : result (gmap string (list Q) * Q * Q)) (filename : string)
    : result (gmap string (list Q) * Q * Q) :=
  do (dir, min_value, max_value) <- acc;
  do loaded <- np_load dir filename;
  let values := List.map (normalize_value mean std) loaded in
  let dir' := <[filename := values]> dir in
  do mx <- py_max values;
  let max_value' := py_max2 max_value mx in
  do mn <- py_min values;
  let min_value' := py_min2 min_value mn in
  Ok (dir', min_value', max_value').

Definition normalize (in_dir : gmap string (list Q)) (mean std : Q)
    : result (gmap string (list Q) * Q * Q) :=
  fold_left (normalize_step mean std) (listdir in_dir)
    (Ok (in_dir, finfo_max, finfo_min)).

(** ** Two-dimensional arrays

    A NumPy matrix keeps its shape even when it has no cell, so the shape
    is stored next to the rows. *)

Record ndarray2 : Type := mk_ndarray2 {
  shape0 : nat;
  shape1 : nat;
  nd_rows : list (list Q)
}.

(** [m.T] *)
Definition transpose (m : ndarray2) : ndarray2 :=
  {| shape0 := shape1 m;
     shape1 := shape0 m;
     nd_rows :=
       List.map (fun j => List.map (fun r => nth j r 0%Q) (nd_rows m))
         (seq 0 (shape1 m)) |}.

(** [m[:, :d]] *)
Definition slice_cols (d : nat) (m : ndarray2) : ndarray2 :=
  {| shape0 := shape0 m;
     shape1 := Nat.min d (shape1 m);
     nd_rows := List.map (firstn d) (nd_rows m) |}.

Definition row_fold (f : Q -> Q -> Q) (r : list Q) : Q :=
  match r with
  | [] => 0%Q
  | v :: vs => fold_left f vs v
  end.

(** [np.min(m, axis=1)] and [np.max(m, axis=1)]: a reduction over an axis
    of size zero has no identity and raises ValueError. *)
Definition np_min_axis1 (m : ndarray2) : result (list Q) :=
  if (shape1 m =? 0)%nat then Raise ValueError
  else Ok (List.map (row_fold py_min2) (nd_rows m)).

Definition np_max_axis1 (m : ndarray2) : result (list Q) :=
  if (shape1 m =? 0)%nat then Raise ValueError
  else Ok (List.map (row_fold py_max2) (nd_rows m)).

(** The running mel range starts at [+inf] and [-inf]. *)
Inductive extQ : Type :=
| Fin (q : Q)
| PosInf
| NegInf.

Definition ext_minimum (a : extQ) (b : Q) : extQ :=
  match a with
  | Fin x => Fin (py_min2 x b)
  | PosInf => Fin b
  | NegInf => NegInf
  end.

Definition ext_maximum (a : extQ) (b : Q) : extQ :=
  match a with
  | Fin x => Fin (py_max2 x b)
  | PosInf => PosInf
  | NegInf => Fin b
  end.

(** Element-wise binary operation on vectors with NumPy broadcasting. *)
Definition np_broadcast2 {A B C : Type} (f : A -> B -> C)
    (a : list A) (b : list B) : result (list C) :=
  if (length a =? length b)%nat then Ok (zip_with f a b)
  else
    match a, b with
    | [x], _ => Ok (List.map (f x) b)
    | _, [y] => Ok (List.map (fun x => f x y) a)
    | _, _ => Raise ValueError
    end.

(** ** Configuration, collaborators and the output directory *)

Record Config : Type := {
  dataset : string;
  in_dir : string;
  sampling_rate : positive;
  val_size : nat;
  n_mel_channels : nat;
  hop_length : positive;
  max_wav_value : Q;
  beta_binomial_scaling_factor : Q;
  energy_normalization : bool
}.

(** A wav file of the output directory, as [scipy.io.wavfile.write]
    leaves it: the rate given to [write] and the samples. *)
Record WavFile : Type := {
  wav_rate : positive;
  wav_samples : list Q
}.

(** The external functions the preprocessor calls.  Each may raise.
    [librosa.load(path, sr)] appears twice: [librosa_load] reads a
    recording of the corpus, [librosa_load_wav] a wav file that an earlier
    call wrote to the output directory; both get the configured
    sampling rate. *)
Record Collaborators : Type := {
  grapheme_to_phoneme : string -> list string;
  re_sub_sp : string -> string;
  text_to_sequence : string -> result (list Z);
  librosa_load : string -> positive -> result (list Q);
  librosa_load_wav : WavFile -> positive -> result (list Q);
  librosa_trim : list Q -> nat * nat;
  librosa_normalize : list Q -> result (list Q);
  TorchSTFT : list Q -> result (ndarray2 * list Q);
  get_pitch : list Q -> ndarray2 -> result (list Q);
  np_sqrt : Q -> Q;
  random_shuffle : list string -> list string;
  legacy_numpy : bool
}.

Record Stats : Type := {
  stats_f0 : npfloat * npfloat;
  stats_energy : Q * Q * Q * Q;
  spec_min : list extQ;
  spec_max : list extQ;
  stats_max_seq_len : nat
}.

(** The preprocessed directory: one finite map per artifact kind, and the
    corpus files. *)
Record Disk : Type := {
  text_dir : gmap string (list Z);
  wav_dir : gmap string WavFile;
  mel_dir : gmap string ndarray2;
  f0_dir : gmap string (list Q);
  energy_dir : gmap string (list Q);
  attn_prior_dir : gmap string (list (list npfloat));
  speakers_json : option (list (string * nat));
  stats_json : option Stats;
  train_txt : option (list string);
  val_txt : option (list string)
}.

Definition empty_disk : Disk :=
  {| text_dir := ∅; wav_dir := ∅; mel_dir := ∅; f0_dir := ∅;
     energy_dir := ∅; attn_prior_dir := ∅; speakers_json := None;
     stats_json := None; train_txt := None; val_txt := None |}.

Definition save_text (name : string) (v : list Z) (d : Disk) : Disk :=
  {| text_dir := <[name := v]> (text_dir d); wav_dir := wav_dir d;
     mel_dir := mel_dir d; f0_dir := f0_dir d; energy_dir := energy_dir d;
     attn_prior_dir := attn_prior_dir d; speakers_json := speakers_json d;
     stats_json := stats_json d; train_txt := train_txt d;
     val_txt := val_txt d |}.

Definition save_wav (name : string) (v : WavFile) (d : Disk) : Disk :=
  {| text_dir := text_dir d; wav_dir := <[name := v]> (wav_dir d);
     mel_dir := mel_dir d; f0_dir := f0_dir d; energy_dir := energy_dir d;
     attn_prior_dir := attn_prior_dir d; speakers_json := speakers_json d;
     stats_json := stats_json d; train_txt := train_txt d;
     val_txt := val_txt d |}.

Definition save_mel (name : string) (v : ndarray2) (d : Disk) : Disk :=
  {| text_dir := text_dir d; wav_dir := wav_dir d;
     mel_dir := <[name := v]> (mel_dir d); f0_dir := f0_dir d;
     energy_dir := energy_dir d; attn_prior_dir := attn_prior_dir d;
     speakers_json := speakers_json d; stats_json := stats_json d;
     train_txt := train_txt d; val_txt := val_txt d |}.

Definition save_f0 (name : string) (v : list Q) (d : Disk) : Disk :=
  {| text_dir := text_dir d; wav_dir := wav_dir d; mel_dir := mel_dir d;
     f0_dir := <[name := v]> (f0_dir d); energy_dir := energy_dir d;
     attn_prior_dir := attn_prior_dir d; speakers_json := speakers_json d;
     stats_json := stats_json d; train_txt := train_txt d;
     val_txt := val_txt d |}.

Definition set_energy_dir (e : gmap string (list Q)) (d : Disk) : Disk :=
  {| text_dir := text_dir d; wav_dir := wav_dir d; mel_dir := mel_dir d;
     f0_dir := f0_dir d; energy_dir := e;
     attn_prior_dir := attn_prior_dir d; speakers_json := speakers_json d;
     stats_json := stats_json d; train_txt := train_txt d;
     val_txt := val_txt d |}.

Definition save_energy (name : string) (v : list Q) (d : Disk) : Disk :=
  set_energy_dir (<[name := v]> (energy_dir d)) d.

Definition save_attn_prior (name : string) (v : list (list npfloat))
    (d : Disk) : Disk :=
  {| text_dir := text_dir d; wav_dir := wav_dir d; mel_dir := mel_dir d;
     f0_dir := f0_dir d; energy_dir := energy_dir d;
     attn_prior_dir := <[name := v]> (attn_prior_dir d);
     speakers_json := speakers_json d; stats_json := stats_json d;
     train_txt := train_txt d; val_txt := val_txt d |}.

Definition write_corpus_files (speakers : list (string * nat)) (stats : Stats)
    (train val : list string) (d : Disk) : Disk :=
  {| text_dir := text_dir d; wav_dir := wav_dir d; mel_dir := mel_dir d;
     f0_dir := f0_dir d; energy_dir := energy_dir d;
     attn_prior_dir := attn_prior_dir d; speakers_json := Some speakers;
     stats_json := Some stats; train_txt := Some train;
     val_txt := Some val |}.

(** ** Strings *)

Definition pipe : Ascii.ascii := Ascii.ascii_of_nat 124.
Definition newline : string := String (Ascii.ascii_of_nat 10) EmptyString.

(** [sep.join(l)] *)
Fixpoint str_join (sep : string) (l : list string) : string :=
  match l with
  | [] => EmptyString
  | x :: l' =>
      match l' with
      | [] => x
      | _ :: _ => String.append x (String.append sep (str_join sep l'))
      end
  end.

(** [s.replace("}{", " ")] *)
Fixpoint replace_brace_pair (s : string) : string :=
  match s with
  | EmptyString => EmptyString
  | String c rest =>
      match rest with
      | String c' rest' =>
          if (Ascii.eqb c "}"%char && Ascii.eqb c' "{"%char)%bool
          then String " "%char (replace_brace_pair rest')
          else String c (replace_brace_pair rest)
      | EmptyString => String c EmptyString
      end
  end.

(** [m.split("|")[0]] *)
Fixpoint first_field (m : string) : string :=
  match m with
  | EmptyString => EmptyString
  | String c rest =>
      if Ascii.eqb c pipe then EmptyString else String c (first_field rest)
  end.

Definition artifact_filename (speaker kind basename ext : string) : string :=
  String.append speaker
    (String.append "-" (String.append kind
      (String.append "-" (String.append basename ext)))).

(** ** Preprocessor.val_prior_names

    [val.txt] holds one record per line; [readlines] gives each record with
    its line end.  The first fields are collected in a [set] and returned
    as [list(set)]: without duplicates, in an order Python does not
    specify, [elements]'s here. *)
Definition val_prior_names (d : Disk) : option (list string) :=
  match val_txt d with
  | Some lines =>
      let names : gset string :=
        list_to_set
          (List.map (fun m => first_field (String.append m newline)) lines) in
      Some (elements names)
  | None => None
  end.

(** ** Preprocessor.load_wav *)

Definition match_librosa_to_scipy (l_wave : list Q) : list Q :=
  List.map (fun v => (v * inject_Z (2 ^ 15))%Q) l_wave.

Definition load_wav (C : Collaborators) (cfg : Config) (full_path : string)
    : result (list Q * nat) :=
  do data <- librosa_load C full_path (sampling_rate cfg);
  let index := librosa_trim C data in
  let data := firstn (snd index - fst index) (skipn (fst index) data) in
  let data := match_librosa_to_scipy data in
  let duration := ((snd index - fst index) / Pos.to_nat (hop_length cfg))%nat in
  Ok (data, duration).

(** ** Preprocessor.process_utterance

    The tuple returned on success.  The function has no [return None]:
    every normal return is [Some] tuple. *)
Record UtteranceResult : Type := {
  info : string;
  ret_f0 : list Q;
  ret_energy : list Q;
  n_mel : nat;
  n_wav : nat;
  m_min : list Q;
  m_max : list Q
}.

(** Reading the local variable [duration], bound only where the waveform
    is computed afresh. *)
Definition read_local {A : Type} (v : option A) : result A :=
  match v with
  | Some a => Ok a
  | None => Raise UnboundLocalError
  end.

(** The five cached stages of [process_utterance], in the order of the
    source.  Each tests [os.path.isfile] on its artifact, computes and
    saves it when absent and loads it otherwise. *)

(* Preprocess text *)
Definition text_stage (C : Collaborators) (disk : Disk)
    (text_filename phones : string) : result (Disk * list Z) :=
  match text_dir disk !! text_filename with
  | None =>
      do text <- text_to_sequence C phones;
      Ok (save_text text_filename text disk, text)
  | Some _ =>
      do text <- np_load (text_dir disk) text_filename;
      Ok (disk, text)
  end.

(* Load and process wav files *)
Definition wav_stage (C : Collaborators) (cfg : Config) (disk : Disk)
    (wav_filename wav_path : string) : result (Disk * list Q * option nat) :=
  match wav_dir disk !! wav_filename with
  | None =>
      do (wav, duration) <- load_wav C cfg wav_path;
      let wav := List.map (fun v => (v / max_wav_value cfg)%Q) wav in
      do wav <- librosa_normalize C wav;
      let wav := List.map (fun v => (v * (95 # 100))%Q) wav in
      let file := {| wav_rate := sampling_rate cfg; wav_samples := wav |} in
      Ok (save_wav wav_filename file disk, wav, Some duration)
  | Some _ =>
      do file <- np_load (wav_dir disk) wav_filename;
      do wav <- librosa_load_wav C file (sampling_rate cfg);
      Ok (disk, wav, None)
  end.

(* Load mel-spectrogram *)
Definition mel_stage (C : Collaborators) (disk : Disk)
    (mel_filename energy_filename : string) (wav : list Q)
    (duration : option nat) : result (Disk * ndarray2 * list Q) :=
  match mel_dir disk !! mel_filename with
  | None =>
      do (mel_spectrogram, energy) <- TorchSTFT C wav;
      do d <- read_local duration;
      let mel_spectrogram := slice_cols d mel_spectrogram in
      let energy := firstn d energy in
      let disk := save_mel mel_filename (transpose mel_spectrogram) disk in
      let disk := save_energy energy_filename energy disk in
      Ok (disk, mel_spectrogram, energy)
  | Some _ =>
      do loaded <- np_load (mel_dir disk) mel_filename;
      do energy <- np_load (energy_dir disk) energy_filename;
      Ok (disk, transpose loaded, energy)
  end.

(* Load f0 *)
Definition f0_stage (C : Collaborators) (disk : Disk) (f0_filename : string)
    (wav : list Q) (mel_spectrogram : ndarray2) (duration : option nat)
    : result (Disk * list Q) :=
  match f0_dir disk !! f0_filename with
  | None =>
      do f0 <- get_pitch C wav (transpose mel_spectrogram);
      do d <- read_local duration;
      let f0 := firstn d f0 in
      Ok (save_f0 f0_filename f0 disk, f0)
  | Some _ =>
      do f0 <- np_load (f0_dir disk) f0_filename;
      Ok (disk, f0)
  end.

(* Calculate attention prior *)
Definition attn_prior_stage (cfg : Config) (disk : Disk)
    (attn_prior_filename : string) (mel_spectrogram : ndarray2)
    (text : list Z) : result (Disk * list (list npfloat)) :=
  match attn_prior_dir disk !! attn_prior_filename with
  | None =>
      let attn_prior :=
        beta_binomial_prior_distribution
          (shape1 mel_spectrogram)
          (length text)
          (beta_binomial_scaling_factor cfg) in
      Ok (save_attn_prior attn_prior_filename attn_prior disk, attn_prior)
  | Some _ =>
      do attn_prior <- np_load (attn_prior_dir disk) attn_prior_filename;
      Ok (disk, attn_prior)
  end.

Definition phones_of (C : Collaborators) (raw_text : string) : string :=
  let phone := grapheme_to_phoneme C raw_text in
  let phones := String.append "{" (String.append (str_join "}{" phone) "}") in
  let phones := re_sub_sp C phones in
  replace_brace_pair phones.

Definition process_utterance (C : Collaborators) (cfg : Config) (disk : Disk)
    (raw_text wav_path speaker basename : string)
    : result (Disk * option UtteranceResult) :=
  let text_filename := artifact_filename speaker "text" basename ".npy" in
  let wav_filename := artifact_filename speaker "wav" basename ".wav" in
  let mel_filename := artifact_filename speaker "mel" basename ".npy" in
  let f0_filename := artifact_filename speaker "f0" basename ".npy" in
  let energy_filename := artifact_filename speaker "energy" basename ".npy" in
  let attn_prior_filename :=
    artifact_filename speaker "attn_prior" basename ".npy" in
  let phones := phones_of C raw_text in
  do (disk, text) <- text_stage C disk text_filename phones;
  do (disk, wav, duration) <- wav_stage C cfg disk wav_filename wav_path;
  do (disk, mel_spectrogram, energy) <-
    mel_stage C disk mel_filename energy_filename wav duration;
  do (disk, f0) <- f0_stage C disk f0_filename wav mel_spectrogram duration;
  do (disk, attn_prior) <-
    attn_prior_stage cfg disk attn_prior_filename mel_spectrogram text;
  do energy' <- remove_outlier (legacy_numpy C) energy;
  do mins <- np_min_axis1 mel_spectrogram;
  do maxs <- np_max_axis1 mel_spectrogram;
  Ok (disk,
      Some {| info := str_join "|" [basename; speaker; phones; raw_text];
              ret_f0 := f0;
              ret_energy := energy';
              n_mel := shape1 mel_spectrogram;
              n_wav := length wav;
              m_min := mins;
              m_max := maxs |}).

(** ** Cache states *)

(** All six artifacts of an utterance are present, with these values. *)
Definition cached (disk : Disk) (speaker basename : string)
    (text : list Z) (wav : WavFile) (mel : ndarray2) (energy f0 : list Q)
    (attn_prior : list (list npfloat)) : Prop :=
  text_dir disk !! artifact_filename speaker "text" basename ".npy" = Some text /\
  wav_dir disk !! artifact_filename speaker "wav" basename ".wav" = Some wav /\
  mel_dir disk !! artifact_filename speaker "mel" basename ".npy" = Some mel /\
  energy_dir disk !! artifact_filename speaker "energy" basename ".npy"
    = Some energy /\
  f0_dir disk !! artifact_filename speaker "f0" basename ".npy" = Some f0 /\
  attn_prior_dir disk !! artifact_filename speaker "attn_prior" basename ".npy"
    = Some attn_prior.



(** ** Preprocessor.build_from_path *)

(** [l[i]] on a Python list. *)
Definition py_index {A : Type} (l : list A) (i : nat) : result A :=
  match nth_error l i with
  | Some a => Ok a
  | None => Raise IndexError
  end.

Definition py_in (x : string) (l : list string) : bool :=
  existsb (String.eqb x) l.

(** compute_energy_stats (nested in build_from_path). *)
Definition compute_energy_stats (C : Collaborators) (cfg : Config)
    (energy_scaler : StandardScaler) (disk : Disk)
    : result (Disk * (Q * Q * Q * Q)) :=
  do (energy_mean, energy_std) <-
    (if energy_normalization cfg
     then
       do m <- scaler_mean_ energy_scaler;
       do s <- scaler_scale_ (np_sqrt C) energy_scaler;
       Ok (m, s)
     else Ok (0%Q, 1%Q));
  do (dir, energy_min, energy_max) <-
    normalize (energy_dir disk) energy_mean energy_std;
  Ok (set_energy_dir dir disk,
      (energy_min, energy_max, energy_mean, energy_std)).

(** [if len(f0) > 0: f0s.append(f0)] *)
Definition collect_f0 (f0s : list (list Q)) (f0 : list Q) : list (list Q) :=
  if (0 <? length f0)%nat then f0s ++ [f0] else f0s.

(** The variables of the scan loop. *)
Record Scan : Type := {
  scan_disk : Disk;
  out : list string;
  train : list string;
  val : list string;
  max_seq_len : nat;
  mel_min : list extQ;
  mel_max : list extQ;
  f0s : list (list Q);
  energy_scaler : StandardScaler;
  n_wavs : nat
}.

Definition scan_init (cfg : Config) (disk : Disk) : Scan :=
  {| scan_disk := disk; out := []; train := []; val := [];
     max_seq_len := 0;
     mel_min := repeat PosInf (n_mel_channels cfg);
     mel_max := repeat NegInf (n_mel_channels cfg);
     f0s := []; energy_scaler := []; n_wavs := 0 |}.

(** One iteration of the loop over the lines of [metadata.csv]; [parts]
    is the stripped line split at the pipes.  An exception of
    [process_utterance] is not caught. *)
Definition scan_line (C : Collaborators) (cfg : Config)
    (val_prior : option (list string)) (s : Scan) (parts : list string)
    : result Scan :=
  do basename <- py_index parts 0;
  do text <- py_index parts 2;
  let wav_path :=
    String.append (in_dir cfg)
      (String.append "/wavs/" (String.append basename ".wav")) in
  do (disk, ret) <-
    process_utterance C cfg (scan_disk s) text wav_path (dataset cfg) basename;
  match ret with
  | None =>
      (* continue *)
      Ok {| scan_disk := disk; out := out s; train := train s; val := val s;
            max_seq_len := max_seq_len s; mel_min := mel_min s;
            mel_max := mel_max s; f0s := f0s s;
            energy_scaler := energy_scaler s; n_wavs := n_wavs s |}
  | Some r =>
      let lists :=
        match val_prior with
        | Some names =>
            if negb (py_in basename names)
            then (out s, train s ++ [info r], val s)
            else (out s, train s, val s ++ [info r])
        | None => (out s ++ [info r], train s, val s)
        end in
      let max_seq_len' :=
        if (max_seq_len s <? n_mel r)%nat then n_mel r else max_seq_len s in
      let f0s' := collect_f0 (f0s s) (ret_f0 r) in
      let energy_scaler' := partial_fit (energy_scaler s) (ret_energy r) in
      do mel_min' <- np_broadcast2 ext_minimum (mel_min s) (m_min r);
      do mel_max' <- np_broadcast2 ext_maximum (mel_max s) (m_max r);
      Ok {| scan_disk := disk;
            out := fst (fst lists); train := snd (fst lists);
            val := snd lists;
            max_seq_len := max_seq_len'; mel_min := mel_min';
            mel_max := mel_max'; f0s := f0s';
            energy_scaler := energy_scaler';
            n_wavs := n_wavs s + n_wav r |}
  end.

Definition scan_lines (C : Collaborators) (cfg : Config)
    (val_prior : option (list string)) (metadata : list (list string))
    (s : Scan) : result Scan :=
  fold_left (fun acc parts => do s' <- acc; scan_line C cfg val_prior s' parts)
    metadata (Ok s).

Definition build_from_path (C : Collaborators) (cfg : Config)
    (val_prior : option (list string)) (metadata : list (list string))
    (disk : Disk) : result (Disk * list string) :=
  do s <- scan_lines C cfg val_prior metadata (scan_init cfg disk);
  do f0s_stats <- compute_f0_stats (np_sqrt C) (f0s s);
  do (disk, energy_stats) <-
    compute_energy_stats C cfg (energy_scaler s) (scan_disk s);
  let speakers := [(dataset cfg, 0%nat)] in
  let stats :=
    {| stats_f0 := f0s_stats; stats_energy := energy_stats;
       spec_min := mel_min s; spec_max := mel_max s;
       stats_max_seq_len := max_seq_len s |} in
  do (out', train', val') <-
    match val_prior with
    | Some _ =>
        if (length (out s) =? 0)%nat
        then Ok (out s, random_shuffle C (train s), val s)
        else Raise AssertionError
    | None =>
        if ((length (train s) =? 0) && (length (val s) =? 0))%nat
        then
          let shuffled := random_shuffle C (out s) in
          Ok (shuffled, skipn (val_size cfg) shuffled,
              firstn (val_size cfg) shuffled)
        else Raise AssertionError
    end;
  Ok (write_corpus_files speakers stats train' val' disk, out').

(** A run of the preprocessor: [Preprocessor.__init__] reads the
    validation names left by an earlier run, then [build_from_path]. *)
Definition run_preprocessor (C : Collaborators) (cfg : Config)
    (metadata : list (list string)) (disk : Disk)
    : result (Disk * list string) :=
  build_from_path C cfg (val_prior_names disk) metadata disk.

(** ** A small concrete corpus

    Deterministic stand-ins for the collaborators, used to run the
    pipeline on explicit inputs.  Silence is exact zero; the analysis
    window gives one frame more than [len(wav) / hop_length]. *)

Definition demo_sqrt (q : Q) : Q :=
  let r := Qred q in
  Z.sqrt (Qnum r) # Pos.sqrt (Qden r).

Fixpoint leading_zeros (l : list Q) : nat :=
  match l with
  | [] => 0
  | x :: l' => if Qeq_bool x 0 then S (leading_zeros l') else 0
  end.

Definition demo_trim (data : list Q) : nat * nat :=
  let lo := leading_zeros data in
  if (lo =? length data)%nat then (0, 0)%nat
  else (lo, length data - leading_zeros (rev data))%nat.

Definition demo_peak (wav : list Q) : Q :=
  fold_left (fun m v => py_max2 m (Qabs v)) wav 0%Q.

Definition demo_normalize (wav : list Q) : result (list Q) :=
  match wav with
  | [] => Raise ValueError
  | _ :: _ =>
      let peak := demo_peak wav in
      if Qeq_bool peak 0 then Ok wav
      else Ok (List.map (fun v => (v / peak)%Q) wav)
  end.

Definition demo_stft (wav : list Q) : result (ndarray2 * list Q) :=
  match wav with
  | [] => Raise CollaboratorError
  | _ :: _ =>
      let frames := (length wav / 2 + 1)%nat in
      Ok ({| shape0 := 1; shape1 := frames;
             nd_rows := [List.map Qnat (seq 1 frames)] |},
          List.map (fun k => Qnat (2 * k + 1)) (seq 0 frames))
  end.

Definition demo_pitch (wav : list Q) (mel : ndarray2) : result (list Q) :=
  Ok (List.map (fun k => if Nat.even k then 100%Q else 0%Q)
        (seq 0 (shape0 mel))).

Definition demo_load (path : string) (sr : positive) : result (list Q) :=
  if String.eqb path "corpus/wavs/silence.wav"
  then Ok [0; 0; 0; 0]%Q
  else if String.eqb path "corpus/wavs/LJ001-0001.wav"
  then Ok [0; 1 # 2; - (1 # 4); 1 # 4; 1 # 8; 0]%Q
  else Raise FileNotFoundError.

(** Reading a wav file back: its samples when the rates agree, and
    otherwise the samples picked at the new rate. *)
Definition demo_load_wav (file : WavFile) (sr : positive)
    : result (list Q) :=
  if Pos.eqb (wav_rate file) sr then Ok (wav_samples file)
  else
    let n := N.of_nat (length (wav_samples file)) in
    let pick (k : nat) : Q :=
      nth (N.to_nat (N.of_nat k * Npos (wav_rate file) / Npos sr))
        (wav_samples file) 0%Q in
    Ok (List.map pick (seq 0 (N.to_nat (n * Npos sr / Npos (wav_rate file))))).

Definition demo : Collaborators :=
  {| grapheme_to_phoneme := fun _ => ["HH"; "AY1"; "."];
     re_sub_sp := fun s => s;
     text_to_sequence := fun _ => Ok [10; 20; 30]%Z;
     librosa_load := demo_load;
     librosa_load_wav := demo_load_wav;
     librosa_trim := demo_trim;
     librosa_normalize := demo_normalize;
     TorchSTFT := demo_stft;
     get_pitch := demo_pitch;
     np_sqrt := demo_sqrt;
     random_shuffle := @rev string;
     legacy_numpy := true |}.

Definition demo_config : Config :=
  {| dataset := "LJSpeech";
     in_dir := "corpus";
     sampling_rate := 22050%positive;
     val_size := 1;
     n_mel_channels := 1;
     hop_length := 2%positive;
     max_wav_value := 32768;
     beta_binomial_scaling_factor := 1;
     energy_normalization := true |}.

Definition demo_metadata : list (list string) :=
  [["LJ001-0001"; "Hi."; "hi."]].

Definition demo_metadata_with_silence : list (list string) :=
  [["silence"; ""; ""]; ["LJ001-0001"; "Hi."; "hi."]].

Definition demo_energy_dir : gmap string (list Q) :=
  {[ "LJSpeech-energy-LJ001-0001.npy" := [1; 3]%Q ]}.

(** The first call on the demo utterance, from an empty output directory. *)
Definition demo_first_call : result (Disk * option UtteranceResult) :=
  process_utterance demo demo_config empty_disk
    "hi." "corpus/wavs/LJ001-0001.wav" "LJSpeech" "LJ001-0001".

(** The output directory of a run interrupted after the waveform of the
    demo utterance was written and before its mel-spectrogram was. *)
Definition demo_interrupted_disk : Disk :=
  save_wav "LJSpeech-wav-LJ001-0001.wav"
    {| wav_rate := 22050%positive;
       wav_samples := [19 # 20; - (19 # 40); 19 # 40; 19 # 80]%Q |}
    (save_text "LJSpeech-text-LJ001-0001.npy" [10; 20; 30]%Z empty_disk).

Definition stats_energy_mean (s : Stats) : Q :=
  match stats_energy s with
  | (_, _, energy_mean, _) => energy_mean
  end.

(** ** Well-formed matrices and pipe-free names *)

(** The rows of a matrix agree with its shape. *)
Definition wf_ndarray2 (m : ndarray2) : Prop :=
  length (nd_rows m) = shape0 m /\
  Forall (fun r => length r = shape1 m) (nd_rows m).

(** A string holding no ["|"]: a field of a line split at the pipes. *)
Fixpoint pipe_free (s : string) : bool :=
  match s with
  | EmptyString => true
  | String c rest => negb (Ascii.eqb c pipe) && pipe_free rest
  end.

(** A directory after a stage: untouched, or one new file under a name
    that was free. *)
Definition one_new_file {A : Type} (m m' : gmap string A) (k : string) : Prop :=
  m' = m \/ (m !! k = None /\ exists v, m' = <[k := v]> m).

(** Output directories for the examples: one holding a text file of another
    utterance, one holding a stale text file of the demo utterance. *)
Definition demo_other_disk : Disk :=
  save_text "LJSpeech-text-LJ001-0002.npy" [1; 2]%Z empty_disk.

Definition demo_stale_disk : Disk :=
  save_text "LJSpeech-text-LJ001-0001.npy" [7]%Z empty_disk.

(** A list in non-decreasing order. *)
Fixpoint sorted_Q (l : list Q) : Prop :=
  match l with
  | [] => True
  | x :: l' => Forall (fun y => (x <= y)%Q) l' /\ sorted_Q l'
  end.

(** The two quartiles of a non-empty array, as [remove_outlier] takes
    them; [None] on an empty array. *)
Definition quartiles (values : list Q) : option (Q * Q) :=
  match np_percentile false values 25, np_percentile false values 75 with
  | Ok (Num p25), Ok (Num p75) => Some (p25, p75)
  | _, _ => None
  end.

(** ** The scan as a fold over per-utterance results *)

(** The record line of an utterance, as [process_utterance] joins it. *)
Definition info_line (basename speaker phones raw_text : string) : string :=
  str_join "|" [basename; speaker; phones; raw_text].

(** [r] is what [process_utterance] returned for the manifest line
    [parts], whose first field is [basename]. *)
Definition scanned (C : Collaborators) (cfg : Config) (parts : list string)
    (basename : string) (r : UtteranceResult) : Prop :=
  nth_error parts 0 = Some basename /\
  exists text d d',
    nth_error parts 2 = Some text /\
    process_utterance C cfg d text
      (String.append (in_dir cfg)
         (String.append "/wavs/" (String.append basename ".wav")))
      (dataset cfg) basename = Ok (d', Some r) /\
    info r = info_line basename (dataset cfg) (phones_of C text) text.

Definition demo_config_raw_energy : Config :=
  {| dataset := "LJSpeech";
     in_dir := "corpus";
     sampling_rate := 22050%positive;
     val_size := 1;
     n_mel_channels := 1;
     hop_length := 2%positive;
     max_wav_value := 32768;
     beta_binomial_scaling_factor := 1;
     energy_normalization := false |}.

(** The first fields of the manifest lines. *)
Definition manifest_basenames (metadata : list (list string)) : list string :=
  List.map (fun parts => nth 0 parts EmptyString) metadata.

Definition in_names (names : list string)
    (br : string * UtteranceResult) : bool :=
  py_in (fst br) names.

Definition not_in_names (names : list string)
    (br : string * UtteranceResult) : bool :=
  negb (py_in (fst br) names).

Definition infos (rs : list (string * UtteranceResult)) : list string :=
  List.map (fun br => info (snd br)) rs.

(** Further output directories for the examples: a run stopped between the
    mel and the energy save, and one stopped before the f0 save. *)
Definition demo_mel_only_disk : Disk :=
  save_mel "LJSpeech-mel-LJ001-0001.npy"
    {| shape0 := 2; shape1 := 1; nd_rows := [[1]; [2]]%Q |} empty_disk.

Definition demo_no_f0_disk : Disk :=
  save_energy "LJSpeech-energy-LJ001-0001.npy" [1; 3]%Q
    (save_mel "LJSpeech-mel-LJ001-0001.npy"
       {| shape0 := 2; shape1 := 1; nd_rows := [[1]; [2]]%Q |}
       (save_wav "LJSpeech-wav-LJ001-0001.wav"
          {| wav_rate := 22050%positive;
             wav_samples := [19 # 20; - (19 # 40); 19 # 40; 19 # 80]%Q |}
          empty_disk)).

(** Collaborators that can read a cached wav file and nothing else of the
    audio. *)
Definition demo_no_audio : Collaborators :=
  {| grapheme_to_phoneme := fun _ => ["HH"; "AY1"; "."];
     re_sub_sp := fun s => s;
     text_to_sequence := fun _ => Raise CollaboratorError;
     librosa_load := fun _ _ => Raise FileNotFoundError;
     librosa_load_wav := demo_load_wav;
     librosa_trim := fun _ => (0, 0)%nat;
     librosa_normalize := fun _ => Raise CollaboratorError;
     TorchSTFT := fun _ => Raise CollaboratorError;
     get_pitch := fun _ _ => Raise CollaboratorError;
     np_sqrt := fun q => q;
     random_shuffle := fun l => l;
     legacy_numpy := true |}.

(** An output directory holding an energy file of an utterance that is not
    in the manifest. *)
Definition demo_leftover_disk : Disk :=
  save_energy "LJSpeech-energy-LJ001-0009.npy" [4; 8]%Q empty_disk.

(** The running mel range: the element-wise operation folded over the
    per-utterance vectors. *)
Definition broadcast_fold (f : extQ -> Q -> extQ) (init : list extQ)
    (ms : list (list Q)) : result (list extQ) :=
  fold_left (fun acc m => do a <- acc; np_broadcast2 f a m) ms (Ok init).

(** Channel [i] of each vector. *)
Definition column (i : nat) (ms : list (list Q)) : list Q :=
  List.map (fun m => nth i m 0%Q) ms.

(** * Properties *)

(** ** Rational comparisons *)

Lemma Qltb_lt (a b : Q) : Qltb a b = true <-> (a < b)%Q.
Proof. unfold Qltb, Qlt. apply Z.ltb_lt. Qed.

Lemma Qltb_false (a b : Q) : Qltb a b = false <-> (b <= a)%Q.
Proof. unfold Qltb, Qle. rewrite Z.ltb_ge. reflexivity. Qed.

Lemma Qnat_pos (n : nat) : (0 < n)%nat -> (0 < Qnat n)%Q.
Proof.
  intros H. unfold Qnat, Qlt. simpl. lia.
Qed.

(** ** The alignment-prior generator *)

Lemma prior_length (P M : nat) (s : Q) :
  length (beta_binomial_prior_distribution P M s) = M.
Proof.
  unfold beta_binomial_prior_distribution.
  rewrite List.length_map, List.length_seq. reflexivity.
Qed.

Lemma prior_row_length (P M : nat) (s : Q) (row : list npfloat) :
  In row (beta_binomial_prior_distribution P M s) -> length row = P.
Proof.
  unfold beta_binomial_prior_distribution.
  rewrite in_map_iff. intros (i & <- & _).
  rewrite List.length_map, List.length_seq. reflexivity.
Qed.

Lemma betabinom_pmf_defined (n : nat) (a b : Q) (k : nat) :
  (0 < a)%Q -> (0 < b)%Q -> betabinom_pmf n a b k = Num (betabinom_mass n a b k).
Proof.
  intros Ha Hb. unfold betabinom_pmf.
  apply Qltb_lt in Ha. apply Qltb_lt in Hb. rewrite Ha, Hb. reflexivity.
Qed.

Lemma prior_row (P M : nat) (s : Q) (i : nat) :
  (0 < s)%Q -> (1 <= i <= M)%nat ->
  nth_error (beta_binomial_prior_distribution P M s) (i - 1) =
  Some (List.map
          (fun x => Num (betabinom_mass P (s * Qnat i) (s * Qnat (M + 1 - i)) x))
          (seq 0 P)).
Proof.
  intros Hs Hi. unfold beta_binomial_prior_distribution.
  rewrite List.nth_error_map.
  rewrite List.nth_error_seq.
  destruct (Nat.ltb_spec (i - 1) M) as [_|Hge]; [|lia].
  simpl. replace (S (i - 1)) with i by lia.
  f_equal. apply List.map_ext. intros x.
  apply betabinom_pmf_defined.
  - apply Qmult_lt_0_compat; [exact Hs | apply Qnat_pos; lia].
  - apply Qmult_lt_0_compat; [exact Hs | apply Qnat_pos; lia].
Qed.

(** C2. The generator returns [M] rows of [P] entries; for a positive
    scale, row [i] (counted from 1) is the beta-binomial mass function with
    [P] trials and shapes [s*i] and [s*(M+1-i)] at [0..P-1]; being a
    function it is deterministic; with no frame the matrix has no row, and
    with no phoneme every row is empty: no input raises. *)
Theorem beta_binomial_prior_distribution_spec (P M : nat) (s : Q) :
  (0 < s)%Q ->
  length (beta_binomial_prior_distribution P M s) = M /\
  (forall row, In row (beta_binomial_prior_distribution P M s) ->
               length row = P) /\
  (forall i, (1 <= i <= M)%nat ->
     nth_error (beta_binomial_prior_distribution P M s) (i - 1) =
     Some (List.map
             (fun x =>
                Num (betabinom_mass P (s * Qnat i) (s * Qnat (M + 1 - i)) x))
             (seq 0 P))) /\
  beta_binomial_prior_distribution P 0 s = [] /\
  beta_binomial_prior_distribution 0 M s = repeat [] M.
Proof.
  intros Hs. split; [apply prior_length|].
  split; [intros row; apply prior_row_length|].
  split; [intros i; apply prior_row; exact Hs|].
  split; [reflexivity|].
  unfold beta_binomial_prior_distribution. simpl.
  generalize 1%nat. induction M as [|M IH]; intros start; simpl.
  - reflexivity.
  - f_equal. apply IH.
Qed.

Lemma beta_binomial_prior_distribution_spec_witness :
  length (beta_binomial_prior_distribution 3 2 1) = 2%nat /\
  nth_error (beta_binomial_prior_distribution 3 2 1) 0 =
  Some (List.map (fun x => Num (betabinom_mass 3 (1 * Qnat 1) (1 * Qnat 2) x))
          (seq 0 3)).
Proof.
  assert (H : (0 < 1)%Q) by reflexivity.
  destruct (beta_binomial_prior_distribution_spec 3 2 1 H)
    as (Hlen & _ & Hrow & _).
  split; [exact Hlen|].
  apply (Hrow 1%nat). lia.
Defined.

(** ** The beta-binomial mass function is a distribution on [0..n]

    The rising-factorial form of the mass function sums to 1 over the
    whole support (the Chu-Vandermonde identity), so the rows of the prior
    matrix, which stop at [P-1], fall short of 1 by the mass at [P]. *)

Lemma sum_upto_ext (f g : nat -> Q) (m : nat) :
  (forall k, (k < m)%nat -> (f k == g k)%Q) ->
  (sum_upto f m == sum_upto g m)%Q.
Proof.
  induction m as [|m IH]; intros H; simpl; [reflexivity|].
  rewrite IH, (H m) by (intros; try apply H; lia). reflexivity.
Qed.

Lemma sum_upto_plus (f g : nat -> Q) (m : nat) :
  (sum_upto (fun k => f k + g k) m == sum_upto f m + sum_upto g m)%Q.
Proof.
  induction m as [|m IH]; simpl; [reflexivity|]. rewrite IH. ring.
Qed.

Lemma sum_upto_scale (c : Q) (f : nat -> Q) (m : nat) :
  (sum_upto (fun k => f k * c) m == sum_upto f m * c)%Q.
Proof.
  induction m as [|m IH]; simpl; [ring|]. rewrite IH. ring.
Qed.

Lemma sum_upto_shift (f : nat -> Q) (m : nat) :
  (sum_upto f (S m) == f O + sum_upto (fun k => f (S k)) m)%Q.
Proof.
  induction m as [|m IH]; [simpl; ring|].
  change (sum_upto f (S (S m))) with (sum_upto f (S m) + f (S m))%Q.
  rewrite IH. simpl. ring.
Qed.

Lemma binom_gt (n k : nat) : (n < k)%nat -> binom n k = 0%nat.
Proof.
  revert k. induction n as [|n IH]; intros k H.
  - destruct k; [lia | reflexivity].
  - destruct k as [|k]; [lia|]. simpl.
    rewrite (IH k), (IH (S k)) by lia. reflexivity.
Qed.

Lemma binom_zero (n : nat) : binom n 0 = 1%nat.
Proof. destruct n; reflexivity. Qed.

Lemma binom_diag (n : nat) : binom n n = 1%nat.
Proof.
  induction n as [|n IH]; [reflexivity|]. simpl.
  rewrite IH, binom_gt by lia. reflexivity.
Qed.

Lemma Qnat_plus (n m : nat) : (Qnat (n + m) == Qnat n + Qnat m)%Q.
Proof.
  unfold Qnat. rewrite Nat2Z.inj_add, inject_Z_plus. reflexivity.
Qed.

Lemma Qnat_S (n : nat) : (Qnat (S n) == Qnat n + 1)%Q.
Proof.
  replace (S n) with (n + 1)%nat by lia. apply Qnat_plus.
Qed.

Section Vandermonde.
Variables a b : Q.

(** The [k]-th term of the convolution of the two rising factorials. *)
Local Abbreviation term n k :=
  (Qnat (binom n k) * rising a k * rising b (n - k))%Q.

Lemma term_zero (n : nat) :
  (term (S n) O == term n O * (b + Qnat (n - 0)))%Q.
Proof.
  rewrite !binom_zero. simpl. rewrite Nat.sub_0_r. fold (Qnat n).
  change (Qnat 1) with 1%Q. ring.
Qed.

Lemma term_succ (n k : nat) :
  (k <= n)%nat ->
  (term (S n) (S k) ==
   term n k * (a + Qnat k) +
   Qnat (binom n (S k)) * rising a (S k) * rising b (n - k))%Q.
Proof.
  intros Hk. change (S n - S k)%nat with (n - k)%nat.
  change (binom (S n) (S k)) with (binom n k + binom n (S k))%nat.
  rewrite Qnat_plus. simpl. fold (Qnat k). ring.
Qed.

Lemma term_upper (n k : nat) :
  (k < n)%nat ->
  (Qnat (binom n (S k)) * rising a (S k) * rising b (n - k) ==
   term n (S k) * (b + Qnat (n - S k)))%Q.
Proof.
  intros Hk. replace (n - k)%nat with (S (n - S k)) by lia.
  simpl. fold (Qnat (n - S k)). ring.
Qed.

Lemma rising_convolution (n : nat) :
  (sum_upto (fun k => term n k) (S n) == rising (a + b) n)%Q.
Proof.
  induction n as [|n IH].
  - simpl. change (Qnat 1) with 1%Q. ring.
  - rewrite sum_upto_shift.
    rewrite (sum_upto_ext _
      (fun k => term n k * (a + Qnat k) +
                Qnat (binom n (S k)) * rising a (S k) * rising b (n - k))%Q)
      by (intros k Hk; apply term_succ; lia).
    rewrite sum_upto_plus.
    (* the last term of the second sum vanishes *)
    assert (Hlast :
      (sum_upto (fun k => Qnat (binom n (S k)) * rising a (S k)
                          * rising b (n - k)) (S n) ==
       sum_upto (fun k => term n (S k) * (b + Qnat (n - S k))) n)%Q).
    { change (sum_upto ?f (S n)) with (sum_upto f n + f n)%Q.
      cbv beta. rewrite (binom_gt n (S n)) by lia.
      rewrite (sum_upto_ext _
        (fun k => term n (S k) * (b + Qnat (n - S k)))%Q)
        by (intros k Hk; apply term_upper; lia).
      unfold Qnat at 3. simpl (inject_Z (Z.of_nat 0)). ring. }
    rewrite Hlast, term_zero.
    assert (Hre :
      (term n O * (b + Qnat (n - 0)) +
       sum_upto (fun k => term n (S k) * (b + Qnat (n - S k))) n ==
       sum_upto (fun k => term n k * (b + Qnat (n - k))) (S n))%Q).
    { rewrite (sum_upto_shift (fun k => term n k * (b + Qnat (n - k)))%Q).
      reflexivity. }
    rewrite Qplus_assoc.
    rewrite (Qplus_comm (term n O * (b + Qnat (n - 0)))).
    rewrite <- Qplus_assoc, Hre, <- sum_upto_plus.
    rewrite (sum_upto_ext _ (fun k => term n k * (a + b + Qnat n))%Q).
    + rewrite sum_upto_scale, IH. simpl. fold (Qnat n). reflexivity.
    + intros k Hk.
      assert (Hn : (Qnat n == Qnat k + Qnat (n - k))%Q).
      { rewrite <- Qnat_plus. replace (k + (n - k))%nat with n by lia.
        reflexivity. }
      rewrite Hn. ring.
Qed.
End Vandermonde.

Lemma rising_pos (x : Q) (m : nat) : (0 < x)%Q -> (0 < rising x m)%Q.
Proof.
  intros Hx. induction m as [|m IH]; simpl; [reflexivity|].
  apply Qmult_lt_0_compat; [exact IH|].
  apply Qlt_le_trans with (y := x); [exact Hx|].
  rewrite <- (Qplus_0_r x) at 1. apply Qplus_le_r.
  unfold Qle. simpl. lia.
Qed.

Lemma betabinom_mass_nonneg (n : nat) (a b : Q) (k : nat) :
  (0 < a)%Q -> (0 < b)%Q -> (0 <= betabinom_mass n a b k)%Q.
Proof.
  intros Ha Hb. unfold betabinom_mass.
  destruct (k <=? n)%nat; [|apply Qle_refl].
  assert (Hab : (0 < a + b)%Q).
  { apply Qlt_trans with (y := a); [exact Ha|].
    rewrite <- (Qplus_0_r a) at 1. apply Qplus_lt_r. exact Hb. }
  apply Qle_shift_div_l; [apply rising_pos; exact Hab|].
  rewrite Qmult_0_l.
  repeat apply Qmult_le_0_compat;
    try (apply Qlt_le_weak, rising_pos; assumption).
  unfold Qle. simpl. lia.
Qed.

(** The mass function sums to 1 over its support [0..n]. *)
Lemma betabinom_mass_total (n : nat) (a b : Q) :
  (0 < a)%Q -> (0 < b)%Q ->
  (sum_upto (betabinom_mass n a b) (S n) == 1)%Q.
Proof.
  intros Ha Hb.
  assert (Hab : (0 < rising (a + b) n)%Q).
  { apply rising_pos. apply Qlt_trans with (y := a); [exact Ha|].
    rewrite <- (Qplus_0_r a) at 1. apply Qplus_lt_r. exact Hb. }
  rewrite (sum_upto_ext _
    (fun k => Qnat (binom n k) * rising a k * rising b (n - k)
              * / rising (a + b) n)%Q).
  - rewrite sum_upto_scale, rising_convolution.
    apply Qmult_inv_r. intros Hz. rewrite Hz in Hab. discriminate Hab.
  - intros k Hk. unfold betabinom_mass.
    destruct (Nat.leb_spec k n) as [_|Hgt]; [|lia]. reflexivity.
Qed.

Lemma fsum_Num (g : nat -> Q) (l : list nat) :
  fsum (List.map (fun x => Num (g x)) l) = Num (Qsum (List.map g l)).
Proof.
  induction l as [|x l IH]; [reflexivity|].
  unfold fsum in *. simpl. rewrite IH. reflexivity.
Qed.

Lemma Qsum_snoc (l : list Q) (x : Q) : (Qsum (l ++ [x]) == Qsum l + x)%Q.
Proof.
  induction l as [|y l IH]; simpl; [ring|]. rewrite IH. ring.
Qed.

Lemma Qsum_seq (g : nat -> Q) (m : nat) :
  (Qsum (List.map g (seq 0 m)) == sum_upto g m)%Q.
Proof.
  induction m as [|m IH]; [reflexivity|].
  rewrite seq_S, List.map_app. cbn [List.map].
  rewrite Qsum_snoc, IH. reflexivity.
Qed.

(** Every row of the prior matrix is the mass function cut before its last
    point: it sums to 1 minus the mass at [x = P], which is positive. *)
Lemma prior_row_sum (P M : nat) (s : Q) (i : nat) :
  (0 < s)%Q -> (1 <= i <= M)%nat ->
  exists row t,
    nth_error (beta_binomial_prior_distribution P M s) (i - 1) = Some row /\
    fsum row = Num t /\
    (t == 1 - betabinom_mass P (s * Qnat i) (s * Qnat (M + 1 - i)) P)%Q /\
    (t < 1)%Q.
Proof.
  intros Hs Hi.
  set (a := (s * Qnat i)%Q). set (b := (s * Qnat (M + 1 - i))%Q).
  assert (Ha : (0 < a)%Q)
    by (apply Qmult_lt_0_compat; [exact Hs | apply Qnat_pos; lia]).
  assert (Hb : (0 < b)%Q)
    by (apply Qmult_lt_0_compat; [exact Hs | apply Qnat_pos; lia]).
  eexists _, _. split; [apply prior_row; assumption|].
  split; [apply fsum_Num|]. fold a b.
  assert (Hsum : (Qsum (List.map (betabinom_mass P a b) (seq 0 P)) ==
                  1 - betabinom_mass P a b P)%Q).
  { rewrite Qsum_seq. rewrite <- (betabinom_mass_total P a b Ha Hb).
    simpl. ring. }
  split; [exact Hsum|]. rewrite Hsum.
  assert (Hpos : (0 < betabinom_mass P a b P)%Q).
  { unfold betabinom_mass. rewrite Nat.leb_refl, binom_diag, Nat.sub_diag.
    assert (Hab : (0 < a + b)%Q).
    { apply Qlt_trans with (y := a); [exact Ha|].
      rewrite <- (Qplus_0_r a) at 1. apply Qplus_lt_r. exact Hb. }
    apply Qlt_shift_div_l; [apply rising_pos; exact Hab|].
    rewrite Qmult_0_l. change (Qnat 1) with 1%Q. simpl (rising b 0).
    rewrite Qmult_1_l, Qmult_1_r. apply rising_pos. exact Ha. }
  rewrite <- (Qplus_0_r 1) at 2. unfold Qminus. apply Qplus_lt_r.
  apply Qopp_lt_compat in Hpos. exact Hpos.
Qed.

Lemma Qnat_mult (n m : nat) : (Qnat (n * m) == Qnat n * Qnat m)%Q.
Proof.
  unfold Qnat. rewrite Nat2Z.inj_mul, inject_Z_mult. reflexivity.
Qed.

Lemma Qnat_fact_pos (n : nat) : (0 < Qnat (fact n))%Q.
Proof. apply Qnat_pos, lt_O_fact. Qed.

Lemma rising_fact (a k : nat) :
  (1 <= a)%nat ->
  (rising (Qnat a) k * Qnat (fact (a - 1)) == Qnat (fact (a + k - 1)))%Q.
Proof.
  intros Ha. induction k as [|k IH].
  - simpl. rewrite Nat.add_0_r. ring.
  - replace (a + S k - 1)%nat with (S (a + k - 1)) by lia.
    change (fact (S (a + k - 1))) with (S (a + k - 1) * fact (a + k - 1))%nat.
    rewrite Qnat_mult, <- IH. simpl. fold (Qnat k).
    replace (S (a + k - 1)) with (a + k)%nat by lia.
    rewrite Qnat_plus. ring.
Qed.

Lemma rising_Qeq (x y : Q) (m : nat) :
  (x == y)%Q -> (rising x m == rising y m)%Q.
Proof.
  intros H. induction m as [|m IH]; simpl; [reflexivity|].
  rewrite IH, H. reflexivity.
Qed.

(** On whole-number shapes the rising-factorial form is the textbook
    form. *)
Lemma betabinom_mass_is_beta_form (n a b k : nat) :
  (1 <= a)%nat -> (1 <= b)%nat -> (k <= n)%nat ->
  (betabinom_mass n (Qnat a) (Qnat b) k == betabinom_mass_beta n a b k)%Q.
Proof.
  intros Ha Hb Hk. unfold betabinom_mass, betabinom_mass_beta, beta_nat.
  destruct (Nat.leb_spec k n) as [_|Hgt]; [|lia].
  fold (Qnat (binom n k)).
  pose proof (rising_fact a k Ha) as Ea.
  pose proof (rising_fact b (n - k) Hb) as Eb.
  pose proof (rising_fact (a + b) n ltac:(lia)) as Eab.
  rewrite (rising_Qeq _ _ n (Qnat_plus a b)) in Eab.
  replace (k + a - 1)%nat with (a + k - 1)%nat by lia.
  replace (n - k + b - 1)%nat with (b + (n - k) - 1)%nat by lia.
  replace (k + a + (n - k + b) - 1)%nat with (a + b + n - 1)%nat by lia.
  rewrite <- Ea, <- Eb, <- Eab.
  pose proof (Qnat_fact_pos (a - 1)) as Pa.
  pose proof (Qnat_fact_pos (b - 1)) as Pb.
  pose proof (Qnat_fact_pos (a + b - 1)) as Pab.
  assert (Pr : (0 < rising (Qnat a + Qnat b) n)%Q).
  { apply rising_pos. rewrite <- Qnat_plus. apply Qnat_pos. lia. }
  field. repeat split; intros Hz;
    match goal with
    | H : (0 < ?x)%Q, Hz : (?x == 0)%Q |- _ =>
        rewrite Hz in H; discriminate H
    end.
Qed.

(** C3, as stated, fails: with [P = 3], [M = 2], [s = 1] no row sums to 1
    within 1e-6, because each row leaves out the mass at [x = P]. *)
Lemma prior_3_2_rows_do_not_sum_to_one :
  ~ Forall (fun row => sums_to_one (1 # 1000000) row = true)
      (beta_binomial_prior_distribution 3 2 1).
Proof.
  intros H. inversion H as [|row rows Hrow _]; subst.
  vm_compute in Hrow. discriminate Hrow.
Qed.

(** C3, amended.  With [P = 3], [M = 2], [s = 1] row 1 sums to 9/10 and
    row 2 to 6/10, every entry is non-negative, and the mode of row 1
    (index 0) is at most the mode of row 2 (index 2). *)
Theorem prior_3_2_rows :
  (exists t1 t2,
     List.map fsum (beta_binomial_prior_distribution 3 2 1) = [Num t1; Num t2] /\
     (t1 == 9 # 10)%Q /\ (t2 == 6 # 10)%Q) /\
  Forall (fun row => Forall (fun e => nonnegative e = true) row)
    (beta_binomial_prior_distribution 3 2 1) /\
  (np_argmax (nth 0 (beta_binomial_prior_distribution 3 2 1) []) <=
   np_argmax (nth 1 (beta_binomial_prior_distribution 3 2 1) []))%nat.
Proof.
  split.
  - eexists _, _. split; [vm_compute; reflexivity|].
    split; reflexivity.
  - split.
    + vm_compute. repeat constructor.
    + vm_compute. lia.
Qed.

(** ** Percentiles and the outlier filter *)

Lemma np_insert_length (x : Q) (l : list Q) :
  length (np_insert x l) = S (length l).
Proof.
  induction l as [|y l IH]; simpl; [reflexivity|].
  destruct (Qle_bool x y); simpl; [reflexivity | now rewrite IH].
Qed.

Lemma np_sort_length (l : list Q) : length (np_sort l) = length l.
Proof.
  induction l as [|x l IH]; simpl; [reflexivity|].
  now rewrite np_insert_length, IH.
Qed.

Lemma np_insert_Forall (P : Q -> Prop) (x : Q) (l : list Q) :
  P x -> Forall P l -> Forall P (np_insert x l).
Proof.
  intros Hx Hl. induction Hl as [|y l Hy Hl IH]; simpl.
  - constructor; [exact Hx | constructor].
  - destruct (Qle_bool x y); repeat (constructor; try assumption).
Qed.

Lemma np_sort_Forall (P : Q -> Prop) (l : list Q) :
  Forall P l -> Forall P (np_sort l).
Proof.
  induction 1 as [|x l Hx Hl IH]; simpl; [constructor|].
  now apply np_insert_Forall.
Qed.

Lemma Forall_nth_Q (P : Q -> Prop) (l : list Q) (i : nat) :
  Forall P l -> (i < length l)%nat -> P (nth i l 0%Q).
Proof.
  intros Hl. revert i. induction Hl as [|x l Hx Hl IH]; intros i Hi; simpl in *.
  - lia.
  - destruct i as [|i]; [exact Hx | apply IH; lia].
Qed.

(** On a non-empty array the percentile is a number, whatever the NumPy
    version. *)
Lemma np_percentile_defined (legacy : bool) (values : list Q) (q : nat) :
  values <> [] -> exists p, np_percentile legacy values q = Ok (Num p).
Proof.
  intros Hne. destruct values as [|v vs]; [congruence|].
  unfold np_percentile. eexists. reflexivity.
Qed.

Lemma np_percentile_legacy_irrelevant (l1 l2 : bool) (values : list Q) (q : nat) :
  values <> [] -> np_percentile l1 values q = np_percentile l2 values q.
Proof.
  intros Hne. destruct values as [|v vs]; [congruence|]. reflexivity.
Qed.

Lemma np_percentile_constant (legacy : bool) (c : Q) (values : list Q) (q : nat) :
  values <> [] -> (q <= 100)%nat -> Forall (fun v => (v == c)%Q) values ->
  exists p, np_percentile legacy values q = Ok (Num p) /\ (p == c)%Q.
Proof.
  intros Hne Hq Hall. destruct values as [|v vs]; [congruence|].
  unfold np_percentile. eexists. split; [reflexivity|].
  set (l := v :: vs) in *.
  assert (Hlen : (0 < length l)%nat) by (subst l; simpl; lia).
  assert (Hs : Forall (fun v => (v == c)%Q) (np_sort l))
    by now apply np_sort_Forall.
  assert (Hprev : (q * (length l - 1) / 100 < length l)%nat).
  { apply Nat.Div0.div_lt_upper_bound. nia. }
  pose proof (Forall_nth_Q _ _ (q * (length l - 1) / 100) Hs) as Hlo.
  pose proof (Forall_nth_Q _ _
    (Nat.min (q * (length l - 1) / 100 + 1) (length l - 1)) Hs) as Hhi.
  rewrite np_sort_length in Hlo, Hhi.
  specialize (Hlo Hprev). cbv beta in Hlo.
  assert (Hnext : (Nat.min (q * (length l - 1) / 100 + 1) (length l - 1)
                   < length l)%nat) by lia.
  specialize (Hhi Hnext). cbv beta in Hhi.
  rewrite Hlo, Hhi. ring.
Qed.

Lemma filter_none {A : Type} (f : A -> bool) (l : list A) :
  (forall x, In x l -> f x = false) -> List.filter f l = [].
Proof.
  induction l as [|x l IH]; intros Hall; [reflexivity|]. simpl.
  rewrite (Hall x) by (left; reflexivity).
  apply IH. intros y Hy. apply Hall. right. exact Hy.
Qed.

Lemma remove_outlier_filter (legacy : bool) (values : list Q) (p25 p75 : Q) :
  np_percentile legacy values 25 = Ok (Num p25) ->
  np_percentile legacy values 75 = Ok (Num p75) ->
  remove_outlier legacy values =
  Ok (List.filter
        (fun v => Qltb (p25 - (3 # 2) * (p75 - p25)) v
                  && Qltb v (p75 + (3 # 2) * (p75 - p25)))
        values).
Proof.
  intros H25 H75. unfold remove_outlier. rewrite H25, H75. reflexivity.
Qed.

(** C8. On a non-empty array the filter keeps exactly the values strictly
    between [p25 - 1.5*(p75-p25)] and [p75 + 1.5*(p75-p25)], in their
    order; on
    [[1,2,3,4,100]] it drops 100 and keeps 1, 2, 3, 4; and when every
    value lies outside the strict bounds it returns the empty array
    without raising. *)
Theorem remove_outlier_spec :
  (forall (legacy : bool) (values : list Q),
      values <> [] ->
      exists p25 p75 result,
        np_percentile legacy values 25 = Ok (Num p25) /\
        np_percentile legacy values 75 = Ok (Num p75) /\
        remove_outlier legacy values = Ok result /\
        result =
        List.filter
          (fun v => Qltb (p25 - (3 # 2) * (p75 - p25)) v
                    && Qltb v (p75 + (3 # 2) * (p75 - p25)))
          values /\
        (forall v, In v result <->
                   In v values /\
                   (p25 - (3 # 2) * (p75 - p25) < v)%Q /\
                   (v < p75 + (3 # 2) * (p75 - p25))%Q) /\
        ((forall v, In v values ->
                    ~ ((p25 - (3 # 2) * (p75 - p25) < v)%Q /\
                       (v < p75 + (3 # 2) * (p75 - p25))%Q)) ->
         result = [])) /\
  (forall legacy : bool,
      remove_outlier legacy [1; 2; 3; 4; 100]%Q = Ok [1; 2; 3; 4]%Q).
Proof.
  split.
  - intros legacy values Hne.
    destruct (np_percentile_defined legacy values 25 Hne) as [p25 H25].
    destruct (np_percentile_defined legacy values 75 Hne) as [p75 H75].
    exists p25, p75. eexists. split; [exact H25|]. split; [exact H75|].
    split; [apply remove_outlier_filter; eassumption|].
    split; [reflexivity|].
    split.
    + intros v. rewrite filter_In, andb_true_iff, !Qltb_lt. tauto.
    + intros Hout. apply filter_none. intros v Hv.
      apply not_true_iff_false. intros Ht. apply (Hout v Hv).
      apply andb_true_iff in Ht. rewrite !Qltb_lt in Ht. exact Ht.
  - intros [|]; vm_compute; reflexivity.
Qed.

Lemma remove_outlier_spec_witness :
  exists result,
    remove_outlier true [5; 5; 5]%Q = Ok result /\ result = [].
Proof.
  destruct remove_outlier_spec as [H _].
  destruct (H true [5; 5; 5]%Q ltac:(discriminate))
    as (p25 & p75 & result & H25 & H75 & Hres & _ & _ & Hout).
  exists result. split; [exact Hres|].
  apply Hout. intros v Hv [Hlo _].
  vm_compute in H25. vm_compute in H75.
  injection H25 as <-. injection H75 as <-.
  simpl in Hv. destruct Hv as [<-|[<-|[<-|[]]]]; vm_compute in Hlo; discriminate.
Defined.

(** C10. The filter empties every non-empty array whose values are all
    equal, and the accumulator is left as it was when handed the empty
    sample. *)
Theorem remove_outlier_constant (legacy : bool) (c : Q) (values : list Q)
    (scaler : StandardScaler) :
  values <> [] -> Forall (fun v => (v == c)%Q) values ->
  remove_outlier legacy values = Ok [] /\
  rbind (remove_outlier legacy values) (fun e => Ok (partial_fit scaler e))
  = Ok scaler.
Proof.
  intros Hne Hall.
  assert (Hrm : remove_outlier legacy values = Ok []).
  { destruct (np_percentile_constant legacy c values 25 Hne ltac:(lia) Hall)
      as (p25 & H25 & E25).
    destruct (np_percentile_constant legacy c values 75 Hne ltac:(lia) Hall)
      as (p75 & H75 & E75).
    rewrite (remove_outlier_filter legacy values p25 p75 H25 H75).
    f_equal. apply filter_none. intros v Hv.
    rewrite List.Forall_forall in Hall. specialize (Hall v Hv).
    apply andb_false_iff. left. apply Qltb_false.
    rewrite Hall, E25, E75. ring_simplify. apply Qle_refl. }
  split; [exact Hrm|]. rewrite Hrm. reflexivity.
Qed.

Lemma remove_outlier_constant_witness :
  remove_outlier true [7; 7]%Q = Ok [] /\
  rbind (remove_outlier true [7; 7]%Q)
    (fun e => Ok (partial_fit [1; 2]%Q e)) = Ok [1; 2]%Q.
Proof.
  apply (remove_outlier_constant true 7 [7; 7]%Q [1; 2]%Q).
  - discriminate.
  - repeat constructor.
Defined.

(** ** Pitch statistics *)

Lemma collect_f0_concat (arrays acc : list (list Q)) :
  concat (fold_left collect_f0 arrays acc) = concat acc ++ concat arrays.
Proof.
  revert acc. induction arrays as [|a arrays IH]; intros acc; simpl.
  - now rewrite app_nil_r.
  - rewrite IH. unfold collect_f0. destruct a as [|x a]; simpl.
    + reflexivity.
    + rewrite concat_app. simpl. rewrite app_nil_r, <- app_assoc. reflexivity.
Qed.

Lemma compute_f0_stats_cases (sqrt : Q -> Q) (f0s : list (list Q)) :
  compute_f0_stats sqrt f0s =
  match f0s with
  | [] => Raise UnboundLocalError
  | _ :: _ => Ok (np_mean (voiced f0s), np_std sqrt (voiced f0s))
  end.
Proof. destruct f0s; reflexivity. Qed.

(** C7. The F0 statistics are the population mean and deviation of the
    non-zero entries of all per-utterance arrays put end to end.  When
    there is no voiced sample the computation gives no number: it raises
    UnboundLocalError if no array was collected, and yields (NaN, NaN) if
    arrays were collected but hold only zeros. *)
Theorem compute_f0_stats_spec (sqrt : Q -> Q) (arrays : list (list Q)) :
  let f0s := fold_left collect_f0 arrays [] in
  (voiced arrays <> [] ->
   compute_f0_stats sqrt f0s =
   Ok (Num (mean (voiced arrays)), Num (sqrt (variance (voiced arrays))))) /\
  (voiced arrays = [] ->
   (compute_f0_stats sqrt f0s = Raise UnboundLocalError \/
    compute_f0_stats sqrt f0s = Ok (NaN, NaN)) /\
   forall m s, compute_f0_stats sqrt f0s <> Ok (Num m, Num s)).
Proof.
  intros f0s.
  assert (Hv : voiced f0s = voiced arrays).
  { unfold voiced, f0s. now rewrite collect_f0_concat. }
  rewrite compute_f0_stats_cases, Hv. split.
  - intros Hne. destruct f0s as [|a f0s'] eqn:E.
    + exfalso. apply Hne. rewrite <- Hv. reflexivity.
    + unfold np_mean, np_std. destruct (voiced arrays); [congruence|reflexivity].
  - intros ->. destruct f0s as [|a f0s']; simpl.
    + split; [left; reflexivity | discriminate].
    + split; [right; reflexivity | discriminate].
Qed.

Lemma compute_f0_stats_spec_witness :
  compute_f0_stats (fun x => x) (fold_left collect_f0 [[0; 1; 3]%Q; []; [0]%Q] [])
  = Ok (Num (mean [1; 3]%Q), Num (variance [1; 3]%Q)) /\
  compute_f0_stats (fun x => x) (fold_left collect_f0 [[0; 0]%Q] [])
  <> Ok (Num 0, Num 0).
Proof.
  split.
  - apply (compute_f0_stats_spec (fun x => x) [[0; 1; 3]%Q; []; [0]%Q]).
    discriminate.
  - apply (compute_f0_stats_spec (fun x => x) [[0; 0]%Q]). reflexivity.
Defined.

(** ** The energy re-normalization pass *)

Lemma py_min2_cases (a b : Q) :
  (py_min2 a b = a \/ py_min2 a b = b) /\
  (py_min2 a b <= a)%Q /\ (py_min2 a b <= b)%Q.
Proof.
  unfold py_min2. destruct (Qltb b a) eqn:E.
  - apply Qltb_lt in E. split; [right; reflexivity|].
    split; [apply Qlt_le_weak; exact E | apply Qle_refl].
  - apply Qltb_false in E. split; [left; reflexivity|].
    split; [apply Qle_refl | exact E].
Qed.

Lemma py_max2_cases (a b : Q) :
  (py_max2 a b = a \/ py_max2 a b = b) /\
  (a <= py_max2 a b)%Q /\ (b <= py_max2 a b)%Q.
Proof.
  unfold py_max2. destruct (Qltb a b) eqn:E.
  - apply Qltb_lt in E. split; [right; reflexivity|].
    split; [apply Qlt_le_weak; exact E | apply Qle_refl].
  - apply Qltb_false in E. split; [left; reflexivity|].
    split; [apply Qle_refl | exact E].
Qed.

Lemma fold_py_min2 (vs : list Q) (v : Q) :
  (fold_left py_min2 vs v = v \/ In (fold_left py_min2 vs v) vs) /\
  (fold_left py_min2 vs v <= v)%Q /\
  (forall x, In x vs -> (fold_left py_min2 vs v <= x)%Q).
Proof.
  revert v. induction vs as [|w vs IH]; intros v; simpl.
  - split; [left; reflexivity|]. split; [apply Qle_refl | intros x []].
  - destruct (IH (py_min2 v w)) as (Hin & Hle & Hall).
    destruct (py_min2_cases v w) as (Hc & Hv & Hw).
    split.
    + destruct Hin as [Heq|Hin]; [|right; right; exact Hin].
      rewrite Heq. destruct Hc as [->| ->]; [left|right; left]; reflexivity.
    + split; [eapply Qle_trans; eassumption|].
      intros x [<-|Hx]; [eapply Qle_trans; eassumption | apply Hall, Hx].
Qed.

Lemma fold_py_max2 (vs : list Q) (v : Q) :
  (fold_left py_max2 vs v = v \/ In (fold_left py_max2 vs v) vs) /\
  (v <= fold_left py_max2 vs v)%Q /\
  (forall x, In x vs -> (x <= fold_left py_max2 vs v)%Q).
Proof.
  revert v. induction vs as [|w vs IH]; intros v; simpl.
  - split; [left; reflexivity|]. split; [apply Qle_refl | intros x []].
  - destruct (IH (py_max2 v w)) as (Hin & Hle & Hall).
    destruct (py_max2_cases v w) as (Hc & Hv & Hw).
    split.
    + destruct Hin as [Heq|Hin]; [|right; right; exact Hin].
      rewrite Heq. destruct Hc as [->| ->]; [left|right; left]; reflexivity.
    + split; [eapply Qle_trans; eassumption|].
      intros x [<-|Hx]; [eapply Qle_trans; eassumption | apply Hall, Hx].
Qed.

Lemma py_min_spec (l : list Q) :
  l <> [] ->
  exists m, py_min l = Ok m /\ In m l /\ forall x, In x l -> (m <= x)%Q.
Proof.
  destruct l as [|v vs]; [congruence|]. intros _.
  destruct (fold_py_min2 vs v) as (Hin & Hle & Hall).
  eexists. split; [reflexivity|]. split.
  - destruct Hin as [->|Hin]; [left; reflexivity | right; exact Hin].
  - intros x [<-|Hx]; [exact Hle | apply Hall, Hx].
Qed.

Lemma py_max_spec (l : list Q) :
  l <> [] ->
  exists m, py_max l = Ok m /\ In m l /\ forall x, In x l -> (x <= m)%Q.
Proof.
  destruct l as [|v vs]; [congruence|]. intros _.
  destruct (fold_py_max2 vs v) as (Hin & Hle & Hall).
  eexists. split; [reflexivity|]. split.
  - destruct Hin as [->|Hin]; [left; reflexivity | right; exact Hin].
  - intros x [<-|Hx]; [exact Hle | apply Hall, Hx].
Qed.

Section NormalizePass.
Variables mean std : Q.
Local Abbreviation tr := (normalize_value mean std).

(** One file of the pass. *)
Lemma normalize_step_ok (d : gmap string (list Q)) (mn mx : Q)
    (k : string) (v : list Q) :
  d !! k = Some v -> v <> [] ->
  exists m M,
    normalize_step mean std (Ok (d, mn, mx)) k =
    Ok (<[k := List.map tr v]> d, py_min2 mn m, py_max2 mx M) /\
    In m (List.map tr v) /\ (forall x, In x (List.map tr v) -> (m <= x)%Q) /\
    In M (List.map tr v) /\ (forall x, In x (List.map tr v) -> (x <= M)%Q).
Proof.
  intros Hk Hne.
  assert (Hne' : List.map tr v <> []) by (destruct v; [congruence|discriminate]).
  destruct (py_min_spec _ Hne') as (m & Hm & Hmin & Hmle).
  destruct (py_max_spec _ Hne') as (M & HM & HMin & HMle).
  exists m, M. split; [|tauto].
  unfold normalize_step, np_load. simpl. rewrite Hk. simpl.
  fold tr. rewrite HM. simpl. rewrite Hm. reflexivity.
Qed.

Lemma normalize_fold (ks : list string) :
  NoDup ks ->
  forall (d : gmap string (list Q)) (mn mx : Q),
    (forall k, k ∈ ks -> exists v, d !! k = Some v /\ v <> []) ->
    exists d' mn' mx',
      fold_left (normalize_step mean std) ks (Ok (d, mn, mx)) =
      Ok (d', mn', mx') /\
      (forall k, d' !! k =
                 if decide (k ∈ ks) then List.map tr <$> (d !! k) else d !! k) /\
      ((mn' <= mn)%Q /\ (mx <= mx')%Q) /\
      (forall k v x, k ∈ ks -> d !! k = Some v -> In x v ->
                     (mn' <= tr x)%Q /\ (tr x <= mx')%Q) /\
      (mn' = mn \/
       exists k v x, k ∈ ks /\ d !! k = Some v /\ In x v /\ mn' = tr x) /\
      (mx' = mx \/
       exists k v x, k ∈ ks /\ d !! k = Some v /\ In x v /\ mx' = tr x).
Proof.
  induction 1 as [|k ks Hk Hnd IH]; intros d mn mx Hall.
  - exists d, mn, mx. split; [reflexivity|].
    split; [intros k; rewrite decide_False; [reflexivity | apply not_elem_of_nil]|].
    split; [split; apply Qle_refl|].
    split; [intros k v x Hin; exfalso; revert Hin; apply not_elem_of_nil|].
    split; left; reflexivity.
  - destruct (Hall k) as (v & Hv & Hne); [left|].
    destruct (normalize_step_ok d mn mx k v Hv Hne)
      as (m & M & Hstep & Hm & Hmle & HM & HMle).
    cbn [fold_left]. rewrite Hstep.
    set (d1 := <[k := List.map tr v]> d).
    assert (Hother : forall k', k' ∈ ks -> d1 !! k' = d !! k').
    { intros k' Hk'. unfold d1. apply lookup_insert_ne.
      intros ->. contradiction. }
    destruct (IH d1 (py_min2 mn m) (py_max2 mx M))
      as (d' & mn' & mx' & Hfold & Hlook & [Hmn Hmx] & Hbnd & Hmin & Hmax).
    { intros k' Hk'. rewrite (Hother k' Hk'). apply Hall. now right. }
    destruct (py_min2_cases mn m) as (Hmc & Hm1 & Hm2).
    destruct (py_max2_cases mx M) as (HMc & HM1 & HM2).
    exists d', mn', mx'. split; [exact Hfold|].
    split.
    { intros k'. rewrite Hlook.
      destruct (decide (k' ∈ ks)) as [Hin|Hnin].
      - rewrite decide_True by now right. now rewrite Hother.
      - destruct (decide (k' = k)) as [->|Hneq].
        + rewrite decide_True by left. unfold d1.
          rewrite lookup_insert_eq, Hv. reflexivity.
        + rewrite decide_False.
          * unfold d1. now rewrite lookup_insert_ne.
          * intros Hc. apply elem_of_cons in Hc. tauto. }
    split; [split; eapply Qle_trans; eassumption|].
    split.
    { intros k' v' x Hin Hv' Hx. apply elem_of_cons in Hin.
      destruct Hin as [->|Hin].
      - rewrite Hv in Hv'. injection Hv' as <-.
        assert (Hx' : In (tr x) (List.map tr v)) by now apply in_map.
        split.
        + eapply Qle_trans; [exact Hmn|].
          eapply Qle_trans; [exact Hm2|]. now apply Hmle.
        + eapply Qle_trans; [|exact Hmx].
          eapply Qle_trans; [|exact HM2]. now apply HMle.
      - apply (Hbnd k' v' x Hin); [|exact Hx]. now rewrite Hother. }
    split.
    { destruct Hmin as [->|(k' & v' & x & Hin & Hv' & Hx & ->)].
      - destruct Hmc as [->| ->]; [left; reflexivity|].
        right. apply in_map_iff in Hm. destruct Hm as (x & <- & Hx).
        exists k, v, x. split; [left|]. tauto.
      - right. exists k', v', x. split; [now right|].
        rewrite <- (Hother k' Hin). tauto. }
    { destruct Hmax as [->|(k' & v' & x & Hin & Hv' & Hx & ->)].
      - destruct HMc as [->| ->]; [left; reflexivity|].
        right. apply in_map_iff in HM. destruct HM as (x & <- & Hx).
        exists k, v, x. split; [left|]. tauto.
      - right. exists k', v', x. split; [now right|].
        rewrite <- (Hother k' Hin). tauto. }
Qed.

Lemma elem_of_listdir (d : gmap string (list Q)) (k : string) :
  k ∈ listdir d <-> is_Some (d !! k).
Proof.
  unfold listdir. rewrite list_elem_of_fmap. split.
  - intros ([k' v] & -> & Hin). apply elem_of_map_to_list in Hin.
    simpl. eauto.
  - intros [v Hv]. exists (k, v). split; [reflexivity|].
    now apply elem_of_map_to_list.
Qed.

(** C9. When every energy file holds at least one value and the
    transformed values are within the float64 range, the pass returns;
    afterwards every file holds its former values mapped through
    [(v - mean) / std], and the reported minimum and maximum bound all
    transformed values and are each attained by one of them. *)
Theorem normalize_spec (in_dir : gmap string (list Q)) :
  (forall k v, in_dir !! k = Some v -> v <> []) ->
  (forall k v x, in_dir !! k = Some v -> In x v ->
                 (finfo_min <= (x - mean) / std)%Q /\
                 ((x - mean) / std <= finfo_max)%Q) ->
  exists mn mx,
    normalize in_dir mean std =
    Ok (List.map (fun v => ((v - mean) / std)%Q) <$> in_dir, mn, mx) /\
    (forall k v x, in_dir !! k = Some v -> In x v ->
                   (mn <= (x - mean) / std)%Q /\
                   ((x - mean) / std <= mx)%Q) /\
    (in_dir <> ∅ ->
     (exists k v x, in_dir !! k = Some v /\ In x v /\
                    (mn == (x - mean) / std)%Q) /\
     (exists k v x, in_dir !! k = Some v /\ In x v /\
                    (mx == (x - mean) / std)%Q)).
Proof.
  intros Hne Hrange.
  change (forall k v x, in_dir !! k = Some v -> In x v ->
            (finfo_min <= tr x)%Q /\ (tr x <= finfo_max)%Q) in Hrange.
  change (fun v : Q => ((v - mean) / std)%Q) with tr.
  destruct (normalize_fold (listdir in_dir) (NoDup_fst_map_to_list in_dir)
              in_dir finfo_max finfo_min)
    as (d' & mn & mx & Hfold & Hlook & [Hmn Hmx] & Hbnd & Hmin & Hmax).
  { intros k Hk. apply elem_of_listdir in Hk. destruct Hk as [v Hv].
    exists v. split; [exact Hv | eapply Hne; exact Hv]. }
  assert (Hd' : d' = List.map tr <$> in_dir).
  { apply map_eq. intros k. rewrite Hlook, lookup_fmap.
    destruct (decide (k ∈ listdir in_dir)) as [Hin|Hnin]; [reflexivity|].
    destruct (in_dir !! k) as [v|] eqn:Hv; [|reflexivity].
    exfalso. apply Hnin. apply elem_of_listdir. eauto. }
  exists mn, mx. unfold normalize. rewrite Hfold, Hd'.
  split; [reflexivity|].
  assert (Hall : forall k v x, in_dir !! k = Some v -> In x v ->
                               (mn <= tr x)%Q /\ (tr x <= mx)%Q).
  { intros k v x Hv Hx. apply (Hbnd k v x); [|exact Hv|exact Hx].
    apply elem_of_listdir. eauto. }
  split; [exact Hall|].
  intros Hnonempty.
  assert (Hex : exists k v x, in_dir !! k = Some v /\ In x v).
  { destruct (map_choose in_dir Hnonempty) as (k & v & Hv).
    pose proof (Hne k v Hv) as Hv'. destruct v as [|x v]; [congruence|].
    exists k, (x :: v), x. split; [exact Hv | left; reflexivity]. }
  destruct Hex as (k0 & v0 & x0 & Hv0 & Hx0).
  destruct (Hall k0 v0 x0 Hv0 Hx0) as [Hlo Hhi].
  destruct (Hrange k0 v0 x0 Hv0 Hx0) as [Hrlo Hrhi].
  split.
  - destruct Hmin as [->|(k & v & x & _ & Hv & Hx & ->)].
    + exists k0, v0, x0. split; [exact Hv0|]. split; [exact Hx0|].
      apply Qle_antisym; assumption.
    + exists k, v, x. split; [exact Hv|]. split; [exact Hx | reflexivity].
  - destruct Hmax as [->|(k & v & x & _ & Hv & Hx & ->)].
    + exists k0, v0, x0. split; [exact Hv0|]. split; [exact Hx0|].
      apply Qle_antisym; assumption.
    + exists k, v, x. split; [exact Hv|]. split; [exact Hx | reflexivity].
Qed.
End NormalizePass.

Lemma normalize_spec_witness :
  exists mn mx,
    normalize demo_energy_dir 2 1 =
    Ok (List.map (fun v => ((v - 2) / 1)%Q) <$> demo_energy_dir, mn, mx) /\
    (List.map (fun v => ((v - 2) / 1)%Q) <$> demo_energy_dir)
      !! "LJSpeech-energy-LJ001-0001.npy" = Some [-1 # 1; 1 # 1]%Q /\
    (mn <= (3 - 2) / 1)%Q /\ ((1 - 2) / 1 <= mx)%Q.
Proof.
  assert (Hne : forall k v, demo_energy_dir !! k = Some v -> v <> []).
  { intros k v H. unfold demo_energy_dir in H.
    apply lookup_singleton_Some in H as [_ <-]. discriminate. }
  assert (Hrange : forall k v x, demo_energy_dir !! k = Some v -> In x v ->
            (finfo_min <= (x - 2) / 1)%Q /\ ((x - 2) / 1 <= finfo_max)%Q).
  { intros k v x H Hx. unfold demo_energy_dir in H.
    apply lookup_singleton_Some in H as [_ <-].
    simpl in Hx. destruct Hx as [<-|[<-|[]]]; split; vm_compute; discriminate. }
  destruct (normalize_spec 2 1 demo_energy_dir Hne Hrange)
    as (mn & mx & Hn & Hb & _).
  exists mn, mx. split; [exact Hn|].
  split; [vm_compute; reflexivity|].
  assert (Hl : demo_energy_dir !! "LJSpeech-energy-LJ001-0001.npy"
               = Some [1; 3]%Q) by apply lookup_singleton_eq.
  split.
  - apply (Hb _ _ 3%Q Hl). right. left. reflexivity.
  - apply (Hb _ _ 1%Q Hl). left. reflexivity.
Defined.

(** ** The per-utterance pipeline *)

Tactic Notation "bind_ok" hyp(H) "as" simple_intropattern(x) :=
  match type of H with
  | rbind ?r _ = Ok _ =>
      let E := fresh "E" in
      destruct r as [x|?] eqn:E; cbn [rbind] in H; [|discriminate H]
  end.

Lemma np_load_Some {A : Type} (dir : gmap string A) (k : string) (a : A) :
  np_load dir k = Ok a <-> dir !! k = Some a.
Proof.
  unfold np_load. destruct (dir !! k); split; intros H; congruence.
Qed.

Section Stages.
Variable C : Collaborators.
Variable cfg : Config.

Lemma text_stage_ok (d d' : Disk) (tf phones : string) (text : list Z) :
  text_stage C d tf phones = Ok (d', text) ->
  text_dir d' !! tf = Some text /\
  wav_dir d' = wav_dir d /\ mel_dir d' = mel_dir d /\
  energy_dir d' = energy_dir d /\ f0_dir d' = f0_dir d /\
  attn_prior_dir d' = attn_prior_dir d.
Proof.
  unfold text_stage. intros H.
  destruct (text_dir d !! tf) eqn:Hl; bind_ok H as t;
    injection H as <- <-.
  - apply np_load_Some in E. tauto.
  - simpl. rewrite lookup_insert_eq. tauto.
Qed.

(** The wav file is written with the configured rate; a file that is
    already there is read through [librosa.load] at the configured rate. *)
Lemma wav_stage_ok (d d' : Disk) (wf wav_path : string) (wav : list Q)
    (duration : option nat) :
  wav_stage C cfg d wf wav_path = Ok (d', wav, duration) ->
  (exists file,
     wav_dir d' !! wf = Some file /\
     (wav_dir d !! wf = None ->
      file = {| wav_rate := sampling_rate cfg; wav_samples := wav |}) /\
     (wav_dir d !! wf <> None ->
      librosa_load_wav C file (sampling_rate cfg) = Ok wav)) /\
  text_dir d' = text_dir d /\ mel_dir d' = mel_dir d /\
  energy_dir d' = energy_dir d /\ f0_dir d' = f0_dir d /\
  attn_prior_dir d' = attn_prior_dir d.
Proof.
  unfold wav_stage. intros H.
  destruct (wav_dir d !! wf) as [present|] eqn:Hl.
  - bind_ok H as file. bind_ok H as w. injection H as <- <- <-.
    apply np_load_Some in E. split; [|tauto].
    exists file. rewrite E. split; [reflexivity|].
    split; [congruence | intros _; exact E0].
  - bind_ok H as [w dur]. bind_ok H as w'. injection H as <- <- <-.
    simpl. rewrite lookup_insert_eq. split; [|tauto].
    eexists. split; [reflexivity|]. split; [reflexivity | congruence].
Qed.

(** The matrix kept in the mel file and the one held in memory are
    transposes of each other; [n_mel] is the frame count of either. *)
Lemma mel_stage_ok (d d' : Disk) (mf ef : string) (wav : list Q)
    (duration : option nat) (mel : ndarray2) (energy : list Q) :
  mel_stage C d mf ef wav duration = Ok (d', mel, energy) ->
  (exists M, mel_dir d' !! mf = Some M /\
             shape1 (transpose M) = shape1 mel /\
             (mel_dir d !! mf = None -> M = transpose mel) /\
             (mel_dir d !! mf <> None -> mel = transpose M)) /\
  energy_dir d' !! ef = Some energy /\
  text_dir d' = text_dir d /\ wav_dir d' = wav_dir d /\
  f0_dir d' = f0_dir d /\ attn_prior_dir d' = attn_prior_dir d.
Proof.
  unfold mel_stage. intros H.
  destruct (mel_dir d !! mf) eqn:Hl.
  - bind_ok H as M. bind_ok H as e. injection H as <- <- <-.
    apply np_load_Some in E, E0. split; [|tauto].
    exists M. rewrite E. split; [reflexivity|].
    split; [reflexivity|]. split; [congruence | reflexivity].
  - bind_ok H as [m e]. bind_ok H as dur. injection H as <- <- <-.
    simpl. rewrite !lookup_insert_eq. split; [|tauto].
    eexists. split; [reflexivity|]. split; [reflexivity|].
    split; [reflexivity | congruence].
Qed.

Lemma f0_stage_ok (d d' : Disk) (ff : string) (wav : list Q)
    (mel : ndarray2) (duration : option nat) (f0 : list Q) :
  f0_stage C d ff wav mel duration = Ok (d', f0) ->
  f0_dir d' !! ff = Some f0 /\
  text_dir d' = text_dir d /\ wav_dir d' = wav_dir d /\
  mel_dir d' = mel_dir d /\ energy_dir d' = energy_dir d /\
  attn_prior_dir d' = attn_prior_dir d.
Proof.
  unfold f0_stage. intros H.
  destruct (f0_dir d !! ff) eqn:Hl.
  - bind_ok H as f. injection H as <- <-. apply np_load_Some in E. tauto.
  - bind_ok H as f. bind_ok H as dur. injection H as <- <-.
    simpl. rewrite lookup_insert_eq. tauto.
Qed.

Lemma attn_prior_stage_ok (d d' : Disk) (af : string) (mel : ndarray2)
    (text : list Z) (attn : list (list npfloat)) :
  attn_prior_stage cfg d af mel text = Ok (d', attn) ->
  attn_prior_dir d' !! af = Some attn /\
  (attn_prior_dir d !! af = None ->
   attn = beta_binomial_prior_distribution (shape1 mel) (length text)
            (beta_binomial_scaling_factor cfg)) /\
  text_dir d' = text_dir d /\ wav_dir d' = wav_dir d /\
  mel_dir d' = mel_dir d /\ energy_dir d' = energy_dir d /\
  f0_dir d' = f0_dir d.
Proof.
  unfold attn_prior_stage. intros H.
  destruct (attn_prior_dir d !! af) eqn:Hl.
  - bind_ok H as a. injection H as <- <-. apply np_load_Some in E.
    split; [exact E|]. split; [congruence | tauto].
  - injection H as <- <-. simpl. rewrite lookup_insert_eq. tauto.
Qed.
End Stages.

Section ProcessUtterance.
Variable C : Collaborators.
Variable cfg : Config.

(** What a normal return of [process_utterance] leaves behind: the
    tuple is never [None], and all six artifacts are on disk. *)
Lemma process_utterance_ok (d d1 : Disk) (raw_text wav_path speaker
    basename : string) (ret : option UtteranceResult) :
  process_utterance C cfg d raw_text wav_path speaker basename = Ok (d1, ret) ->
  exists r text wav M energy f0 attn,
    ret = Some r /\
    cached d1 speaker basename text wav M energy f0 attn /\
    remove_outlier (legacy_numpy C) energy = Ok (ret_energy r) /\
    shape1 (transpose M) = n_mel r /\ n_mel r <> 0%nat /\
    ret_f0 r = f0 /\
    (exists w,
       n_wav r = length w /\
       (wav_dir d !! artifact_filename speaker "wav" basename ".wav" = None ->
        wav = {| wav_rate := sampling_rate cfg; wav_samples := w |}) /\
       (wav_dir d !! artifact_filename speaker "wav" basename ".wav" <> None ->
        librosa_load_wav C wav (sampling_rate cfg) = Ok w)) /\
    info r = str_join "|" [basename; speaker; phones_of C raw_text; raw_text] /\
    (attn_prior_dir d !! artifact_filename speaker "attn_prior" basename ".npy"
     = None ->
     attn = beta_binomial_prior_distribution (n_mel r) (length text)
              (beta_binomial_scaling_factor cfg)).
Proof.
  unfold process_utterance. intros H.
  bind_ok H as [da text]. bind_ok H as [[db wav] duration].
  bind_ok H as [[dc mel] energy]. bind_ok H as [dd f0].
  bind_ok H as [de attn]. bind_ok H as energy'.
  bind_ok H as mins. bind_ok H as maxs.
  injection H as <- <-.
  apply text_stage_ok in E as (Ht & Ha1 & Ha2 & Ha3 & Ha4 & Ha5).
  apply wav_stage_ok in E0
    as ((file & Hw & Hwnew & Hwold) & Hb1 & Hb2 & Hb3 & Hb4 & Hb5).
  apply mel_stage_ok in E1
    as ((M & HM & Hsh & _) & He & Hc1 & Hc2 & Hc3 & Hc4).
  apply f0_stage_ok in E2 as (Hf & Hd1 & Hd2 & Hd3 & Hd4 & Hd5).
  apply attn_prior_stage_ok in E3
    as (Hat & Hfresh & He1 & He2 & He3 & He4 & He5).
  rewrite Ha1 in Hwnew, Hwold.
  eexists _, text, file, M, energy, f0, attn.
  split; [reflexivity|]. cbn [n_mel ret_energy ret_f0 n_wav info].
  split.
  { unfold cached. rewrite He1, Hd1, Hc1, Hb1, He2, Hd2, Hc2, He3, Hd3,
      He4, Hd4, He5. tauto. }
  split; [exact E4|]. split; [exact Hsh|].
  split.
  { unfold np_min_axis1 in E5.
    destruct (shape1 mel =? 0)%nat eqn:Hz; [discriminate E5|].
    now apply Nat.eqb_neq in Hz. }
  split; [reflexivity|].
  split; [exists wav; split; [reflexivity | split; assumption]|].
  split; [reflexivity|].
  intros Hnone. apply Hfresh. now rewrite Hd5, Hc4, Hb5, Ha5.
Qed.

(** With all six artifacts present every stage is a cache read: nothing
    is written, the wav file goes through [librosa.load] at the configured
    rate, and the call fails only where that load does or the loaded
    arrays are degenerate. *)
Lemma process_utterance_cached (d : Disk) (raw_text wav_path speaker
    basename : string) text wav M energy f0 attn :
  cached d speaker basename text wav M energy f0 attn ->
  process_utterance C cfg d raw_text wav_path speaker basename =
  rbind (librosa_load_wav C wav (sampling_rate cfg)) (fun w =>
  rbind (remove_outlier (legacy_numpy C) energy) (fun energy' =>
  rbind (np_min_axis1 (transpose M)) (fun mins =>
  rbind (np_max_axis1 (transpose M)) (fun maxs =>
  Ok (d,
      Some {| info := str_join "|"
                        [basename; speaker; phones_of C raw_text; raw_text];
              ret_f0 := f0;
              ret_energy := energy';
              n_mel := shape1 (transpose M);
              n_wav := length w;
              m_min := mins;
              m_max := maxs |}))))).
Proof.
  intros (Ht & Hw & Hm & He & Hf & Ha).
  unfold process_utterance, text_stage, wav_stage, mel_stage, f0_stage,
    attn_prior_stage, np_load.
  rewrite Ht. cbn [rbind]. rewrite Hw. cbn [rbind].
  destruct (librosa_load_wav C wav (sampling_rate cfg)) as [w|e];
    cbn [rbind]; [|reflexivity].
  rewrite Hm. cbn [rbind]. rewrite He. cbn [rbind].
  rewrite Hf. cbn [rbind]. rewrite Ha. cbn [rbind]. reflexivity.
Qed.


(** Calling [process_utterance] again for an utterance it has processed,
    on the output directory it left, recomputes nothing.  When
    [librosa.load] reads a file written at the configured rate back with
    as many samples as were written, the call returns, the directory is
    unchanged, and the record, f0, filtered energy, frame count and sample
    count are those of the first call. *)
Lemma process_utterance_rerun_reads_cache (d d1 : Disk) (raw_text wav_path
    speaker basename : string) (ret : option UtteranceResult) :
  (forall w, exists w',
      librosa_load_wav C
        {| wav_rate := sampling_rate cfg; wav_samples := w |}
        (sampling_rate cfg) = Ok w' /\
      length w' = length w) ->
  process_utterance C cfg d raw_text wav_path speaker basename = Ok (d1, ret) ->
  exists r r',
    ret = Some r /\
    process_utterance C cfg d1 raw_text wav_path speaker basename
    = Ok (d1, Some r') /\
    info r' = info r /\ ret_f0 r' = ret_f0 r /\
    ret_energy r' = ret_energy r /\ n_mel r' = n_mel r /\
    n_wav r' = n_wav r.
Proof.
  intros Hread H.
  destruct (process_utterance_ok _ _ _ _ _ _ _ H)
    as (r & text & wav & M & energy & f0 & attn & -> & Hc & Hro & Hsh & Hnz
        & Hf0 & (w & Hnw & Hnew & Hold) & Hinfo & _).
  assert (Hload : exists w', librosa_load_wav C wav (sampling_rate cfg) = Ok w'
                             /\ length w' = length w).
  { destruct (wav_dir d !! artifact_filename speaker "wav" basename ".wav")
      as [present|] eqn:Hl.
    - exists w. split; [apply Hold; discriminate | reflexivity].
    - rewrite (Hnew eq_refl). apply Hread. }
  destruct Hload as (w' & Hload & Hlen).
  rewrite (process_utterance_cached _ _ _ _ _ _ _ _ _ _ _ Hc).
  rewrite Hload. cbn [rbind].
  rewrite Hro. cbn [rbind]. unfold np_min_axis1, np_max_axis1.
  rewrite Hsh. apply Nat.eqb_neq in Hnz. rewrite Hnz. cbn [rbind].
  eexists r, _. split; [reflexivity|]. split; [reflexivity|].
  cbn [n_mel ret_energy ret_f0 n_wav info].
  rewrite Hinfo, Hf0, Hnw, Hlen. tauto.
Qed.
End ProcessUtterance.

Lemma demo_load_wav_same_rate (w : list Q) :
  exists w',
    librosa_load_wav demo
      {| wav_rate := sampling_rate demo_config; wav_samples := w |}
      (sampling_rate demo_config) = Ok w' /\
    length w' = length w.
Proof. exists w. split; reflexivity. Qed.

Lemma process_utterance_rerun_reads_cache_witness :
  exists d1 r r',
    demo_first_call = Ok (d1, Some r) /\
    process_utterance demo demo_config d1
      "hi." "corpus/wavs/LJ001-0001.wav" "LJSpeech" "LJ001-0001"
    = Ok (d1, Some r') /\
    info r' = info r.
Proof.
  assert (H : match demo_first_call with Ok _ => True | Raise _ => False end)
    by (vm_compute; exact I).
  destruct demo_first_call as [[d1 ret]|e] eqn:E; [|contradiction].
  destruct (process_utterance_rerun_reads_cache demo demo_config empty_disk
              d1 _ _ _ _ ret demo_load_wav_same_rate E)
    as (r & r' & -> & H2 & Hi & _).
  exists d1, r, r'. split; [reflexivity|]. split; [exact H2 | exact Hi].
Defined.

Section Failures.
Variable C : Collaborators.
Variable cfg : Config.

Lemma process_utterance_never_skips (d d' : Disk) (raw_text wav_path speaker
    basename : string) :
  process_utterance C cfg d raw_text wav_path speaker basename
  <> Ok (d', None).
Proof.
  intros H. apply process_utterance_ok in H.
  destruct H as (r & ? & ? & ? & ? & ? & ? & Hr & _). discriminate Hr.
Qed.

(** A fresh attention prior has one row per text id and one column per
    mel frame: the call hands the frame count to [phoneme_count] and the
    text length to [mel_count]. *)
Lemma fresh_attn_prior_shape (d d1 : Disk) (raw_text wav_path speaker
    basename : string) (r : UtteranceResult) :
  process_utterance C cfg d raw_text wav_path speaker basename
  = Ok (d1, Some r) ->
  attn_prior_dir d !! artifact_filename speaker "attn_prior" basename ".npy"
  = None ->
  exists text attn,
    text_dir d1 !! artifact_filename speaker "text" basename ".npy"
    = Some text /\
    attn_prior_dir d1 !! artifact_filename speaker "attn_prior" basename ".npy"
    = Some attn /\
    length attn = length text /\
    (forall row, In row attn -> length row = n_mel r).
Proof.
  intros H Hnone. apply process_utterance_ok in H.
  destruct H as (r' & text & wav & M & energy & f0 & attn & Hr & Hc & _ & _
                 & _ & _ & _ & _ & Hfresh).
  injection Hr as <-. destruct Hc as (Ht & _ & _ & _ & _ & Ha).
  exists text, attn. split; [exact Ht|]. split; [exact Ha|].
  rewrite (Hfresh Hnone). split; [apply prior_length|].
  intros row. apply prior_row_length.
Qed.

(** The waveform is cached and the mel-spectrogram is not: [duration]
    was never bound, and the mel stage cannot truncate. *)
Lemma wav_cached_mel_missing (d : Disk) (raw_text wav_path speaker
    basename : string) (file : WavFile) :
  wav_dir d !! artifact_filename speaker "wav" basename ".wav" = Some file ->
  mel_dir d !! artifact_filename speaker "mel" basename ".npy" = None ->
  (exists e,
     process_utterance C cfg d raw_text wav_path speaker basename = Raise e) /\
  (forall da text wav out,
     text_stage C d (artifact_filename speaker "text" basename ".npy")
       (phones_of C raw_text) = Ok (da, text) ->
     librosa_load_wav C file (sampling_rate cfg) = Ok wav ->
     TorchSTFT C wav = Ok out ->
     process_utterance C cfg d raw_text wav_path speaker basename
     = Raise UnboundLocalError).
Proof.
  intros Hw Hm.
  assert (Hgen : forall da text,
    text_stage C d (artifact_filename speaker "text" basename ".npy")
      (phones_of C raw_text) = Ok (da, text) ->
    process_utterance C cfg d raw_text wav_path speaker basename =
    rbind (librosa_load_wav C file (sampling_rate cfg)) (fun wav =>
    rbind (TorchSTFT C wav) (fun _ => Raise UnboundLocalError))).
  { intros da text Ht. unfold process_utterance. rewrite Ht. cbn [rbind].
    apply text_stage_ok in Ht as (_ & Hw' & Hm' & _).
    unfold wav_stage, np_load. rewrite Hw', Hw. cbn [rbind].
    destruct (librosa_load_wav C file (sampling_rate cfg)) as [wav|e];
      cbn [rbind]; [|reflexivity].
    unfold mel_stage. rewrite Hm', Hm.
    destruct (TorchSTFT C wav) as [[m e]|e]; reflexivity. }
  split.
  - destruct (text_stage C d (artifact_filename speaker "text" basename ".npy")
                (phones_of C raw_text)) as [[da text]|e] eqn:Ht.
    + rewrite (Hgen da text eq_refl).
      destruct (librosa_load_wav C file (sampling_rate cfg)) as [wav|e];
        cbn [rbind]; [|eexists; reflexivity].
      destruct (TorchSTFT C wav); eexists; reflexivity.
    + unfold process_utterance. rewrite Ht. eexists. reflexivity.
  - intros da text wav out Ht Hload Hstft.
    rewrite (Hgen da text Ht), Hload. cbn [rbind]. rewrite Hstft.
    reflexivity.
Qed.

(** The trimmed range is shorter than one hop: there is no frame, and the
    call raises whatever the collaborators return. *)
Lemma no_frame_raises (d : Disk) (raw_text wav_path speaker
    basename : string) :
  wav_dir d !! artifact_filename speaker "wav" basename ".wav" = None ->
  mel_dir d !! artifact_filename speaker "mel" basename ".npy" = None ->
  (forall data, librosa_load C wav_path (sampling_rate cfg) = Ok data ->
     (snd (librosa_trim C data) - fst (librosa_trim C data)
      < Pos.to_nat (hop_length cfg))%nat) ->
  exists e,
    process_utterance C cfg d raw_text wav_path speaker basename = Raise e.
Proof.
  intros Hw Hm Hshort. unfold process_utterance.
  destruct (text_stage C d _ _) as [[da text]|e] eqn:Ht;
    [|eexists; reflexivity].
  cbn [rbind]. apply text_stage_ok in Ht as (_ & Hw' & Hm' & _).
  unfold wav_stage. rewrite Hw', Hw. unfold load_wav.
  destruct (librosa_load C wav_path (sampling_rate cfg)) as [data|e] eqn:Hl;
    [|eexists; reflexivity].
  cbn [rbind]. rewrite (Nat.div_small _ _ (Hshort data eq_refl)).
  destruct (librosa_normalize C _) as [wav|e]; [|eexists; reflexivity].
  cbn [rbind]. unfold mel_stage. cbn [mel_dir save_wav].
  rewrite Hm', Hm.
  destruct (TorchSTFT C _) as [[m en]|e]; [|eexists; reflexivity].
  cbn [rbind read_local].
  destruct (f0_stage C _ _ _ _ _) as [[dd f0]|e]; [|eexists; reflexivity].
  cbn [rbind].
  destruct (attn_prior_stage cfg _ _ _ _) as [[de attn]|e];
    [|eexists; reflexivity].
  cbn [rbind].
  destruct (remove_outlier _ _) as [en'|e]; [|eexists; reflexivity].
  cbn [rbind]. unfold np_min_axis1. cbn [shape1 slice_cols Nat.min Nat.eqb].
  eexists. reflexivity.
Qed.

(** An exception raised while scanning a line ends the scan. *)
Lemma scan_lines_raise (val_prior : option (list string))
    (metadata : list (list string)) (e : exn) :
  fold_left
    (fun acc parts => rbind acc (fun s' => scan_line C cfg val_prior s' parts))
    metadata (Raise e) = Raise e.
Proof. induction metadata as [|parts metadata IH]; [reflexivity | exact IH]. Qed.

Lemma scan_line_raise_aborts (val_prior : option (list string))
    (parts : list string) (rest : list (list string)) (e : exn)
    (disk : Disk) :
  scan_line C cfg val_prior (scan_init cfg disk) parts = Raise e ->
  build_from_path C cfg val_prior (parts :: rest) disk = Raise e.
Proof.
  intros H. unfold build_from_path, scan_lines. cbn [fold_left rbind].
  rewrite H, scan_lines_raise. reflexivity.
Qed.
End Failures.

(** ** The pipeline on the demo corpus *)

(** C1.  The demo utterance has 2 mel frames and 3 text ids; the prior
    written for it has 3 rows of 2 entries, one row per text id and one
    column per frame, where the claim has one row per frame. *)
Theorem attn_prior_rows_follow_text :
  exists d1 r attn,
    demo_first_call = Ok (d1, Some r) /\
    n_mel r = 2%nat /\
    text_dir d1 !! "LJSpeech-text-LJ001-0001.npy" = Some [10; 20; 30]%Z /\
    attn_prior_dir d1 !! "LJSpeech-attn_prior-LJ001-0001.npy" = Some attn /\
    length attn = 3%nat /\
    Forall (fun row => length row = 2%nat) attn /\
    length attn <> n_mel r.
Proof.
  assert (H :
    match demo_first_call with
    | Ok (d1, Some r) =>
        match attn_prior_dir d1 !! "LJSpeech-attn_prior-LJ001-0001.npy" with
        | Some attn =>
            n_mel r = 2%nat /\
            text_dir d1 !! "LJSpeech-text-LJ001-0001.npy"
            = Some [10; 20; 30]%Z /\
            length attn = 3%nat /\
            Forall (fun row => length row = 2%nat) attn
        | None => False
        end
    | _ => False
    end).
  { vm_compute. repeat split; repeat constructor. }
  destruct demo_first_call as [[d1 [r|]]|e]; try contradiction.
  destruct (attn_prior_dir d1 !! "LJSpeech-attn_prior-LJ001-0001.npy")
    as [attn|] eqn:Ha; try contradiction.
  destruct H as (Hn & Ht & Hl & Hrows).
  exists d1, r, attn. rewrite Hl, Hn.
  repeat (split; [first [reflexivity | assumption]|]). discriminate.
Qed.

(** C4.  [process_utterance] never returns the skip value, and the
    exception of a degenerate utterance is not caught: a silent recording
    ahead of a good one ends the whole run with ValueError. *)
Theorem silent_utterance_aborts_run :
  (forall C cfg d raw_text wav_path speaker basename d',
      process_utterance C cfg d raw_text wav_path speaker basename
      <> Ok (d', None)) /\
  process_utterance demo demo_config empty_disk
    "" "corpus/wavs/silence.wav" "LJSpeech" "silence" = Raise ValueError /\
  run_preprocessor demo demo_config demo_metadata_with_silence empty_disk
  = Raise ValueError.
Proof.
  split; [intros; apply process_utterance_never_skips|].
  split; [vm_compute; reflexivity|].
  unfold run_preprocessor, demo_metadata_with_silence.
  apply scan_line_raise_aborts. vm_compute. reflexivity.
Qed.

(** C5.  With the waveform of the demo utterance cached and its
    mel-spectrogram missing, the mel stage reads the unbound [duration]
    and the call raises UnboundLocalError. *)
Theorem wav_cached_mel_missing_unbound_duration :
  wav_dir demo_interrupted_disk !! "LJSpeech-wav-LJ001-0001.wav"
  = Some {| wav_rate := 22050%positive;
            wav_samples := [19 # 20; - (19 # 40); 19 # 40; 19 # 80]%Q |} /\
  mel_dir demo_interrupted_disk !! "LJSpeech-mel-LJ001-0001.npy" = None /\
  process_utterance demo demo_config demo_interrupted_disk
    "hi." "corpus/wavs/LJ001-0001.wav" "LJSpeech" "LJ001-0001"
  = Raise UnboundLocalError.
Proof.
  assert (Hw : wav_dir demo_interrupted_disk
               !! artifact_filename "LJSpeech" "wav" "LJ001-0001" ".wav"
               = Some {| wav_rate := 22050%positive;
                         wav_samples :=
                           [19 # 20; - (19 # 40); 19 # 40; 19 # 80]%Q |})
    by (vm_compute; reflexivity).
  assert (Hm : mel_dir demo_interrupted_disk
               !! artifact_filename "LJSpeech" "mel" "LJ001-0001" ".npy" = None)
    by (vm_compute; reflexivity).
  split; [exact Hw|]. split; [exact Hm|].
  destruct (wav_cached_mel_missing demo demo_config demo_interrupted_disk
              "hi." "corpus/wavs/LJ001-0001.wav" "LJSpeech" "LJ001-0001"
              _ Hw Hm) as [_ H].
  eapply H; vm_compute; reflexivity.
Qed.



(** ** A second run over the output of a first *)











Section SecondRun.
Variable C : Collaborators.
Variable cfg : Config.



(** What one scanned line does to the output directory. *)
Lemma scan_line_disk (val_prior : option (list string)) (s s' : Scan)
    (parts : list string) :
  scan_line C cfg val_prior s parts = Ok s' ->
  exists basename text,
    nth_error parts 0 = Some basename /\
    exists ret,
      process_utterance C cfg (scan_disk s) text
        (String.append (in_dir cfg)
           (String.append "/wavs/" (String.append basename ".wav")))
        (dataset cfg) basename = Ok (scan_disk s', ret).
Proof.
  unfold scan_line, py_index. intros H.
  destruct (nth_error parts 0) as [basename|]; [|discriminate H].
  destruct (nth_error parts 2) as [text|]; [|discriminate H].
  cbn [rbind] in H. bind_ok H as [disk ret].
  exists basename, text. split; [reflexivity|]. exists ret.
  destruct ret as [r|].
  - bind_ok H as mn. bind_ok H as mx. injection H as <-. exact E.
  - injection H as <-. exact E.
Qed.

Lemma scan_lines_cons (val_prior : option (list string)) (s : Scan)
    (parts : list string) (rest : list (list string)) :
  scan_lines C cfg val_prior (parts :: rest) s =
  rbind (scan_line C cfg val_prior s parts)
    (fun s' => scan_lines C cfg val_prior rest s').
Proof.
  unfold scan_lines. cbn [fold_left rbind].
  destruct (scan_line C cfg val_prior s parts) as [s'|e]; [reflexivity|].
  apply scan_lines_raise.
Qed.


End SecondRun.

Lemma normalize_fold_raise (mean std : Q) (ks : list string) (e : exn) :
  fold_left (normalize_step mean std) ks (Raise e) = Raise e.
Proof. induction ks as [|k ks IH]; [reflexivity | exact IH]. Qed.



Section SecondRunPipeline.
Variable C : Collaborators.
Variable cfg : Config.


End SecondRunPipeline.


(** * Further properties of the preprocessor *)

(** ** What a call writes *)

Lemma append_cancel_l (s t t' : string) :
  String.append s t = String.append s t' -> t = t'.
Proof.
  induction s as [|c s IH]; simpl; intros H; [exact H|].
  injection H as H. apply IH, H.
Qed.

Lemma append_length (s t : string) :
  String.length (String.append s t) = (String.length s + String.length t)%nat.
Proof. induction s as [|c s IH]; simpl; [reflexivity | now rewrite IH]. Qed.

Lemma append_cancel_r (e t t' : string) :
  String.append t e = String.append t' e -> t = t'.
Proof.
  revert t'. induction t as [|c t IH]; intros [|c' t'] H; simpl in H.
  - reflexivity.
  - apply (f_equal String.length) in H. simpl in H.
    rewrite ?append_length in H. simpl in H. exfalso. lia.
  - apply (f_equal String.length) in H. simpl in H.
    rewrite ?append_length in H. simpl in H. exfalso. lia.
  - injection H as -> H. f_equal. apply IH, H.
Qed.

Lemma artifact_filename_inj (speaker kind ext b b' : string) :
  artifact_filename speaker kind b ext = artifact_filename speaker kind b' ext ->
  b = b'.
Proof.
  unfold artifact_filename. intros H.
  do 4 apply append_cancel_l in H. now apply append_cancel_r in H.
Qed.

Lemma one_new_file_refl {A : Type} (m : gmap string A) (k : string) :
  one_new_file m m k.
Proof. now left. Qed.

Lemma one_new_file_kept {A : Type} (m m' : gmap string A) (k j : string) (v : A) :
  one_new_file m m' k -> m !! j = Some v -> m' !! j = Some v.
Proof.
  intros [->|(Hnone & w & ->)] Hj; [exact Hj|].
  rewrite lookup_insert_ne; [exact Hj|]. intros ->. congruence.
Qed.

Lemma one_new_file_other {A : Type} (m m' : gmap string A) (k j : string) :
  one_new_file m m' k -> j <> k -> m' !! j = m !! j.
Proof.
  intros [->|(Hnone & w & ->)] Hj; [reflexivity|].
  now apply lookup_insert_ne.
Qed.

Section Writes.
Variable C : Collaborators.
Variable cfg : Config.

Lemma text_stage_writes (d d' : Disk) (tf phones : string) (text : list Z) :
  text_stage C d tf phones = Ok (d', text) ->
  d' = d \/ (text_dir d !! tf = None /\ d' = save_text tf text d).
Proof.
  unfold text_stage. intros H.
  destruct (text_dir d !! tf) eqn:Hl; bind_ok H as t; injection H as <- <-;
    [left | right]; auto.
Qed.

Lemma wav_stage_writes (d d' : Disk) (wf wav_path : string) (wav : list Q)
    (duration : option nat) :
  wav_stage C cfg d wf wav_path = Ok (d', wav, duration) ->
  d' = d \/
  (wav_dir d !! wf = None /\
   d' = save_wav wf
          {| wav_rate := sampling_rate cfg; wav_samples := wav |} d).
Proof.
  unfold wav_stage. intros H.
  destruct (wav_dir d !! wf) as [present|] eqn:Hl.
  - bind_ok H as file. bind_ok H as w. injection H as <- _ _. now left.
  - bind_ok H as [w dur]. bind_ok H as w'. injection H as <- <- _.
    right. auto.
Qed.

Lemma mel_stage_writes (d d' : Disk) (mf ef : string) (wav : list Q)
    (duration : option nat) (mel : ndarray2) (energy : list Q) :
  mel_stage C d mf ef wav duration = Ok (d', mel, energy) ->
  d' = d \/
  (mel_dir d !! mf = None /\
   d' = save_energy ef energy (save_mel mf (transpose mel) d)).
Proof.
  unfold mel_stage. intros H. destruct (mel_dir d !! mf) eqn:Hl.
  - bind_ok H as M. bind_ok H as e. injection H as <- _ _. now left.
  - bind_ok H as [m e]. bind_ok H as dur. injection H as <- <- <-.
    right. auto.
Qed.

Lemma f0_stage_writes (d d' : Disk) (ff : string) (wav : list Q)
    (mel : ndarray2) (duration : option nat) (f0 : list Q) :
  f0_stage C d ff wav mel duration = Ok (d', f0) ->
  d' = d \/ (f0_dir d !! ff = None /\ d' = save_f0 ff f0 d).
Proof.
  unfold f0_stage. intros H. destruct (f0_dir d !! ff) eqn:Hl.
  - bind_ok H as f. injection H as <- _. now left.
  - bind_ok H as f. bind_ok H as dur. injection H as <- <-. right. auto.
Qed.

Lemma attn_prior_stage_writes (d d' : Disk) (af : string) (mel : ndarray2)
    (text : list Z) (attn : list (list npfloat)) :
  attn_prior_stage cfg d af mel text = Ok (d', attn) ->
  d' = d \/ (attn_prior_dir d !! af = None /\ d' = save_attn_prior af attn d).
Proof.
  unfold attn_prior_stage. intros H. destruct (attn_prior_dir d !! af) eqn:Hl.
  - bind_ok H as a. injection H as <- _. now left.
  - injection H as <- <-. right. auto.
Qed.

(** The files a returning call may have written: in each of the text, wav,
    mel, f0 and attention-prior directories at most its own artifact, and
    only if that name was free; its energy file only together with a new
    mel file. *)
Lemma process_utterance_writes (d d' : Disk) (raw_text wav_path speaker
    basename : string) (ret : option UtteranceResult) :
  process_utterance C cfg d raw_text wav_path speaker basename = Ok (d', ret) ->
  one_new_file (text_dir d) (text_dir d')
    (artifact_filename speaker "text" basename ".npy") /\
  one_new_file (wav_dir d) (wav_dir d')
    (artifact_filename speaker "wav" basename ".wav") /\
  one_new_file (mel_dir d) (mel_dir d')
    (artifact_filename speaker "mel" basename ".npy") /\
  one_new_file (f0_dir d) (f0_dir d')
    (artifact_filename speaker "f0" basename ".npy") /\
  one_new_file (attn_prior_dir d) (attn_prior_dir d')
    (artifact_filename speaker "attn_prior" basename ".npy") /\
  (energy_dir d' = energy_dir d \/
   (mel_dir d !! artifact_filename speaker "mel" basename ".npy" = None /\
    exists v,
      energy_dir d' =
      <[artifact_filename speaker "energy" basename ".npy" := v]>
        (energy_dir d))) /\
  speakers_json d' = speakers_json d /\ stats_json d' = stats_json d /\
  train_txt d' = train_txt d /\ val_txt d' = val_txt d.
Proof.
  unfold process_utterance. intros H.
  bind_ok H as [da text]. bind_ok H as [[db wav] duration].
  bind_ok H as [[dc mel] energy]. bind_ok H as [dd f0].
  bind_ok H as [de attn]. bind_ok H as energy'.
  bind_ok H as mins. bind_ok H as maxs.
  injection H as <- _.
  apply text_stage_writes in E. apply wav_stage_writes in E0.
  apply mel_stage_writes in E1. apply f0_stage_writes in E2.
  apply attn_prior_stage_writes in E3.
  destruct E as [->|[Ht ->]]; destruct E0 as [->|[Hw ->]];
    destruct E1 as [->|[Hm ->]]; destruct E2 as [->|[Hf ->]];
    destruct E3 as [->|[Ha ->]]; cbn in *;
    repeat split;
    first [ reflexivity
          | left; reflexivity
          | right; split; [assumption | eexists; reflexivity] ].
Qed.
End Writes.

Section WritesProperties.
Variable C : Collaborators.
Variable cfg : Config.

(** X1. A returning call never overwrites a text, wav, mel, f0 or
    attention-prior file that was already there, whatever its name and
    content: the cache is trusted as it is. *)
Theorem process_utterance_never_overwrites (d d' : Disk) (raw_text wav_path
    speaker basename : string) (ret : option UtteranceResult) :
  process_utterance C cfg d raw_text wav_path speaker basename = Ok (d', ret) ->
  (forall k v, text_dir d !! k = Some v -> text_dir d' !! k = Some v) /\
  (forall k v, wav_dir d !! k = Some v -> wav_dir d' !! k = Some v) /\
  (forall k v, mel_dir d !! k = Some v -> mel_dir d' !! k = Some v) /\
  (forall k v, f0_dir d !! k = Some v -> f0_dir d' !! k = Some v) /\
  (forall k v, attn_prior_dir d !! k = Some v ->
               attn_prior_dir d' !! k = Some v) /\
  (is_Some (mel_dir d !! artifact_filename speaker "mel" basename ".npy") ->
   energy_dir d' = energy_dir d).
Proof.
  intros H. apply process_utterance_writes in H.
  destruct H as (Ht & Hw & Hm & Hf & Ha & He & _).
  repeat split; try (intros k v; eapply one_new_file_kept; eassumption).
  intros [M HM]. destruct He as [He|[Hnone _]]; [exact He | congruence].
Qed.

(** X2. A returning call leaves the six artifacts of every other utterance
    of the same speaker exactly as they were, present or absent. *)
Theorem process_utterance_leaves_other_utterances (d d' : Disk) (raw_text
    wav_path speaker basename : string) (ret : option UtteranceResult)
    (other : string) :
  process_utterance C cfg d raw_text wav_path speaker basename = Ok (d', ret) ->
  other <> basename ->
  text_dir d' !! artifact_filename speaker "text" other ".npy"
  = text_dir d !! artifact_filename speaker "text" other ".npy" /\
  wav_dir d' !! artifact_filename speaker "wav" other ".wav"
  = wav_dir d !! artifact_filename speaker "wav" other ".wav" /\
  mel_dir d' !! artifact_filename speaker "mel" other ".npy"
  = mel_dir d !! artifact_filename speaker "mel" other ".npy" /\
  energy_dir d' !! artifact_filename speaker "energy" other ".npy"
  = energy_dir d !! artifact_filename speaker "energy" other ".npy" /\
  f0_dir d' !! artifact_filename speaker "f0" other ".npy"
  = f0_dir d !! artifact_filename speaker "f0" other ".npy" /\
  attn_prior_dir d' !! artifact_filename speaker "attn_prior" other ".npy"
  = attn_prior_dir d !! artifact_filename speaker "attn_prior" other ".npy".
Proof.
  intros H Hne. apply process_utterance_writes in H.
  destruct H as (Ht & Hw & Hm & Hf & Ha & He & _).
  assert (Hinj : forall kind ext,
            artifact_filename speaker kind other ext
            <> artifact_filename speaker kind basename ext).
  { intros kind ext Heq. apply Hne. eapply artifact_filename_inj, Heq. }
  repeat split; try (eapply one_new_file_other; [eassumption | apply Hinj]).
  destruct He as [->|(_ & v & ->)]; [reflexivity|].
  apply lookup_insert_ne. intros Heq. exact (Hinj _ _ (eq_sym Heq)).
Qed.

(** X3. With all six artifacts present the call reads no recording of
    the corpus and runs no trimming, normalisation, STFT or pitch
    extraction.  Besides the cached arrays it depends only on the phoneme
    front end, on the NumPy version and on the number of samples that
    [librosa.load] returns for the cached wav file at the configured
    sampling rate: two calls that agree on these return the same, whatever
    the wav path, the other settings and the other collaborators. *)
Theorem cached_call_depends_on_cache (C' : Collaborators) (cfg' : Config)
    (d : Disk) (raw_text wav_path wav_path' speaker basename : string)
    text file M energy f0 attn (w w' : list Q) :
  cached d speaker basename text file M energy f0 attn ->
  phones_of C' raw_text = phones_of C raw_text ->
  legacy_numpy C' = legacy_numpy C ->
  librosa_load_wav C file (sampling_rate cfg) = Ok w ->
  librosa_load_wav C' file (sampling_rate cfg') = Ok w' ->
  length w' = length w ->
  process_utterance C' cfg' d raw_text wav_path' speaker basename
  = process_utterance C cfg d raw_text wav_path speaker basename.
Proof.
  intros Hc Hp Hl Hw Hw' Hlen.
  rewrite (process_utterance_cached C cfg _ _ _ _ _ _ _ _ _ _ _ Hc).
  rewrite (process_utterance_cached C' cfg' _ _ _ _ _ _ _ _ _ _ _ Hc).
  rewrite Hw, Hw'. cbn [rbind]. now rewrite Hp, Hl, Hlen.
Qed.

(** X4. The mel file is there and the energy file is not (a run stopped
    between the two saves): the call cannot load the energy and raises
    FileNotFoundError. *)
Theorem mel_cached_energy_missing (d : Disk) (raw_text wav_path speaker
    basename : string) (M : ndarray2) :
  mel_dir d !! artifact_filename speaker "mel" basename ".npy" = Some M ->
  energy_dir d !! artifact_filename speaker "energy" basename ".npy" = None ->
  (exists e,
     process_utterance C cfg d raw_text wav_path speaker basename = Raise e) /\
  (forall da text db wav duration,
     text_stage C d (artifact_filename speaker "text" basename ".npy")
       (phones_of C raw_text) = Ok (da, text) ->
     wav_stage C cfg da (artifact_filename speaker "wav" basename ".wav")
       wav_path = Ok (db, wav, duration) ->
     process_utterance C cfg d raw_text wav_path speaker basename
     = Raise FileNotFoundError).
Proof.
  intros Hm He.
  assert (Hgen : forall da text db wav duration,
    text_stage C d (artifact_filename speaker "text" basename ".npy")
      (phones_of C raw_text) = Ok (da, text) ->
    wav_stage C cfg da (artifact_filename speaker "wav" basename ".wav")
      wav_path = Ok (db, wav, duration) ->
    process_utterance C cfg d raw_text wav_path speaker basename
    = Raise FileNotFoundError).
  { intros da text db wav duration Ht Hw. unfold process_utterance.
    rewrite Ht. cbn [rbind]. rewrite Hw. cbn [rbind].
    apply text_stage_ok in Ht as (_ & _ & Hm1 & He1 & _).
    apply wav_stage_ok in Hw as (_ & _ & Hm2 & He2 & _).
    unfold mel_stage, np_load. rewrite Hm2, Hm1, Hm. cbn [rbind].
    rewrite He2, He1, He. reflexivity. }
  split; [|exact Hgen].
  destruct (text_stage C d (artifact_filename speaker "text" basename ".npy")
              (phones_of C raw_text)) as [[da text]|e] eqn:Ht.
  - destruct (wav_stage C cfg da
                (artifact_filename speaker "wav" basename ".wav") wav_path)
      as [[[db wav] duration]|e] eqn:Hw.
    + eexists. eapply Hgen; [reflexivity | exact Hw].
    + unfold process_utterance. rewrite Ht. cbn [rbind]. rewrite Hw.
      eexists. reflexivity.
  - unfold process_utterance. rewrite Ht. eexists. reflexivity.
Qed.

(** X5. The waveform, mel and energy files are there and the f0 file is
    not: [duration] was never bound, and once the cached wav file has been
    loaded and the pitch extractor has returned, the truncation of its
    output raises UnboundLocalError. *)
Theorem wav_cached_f0_missing (d da : Disk) (raw_text wav_path speaker
    basename : string) (text : list Z) (file : WavFile) (wav : list Q)
    (M : ndarray2) (energy p : list Q) :
  wav_dir d !! artifact_filename speaker "wav" basename ".wav" = Some file ->
  mel_dir d !! artifact_filename speaker "mel" basename ".npy" = Some M ->
  energy_dir d !! artifact_filename speaker "energy" basename ".npy"
  = Some energy ->
  f0_dir d !! artifact_filename speaker "f0" basename ".npy" = None ->
  text_stage C d (artifact_filename speaker "text" basename ".npy")
    (phones_of C raw_text) = Ok (da, text) ->
  librosa_load_wav C file (sampling_rate cfg) = Ok wav ->
  get_pitch C wav (transpose (transpose M)) = Ok p ->
  process_utterance C cfg d raw_text wav_path speaker basename
  = Raise UnboundLocalError.
Proof.
  intros Hw Hm He Hf Ht Hload Hp. unfold process_utterance.
  rewrite Ht. cbn [rbind].
  apply text_stage_ok in Ht as (_ & Hw1 & Hm1 & He1 & Hf1 & _).
  unfold wav_stage, np_load. rewrite Hw1, Hw. cbn [rbind].
  rewrite Hload. cbn [rbind].
  unfold mel_stage, np_load. rewrite Hm1, Hm. cbn [rbind].
  rewrite He1, He. cbn [rbind].
  unfold f0_stage. rewrite Hf1, Hf, Hp. reflexivity.
Qed.
End WritesProperties.

(** ** Truncation to the frame count, and the mel cache round trip *)

Lemma slice_cols_wf (dur : nat) (m : ndarray2) :
  wf_ndarray2 m -> wf_ndarray2 (slice_cols dur m).
Proof.
  intros [Hlen Hrows]. split; cbn.
  - now rewrite List.length_map.
  - apply List.Forall_map. eapply List.Forall_impl; [|exact Hrows].
    intros r Hr. cbn beta. rewrite List.length_firstn, Hr. reflexivity.
Qed.

Lemma map_nth_seq {A : Type} (l : list A) (dflt : A) :
  List.map (fun j => nth j l dflt) (seq 0 (length l)) = l.
Proof.
  induction l as [|x l IH]; [reflexivity|].
  cbn [length seq List.map nth]. f_equal.
  rewrite <- List.seq_shift, List.map_map. exact IH.
Qed.

Lemma transpose_rows_nth (rows : list (list Q)) (n i : nat) :
  (i < length rows)%nat ->
  List.map (fun r' => nth i r' 0%Q)
    (List.map (fun j => List.map (fun r => nth j r 0%Q) rows) (seq 0 n))
  = List.map (fun j => nth j (nth i rows []) 0%Q) (seq 0 n).
Proof.
  intros Hi. rewrite List.map_map. apply List.map_ext. intros j.
  rewrite (List.nth_indep _ 0%Q (nth j [] 0%Q))
    by now rewrite List.length_map.
  rewrite (List.map_nth (fun r => nth j r 0%Q)). reflexivity.
Qed.

(** Transposing twice gives the matrix back. *)
Lemma transpose_involutive (m : ndarray2) :
  wf_ndarray2 m -> transpose (transpose m) = m.
Proof.
  destruct m as [s0 s1 rows]. intros [Hlen Hrows]. cbn in *.
  unfold transpose. cbn. f_equal.
  transitivity (List.map (fun j => nth j rows []) (seq 0 (length rows)));
    [|apply map_nth_seq].
  rewrite Hlen. apply List.map_ext_in. intros i Hi. apply List.in_seq in Hi.
  rewrite transpose_rows_nth by lia.
  rewrite List.Forall_forall in Hrows.
  assert (Hr : length (nth i rows []) = s1)
    by (apply Hrows, List.nth_In; lia).
  rewrite <- Hr. apply map_nth_seq.
Qed.

Section Truncation.
Variable C : Collaborators.
Variable cfg : Config.

(** X6. [load_wav] returns the trimmed range scaled by 2^15, and a frame
    count [duration] with [duration * hop <= hi - lo < (duration+1) * hop];
    the data never has more than [hi - lo] samples, and exactly that many
    when the range lies within the recording. *)
Theorem load_wav_duration (full_path : string) (data : list Q) (duration : nat) :
  load_wav C cfg full_path = Ok (data, duration) ->
  exists raw,
    librosa_load C full_path (sampling_rate cfg) = Ok raw /\
    let lo := fst (librosa_trim C raw) in
    let hi := snd (librosa_trim C raw) in
    data = List.map (fun v => (v * inject_Z (2 ^ 15))%Q)
             (firstn (hi - lo) (skipn lo raw)) /\
    (duration * Pos.to_nat (hop_length cfg) <= hi - lo)%nat /\
    (hi - lo < (duration + 1) * Pos.to_nat (hop_length cfg))%nat /\
    (length data <= hi - lo)%nat /\
    ((hi <= length raw)%nat -> length data = (hi - lo)%nat).
Proof.
  unfold load_wav. intros H. bind_ok H as raw. injection H as <- <-.
  exists raw. split; [reflexivity|]. cbn zeta.
  set (lo := fst (librosa_trim C raw)). set (hi := snd (librosa_trim C raw)).
  set (hop := Pos.to_nat (hop_length cfg)).
  assert (Hhop : (0 < hop)%nat) by apply Pos2Nat.is_pos.
  split; [reflexivity|].
  pose proof (Nat.div_mod_eq (hi - lo) hop) as Hdm.
  pose proof (Nat.mod_upper_bound (hi - lo) hop ltac:(lia)) as Hmod.
  unfold match_librosa_to_scipy.
  rewrite List.length_map, List.length_firstn, List.length_skipn.
  repeat split; nia.
Qed.

(** X7. When the waveform, mel and f0 artifacts are all computed afresh,
    the mel-spectrogram, the energy and the f0 are cut to [duration]
    frames and never padded: the frame count is the smaller of [duration]
    and what the extractor gave, the stored energy and f0 are the first
    [duration] entries of the extractors' outputs, and none is longer than
    [duration]. *)
Theorem fresh_features_truncated (d d1 : Disk) (raw_text wav_path speaker
    basename : string) (r : UtteranceResult) :
  wav_dir d !! artifact_filename speaker "wav" basename ".wav" = None ->
  mel_dir d !! artifact_filename speaker "mel" basename ".npy" = None ->
  f0_dir d !! artifact_filename speaker "f0" basename ".npy" = None ->
  process_utterance C cfg d raw_text wav_path speaker basename
  = Ok (d1, Some r) ->
  exists data duration wav m e p,
    load_wav C cfg wav_path = Ok (data, duration) /\
    wav_dir d1 !! artifact_filename speaker "wav" basename ".wav"
    = Some {| wav_rate := sampling_rate cfg; wav_samples := wav |} /\
    TorchSTFT C wav = Ok (m, e) /\
    get_pitch C wav (transpose (slice_cols duration m)) = Ok p /\
    n_mel r = Nat.min duration (shape1 m) /\
    mel_dir d1 !! artifact_filename speaker "mel" basename ".npy"
    = Some (transpose (slice_cols duration m)) /\
    energy_dir d1 !! artifact_filename speaker "energy" basename ".npy"
    = Some (firstn duration e) /\
    f0_dir d1 !! artifact_filename speaker "f0" basename ".npy"
    = Some (firstn duration p) /\
    ret_f0 r = firstn duration p /\
    (n_mel r <= duration)%nat /\
    (length (firstn duration e) <= duration)%nat /\
    (length (ret_f0 r) <= duration)%nat.
Proof.
  intros Hw Hm Hf H. unfold process_utterance in H.
  bind_ok H as [da text]. bind_ok H as [[db wav] dur].
  bind_ok H as [[dc mel] energy]. bind_ok H as [dd f0].
  bind_ok H as [de attn]. bind_ok H as energy'.
  bind_ok H as mins. bind_ok H as maxs.
  injection H as <- <-. cbn [n_mel ret_f0].
  apply text_stage_ok in E as (_ & Hw1 & Hm1 & _ & Hf1 & _).
  unfold wav_stage in E0. rewrite Hw1, Hw in E0.
  bind_ok E0 as [data duration]. bind_ok E0 as wav'.
  injection E0 as <- <- <-.
  unfold mel_stage in E1. cbn [mel_dir save_wav] in E1.
  rewrite Hm1, Hm in E1. bind_ok E1 as [m e]. cbn [read_local rbind] in E1.
  injection E1 as <- <- <-.
  unfold f0_stage in E2. cbn [f0_dir save_energy set_energy_dir save_mel
    save_wav] in E2.
  rewrite Hf1, Hf in E2. bind_ok E2 as p. cbn [read_local rbind] in E2.
  injection E2 as <- <-.
  apply attn_prior_stage_ok in E3 as (_ & _ & _ & Hw3 & Hm3 & He3 & Hf3).
  eexists data, duration, _, m, e, p.
  split; [reflexivity|].
  split; [rewrite Hw3; cbn; apply lookup_insert_eq|].
  split; [eassumption|]. split; [eassumption|]. split; [reflexivity|].
  split; [rewrite Hm3; cbn; apply lookup_insert_eq|].
  split; [rewrite He3; cbn; apply lookup_insert_eq|].
  split; [rewrite Hf3; cbn; apply lookup_insert_eq|].
  split; [reflexivity|]. cbn [shape1 slice_cols].
  rewrite !List.length_firstn. lia.
Qed.

Lemma mel_stage_roundtrip (d d' : Disk) (mf ef : string) (wav : list Q)
    (duration : option nat) (mel : ndarray2) (energy : list Q) :
  (forall wav m e, TorchSTFT C wav = Ok (m, e) -> wf_ndarray2 m) ->
  mel_stage C d mf ef wav duration = Ok (d', mel, energy) ->
  exists M, mel_dir d' !! mf = Some M /\ transpose M = mel.
Proof.
  unfold mel_stage. intros STFT_wf H. destruct (mel_dir d !! mf) eqn:Hl.
  - bind_ok H as M. bind_ok H as e. injection H as <- <- _.
    apply np_load_Some in E. eauto.
  - bind_ok H as [m e]. bind_ok H as dur. injection H as <- <- _.
    eexists. split; [cbn; apply lookup_insert_eq|].
    apply transpose_involutive, slice_cols_wf. eapply STFT_wf, E.
Qed.

(** X8. When the mel extractor returns matrices whose rows agree with
    their shape, and [librosa.load] reads a wav file written at the
    configured rate back with as many samples as were written, the
    mel-spectrogram read back from its file is the one that was computed,
    and a second call on the directory left by a first returns exactly the
    same tuple and writes nothing. *)
Theorem process_utterance_rerun_same_result (d d1 : Disk) (raw_text wav_path
    speaker basename : string) (ret : option UtteranceResult) :
  (forall wav m e, TorchSTFT C wav = Ok (m, e) -> wf_ndarray2 m) ->
  (forall w, exists w',
      librosa_load_wav C
        {| wav_rate := sampling_rate cfg; wav_samples := w |}
        (sampling_rate cfg) = Ok w' /\
      length w' = length w) ->
  process_utterance C cfg d raw_text wav_path speaker basename = Ok (d1, ret) ->
  process_utterance C cfg d1 raw_text wav_path speaker basename = Ok (d1, ret).
Proof.
  intros STFT_wf Hread H. unfold process_utterance in H.
  bind_ok H as [da text]. bind_ok H as [[db wav] duration].
  bind_ok H as [[dc mel] energy]. bind_ok H as [dd f0].
  bind_ok H as [de attn]. bind_ok H as energy'.
  bind_ok H as mins. bind_ok H as maxs.
  injection H as <- <-.
  destruct (mel_stage_roundtrip _ _ _ _ _ _ _ _ STFT_wf E1) as (M & HM & HT).
  apply text_stage_ok in E as (Ht & Ha1 & Ha2 & Ha3 & Ha4 & Ha5).
  apply wav_stage_ok in E0
    as ((file & Hw & Hnew & Hold) & Hb1 & Hb2 & Hb3 & Hb4 & Hb5).
  apply mel_stage_ok in E1 as (_ & He & Hc1 & Hc2 & Hc3 & Hc4).
  apply f0_stage_ok in E2 as (Hf & Hd1 & Hd2 & Hd3 & Hd4 & Hd5).
  apply attn_prior_stage_ok in E3
    as (Hat & _ & He1 & He2 & He3 & He4 & He5).
  assert (Hc : cached de speaker basename text file M energy f0 attn).
  { unfold cached. rewrite He1, Hd1, Hc1, Hb1, He2, Hd2, Hc2, He3, Hd3,
      He4, Hd4, He5. tauto. }
  assert (Hload : exists w', librosa_load_wav C file (sampling_rate cfg) = Ok w'
                             /\ length w' = length wav).
  { destruct (wav_dir da !! artifact_filename speaker "wav" basename ".wav")
      as [present|] eqn:Hl.
    - exists wav. split; [apply Hold; discriminate | reflexivity].
    - rewrite (Hnew eq_refl). apply Hread. }
  destruct Hload as (w' & Hload & Hlen).
  rewrite (process_utterance_cached C cfg _ _ _ _ _ _ _ _ _ _ _ Hc).
  rewrite Hload. cbn [rbind].
  rewrite HT, E4. cbn [rbind]. rewrite E5. cbn [rbind]. rewrite E6.
  cbn [rbind]. rewrite Hlen. reflexivity.
Qed.
End Truncation.

(** ** The normalization pass: when it returns *)

Lemma normalize_fold_empty_file (mean std : Q) (ks : list string) :
  NoDup ks ->
  forall (d : gmap string (list Q)) (mn mx : Q) (k : string),
    k ∈ ks -> d !! k = Some [] ->
    (forall j, j ∈ ks -> is_Some (d !! j)) ->
    fold_left (normalize_step mean std) ks (Ok (d, mn, mx)) = Raise ValueError.
Proof.
  induction 1 as [|k0 ks Hk0 Hnd IH]; intros d mn mx k Hk Hempty Hall.
  - exfalso. revert Hk. apply not_elem_of_nil.
  - cbn [fold_left].
    destruct (Hall k0 ltac:(left)) as [v Hv].
    destruct v as [|x v].
    + unfold normalize_step at 2. cbn [rbind]. unfold np_load. rewrite Hv.
      cbn. apply normalize_fold_raise.
    + destruct (normalize_step_ok mean std d mn mx k0 (x :: v) Hv
                  ltac:(discriminate)) as (m & M & Hstep & _).
      rewrite Hstep.
      assert (Hne : k <> k0) by (intros ->; congruence).
      apply elem_of_cons in Hk. destruct Hk as [Hk|Hk]; [contradiction|].
      apply (IH _ _ _ k Hk).
      * rewrite lookup_insert_ne by congruence. exact Hempty.
      * intros j Hj. apply lookup_insert_is_Some'. right.
        apply Hall. now right.
Qed.

Lemma normalize_nonempty_Ok (in_dir : gmap string (list Q)) (mean std : Q) :
  (forall k v, in_dir !! k = Some v -> v <> []) ->
  exists mn mx,
    normalize in_dir mean std =
    Ok (List.map (normalize_value mean std) <$> in_dir, mn, mx).
Proof.
  intros Hne.
  destruct (normalize_fold mean std (listdir in_dir)
              (NoDup_fst_map_to_list in_dir) in_dir finfo_max finfo_min)
    as (d' & mn & mx & Hfold & Hlook & _).
  { intros k Hk. apply elem_of_listdir in Hk. destruct Hk as [v Hv].
    exists v. split; [exact Hv | eapply Hne; exact Hv]. }
  exists mn, mx. unfold normalize. rewrite Hfold. do 3 f_equal.
  apply map_eq. intros k. rewrite Hlook, lookup_fmap.
  destruct (decide (k ∈ listdir in_dir)) as [Hin|Hnin]; [reflexivity|].
  destruct (in_dir !! k) as [v|] eqn:Hv; [|reflexivity].
  exfalso. apply Hnin. apply elem_of_listdir. eauto.
Qed.

(** X9. The normalization pass returns exactly when no energy file is
    empty, and then every file holds its values mapped through
    [(v - mean) / std]; one empty file makes it raise ValueError.  On an
    empty directory it returns its start values, [finfo.max] as the
    minimum and [finfo.min] as the maximum. *)
Theorem normalize_returns_iff (in_dir : gmap string (list Q)) (mean std : Q) :
  ((forall k v, in_dir !! k = Some v -> v <> []) <->
   exists mn mx,
     normalize in_dir mean std =
     Ok (List.map (fun v => ((v - mean) / std)%Q) <$> in_dir, mn, mx)) /\
  ((exists k, in_dir !! k = Some []) ->
   normalize in_dir mean std = Raise ValueError) /\
  normalize ∅ mean std = Ok (∅, finfo_max, finfo_min).
Proof.
  assert (Hraise : forall k, in_dir !! k = Some [] ->
            normalize in_dir mean std = Raise ValueError).
  { intros k Hk. unfold normalize.
    apply (normalize_fold_empty_file mean std _ (NoDup_fst_map_to_list in_dir)
             _ _ _ k); [|exact Hk|].
    - apply elem_of_listdir. eauto.
    - intros j Hj. now apply elem_of_listdir. }
  split; [split|split].
  - exact (normalize_nonempty_Ok in_dir mean std).
  - intros (mn & mx & Hok) k v Hv ->.
    rewrite (Hraise k Hv) in Hok. discriminate Hok.
  - intros [k Hk]. exact (Hraise k Hk).
  - unfold normalize, listdir. rewrite map_to_list_empty. reflexivity.
Qed.

Lemma normalize_value_off (v : Q) : (normalize_value 0 1 v == v)%Q.
Proof. unfold normalize_value. field. Qed.

(** X10. With energy normalization switched off the fitted scaler is not
    read: the statistics are mean 0 and deviation 1 for any scaler, fitted
    or not, and the pass leaves every energy value equal to what it was.
    With it switched on and a scaler that was never fitted, the mean is
    missing and AttributeError is raised. *)
Theorem compute_energy_stats_modes (C : Collaborators) (cfg : Config)
    (scaler : StandardScaler) (disk : Disk) :
  (energy_normalization cfg = false ->
   (forall k v, energy_dir disk !! k = Some v -> v <> []) ->
   exists mn mx,
     compute_energy_stats C cfg scaler disk =
     Ok (set_energy_dir
           (List.map (fun v => ((v - 0) / 1)%Q) <$> energy_dir disk)
           disk,
         (mn, mx, 0%Q, 1%Q)) /\
     forall v, ((v - 0) / 1 == v)%Q) /\
  (energy_normalization cfg = true ->
   compute_energy_stats C cfg [] disk = Raise AttributeError).
Proof.
  split.
  - intros Hoff Hne. unfold compute_energy_stats. rewrite Hoff. cbn [rbind].
    pose proof (normalize_nonempty_Ok (energy_dir disk) 0 1) as Hok.
    destruct (Hok Hne) as (mn & mx & Hn).
    exists mn, mx. rewrite Hn. split; [reflexivity | apply normalize_value_off].
  - intros Hon. unfold compute_energy_stats. rewrite Hon. reflexivity.
Qed.

Lemma compute_energy_stats_modes_witness :
  exists mn mx,
    compute_energy_stats demo demo_config_raw_energy
      [] (set_energy_dir demo_energy_dir empty_disk) =
    Ok (set_energy_dir
          (List.map (fun v => ((v - 0) / 1)%Q) <$> demo_energy_dir)
          (set_energy_dir demo_energy_dir empty_disk),
        (mn, mx, 0%Q, 1%Q)).
Proof.
  destruct (compute_energy_stats_modes demo demo_config_raw_energy
              [] (set_energy_dir demo_energy_dir empty_disk)) as [Hoff _].
  destruct (Hoff eq_refl) as (mn & mx & H & _).
  - intros k v Hv. cbn in Hv. unfold demo_energy_dir in Hv.
    apply lookup_singleton_Some in Hv as [_ <-]. discriminate.
  - exists mn, mx. exact H.
Defined.

Lemma normalize_returns_iff_witness :
  exists mn mx,
    normalize demo_energy_dir 2 1 =
    Ok (List.map (fun v => ((v - 2) / 1)%Q) <$> demo_energy_dir, mn, mx).
Proof.
  destruct (normalize_returns_iff demo_energy_dir 2 1) as [[Hok _] _].
  apply Hok. intros k v Hv. unfold demo_energy_dir in Hv.
  apply lookup_singleton_Some in Hv as [_ <-]. discriminate.
Defined.

(** ** Every row of the prior matrix *)

Lemma Qsum_nonneg (l : list Q) :
  Forall (fun q => (0 <= q)%Q) l -> (0 <= Qsum l)%Q.
Proof.
  induction 1 as [|q l Hq Hl IH]; simpl; [apply Qle_refl|].
  rewrite <- (Qplus_0_r 0). now apply Qplus_le_compat.
Qed.

(** X11. Rows as exact numbers: for any sizes and any positive scale, row
    [i] of the prior matrix holds non-negative numbers, and what its sum
    lacks of 1 is exactly the mass the beta-binomial puts on [x = P], the
    point the loop over [0 .. P-1] leaves out: the product of
    [(a + j) / (a + b + j)] over [j < P], for the shapes [a = s*i] and
    [b = s*(M+1-i)] of the row.  The gap is positive and shrinks as [P]
    grows; rounding is not part of the statement. *)
Theorem prior_row_missing_mass (P M : nat) (s : Q) (i : nat) :
  (0 < s)%Q -> (1 <= i <= M)%nat ->
  exists row t,
    nth_error (beta_binomial_prior_distribution P M s) (i - 1) = Some row /\
    Forall (fun e => nonnegative e = true) row /\
    fsum row = Num t /\
    (0 <= t)%Q /\
    (t + rising (s * Qnat i) P
         / rising (s * Qnat i + s * Qnat (M + 1 - i)) P == 1)%Q.
Proof.
  intros Hs Hi.
  set (a := (s * Qnat i)%Q). set (b := (s * Qnat (M + 1 - i))%Q).
  assert (Ha : (0 < a)%Q)
    by (apply Qmult_lt_0_compat; [exact Hs | apply Qnat_pos; lia]).
  assert (Hb : (0 < b)%Q)
    by (apply Qmult_lt_0_compat; [exact Hs | apply Qnat_pos; lia]).
  destruct (prior_row_sum P M s i Hs Hi) as (row & t & Hnth & Hsum & Ht & _).
  fold a b in Ht.
  exists row, t. split; [exact Hnth|].
  rewrite (prior_row P M s i Hs Hi) in Hnth. injection Hnth as <-.
  fold a b in Hsum |- *.
  assert (Hnn : Forall (fun q => (0 <= q)%Q)
                  (List.map (betabinom_mass P a b) (seq 0 P))).
  { apply List.Forall_map, List.Forall_forall. intros x _.
    now apply betabinom_mass_nonneg. }
  split.
  { apply List.Forall_map, List.Forall_forall. intros x _.
    cbn. apply Qle_bool_iff. now apply betabinom_mass_nonneg. }
  split; [exact Hsum|].
  split.
  { rewrite fsum_Num in Hsum. injection Hsum as <-. now apply Qsum_nonneg. }
  assert (Hgap : (betabinom_mass P a b P == rising a P / rising (a + b) P)%Q).
  { unfold betabinom_mass. rewrite Nat.leb_refl, binom_diag, Nat.sub_diag.
    change (Qnat 1) with 1%Q. cbn [rising]. unfold Qdiv. ring. }
  rewrite Ht, Hgap. ring.
Qed.

Lemma prior_row_missing_mass_witness :
  exists row t,
    nth_error (beta_binomial_prior_distribution 4 3 (1 # 2)) 1 = Some row /\
    fsum row = Num t /\
    (t + rising ((1 # 2) * Qnat 2) 4
         / rising ((1 # 2) * Qnat 2 + (1 # 2) * Qnat 2) 4 == 1)%Q.
Proof.
  destruct (prior_row_missing_mass 4 3 (1 # 2) 2 ltac:(reflexivity)
              ltac:(lia)) as (row & t & Hnth & _ & Hsum & _ & Hgap).
  exists row, t. split; [exact Hnth|]. split; [exact Hsum | exact Hgap].
Defined.

(** ** The quartiles and the outlier filter *)

Lemma np_insert_sorted (x : Q) (l : list Q) :
  sorted_Q l -> sorted_Q (np_insert x l).
Proof.
  induction l as [|y l IH]; intros Hs; simpl.
  - split; constructor.
  - destruct Hs as [Hy Hs]. destruct (Qle_bool x y) eqn:E.
    + apply Qle_bool_iff in E. split; [|split; assumption].
      constructor; [exact E|].
      eapply List.Forall_impl; [|exact Hy].
      intros z Hz. cbn beta in *. eapply Qle_trans; eassumption.
    + assert (Hyx : (y <= x)%Q).
      { apply Qlt_le_weak, Qnot_le_lt. intros Hle.
        apply Qle_bool_iff in Hle. congruence. }
      split; [|apply IH, Hs].
      apply (np_insert_Forall (fun z => (y <= z)%Q)); assumption.
Qed.

Lemma np_sort_sorted (l : list Q) : sorted_Q (np_sort l).
Proof.
  induction l as [|x l IH]; simpl; [exact I | now apply np_insert_sorted].
Qed.

Lemma sorted_nth_le (l : list Q) (i j : nat) :
  sorted_Q l -> (i <= j)%nat -> (j < length l)%nat ->
  (nth i l 0 <= nth j l 0)%Q.
Proof.
  revert i j. induction l as [|x l IH]; intros i j Hs Hij Hj; simpl in Hj.
  - lia.
  - destruct Hs as [Hx Hs]. destruct i as [|i], j as [|j]; simpl.
    + apply Qle_refl.
    + rewrite List.Forall_forall in Hx. apply Hx, List.nth_In. lia.
    + lia.
    + apply IH; [exact Hs | lia | lia].
Qed.

Lemma np_insert_In (x y : Q) (l : list Q) :
  In y (np_insert x l) <-> y = x \/ In y l.
Proof.
  induction l as [|z l IH]; simpl; [intuition congruence|].
  destruct (Qle_bool x z); simpl; [|rewrite IH]; intuition congruence.
Qed.

Lemma np_sort_In (y : Q) (l : list Q) : In y (np_sort l) <-> In y l.
Proof.
  induction l as [|x l IH]; simpl; [tauto|].
  rewrite np_insert_In, IH. intuition congruence.
Qed.

(** The percentile of a non-empty array, with its two neighbours in the
    sorted array. *)
Lemma np_percentile_between (legacy : bool) (values : list Q) (q : nat) :
  values <> [] -> (q <= 100)%nat ->
  let n := length values in
  let prev := (q * (n - 1) / 100)%nat in
  let next := Nat.min (prev + 1) (n - 1) in
  let g := (Qnat (q * (n - 1) mod 100) / 100)%Q in
  let lo := nth prev (np_sort values) 0%Q in
  let hi := nth next (np_sort values) 0%Q in
  np_percentile legacy values q = Ok (Num (lo + (hi - lo) * g)%Q) /\
  (prev <= next)%nat /\ (next < n)%nat /\
  (0 <= g)%Q /\ (g < 1)%Q /\ (lo <= hi)%Q /\
  In lo values /\ In hi values.
Proof.
  intros Hne Hq n prev next g lo hi.
  assert (Hn : (0 < n)%nat)
    by (subst n; destruct values; [congruence | simpl; lia]).
  assert (Hprev : (prev < n)%nat).
  { subst prev. apply Nat.Div0.div_lt_upper_bound. nia. }
  assert (Hnext : (next < n)%nat) by (subst next; lia).
  assert (Hpn : (prev <= next)%nat) by (subst next; lia).
  split; [destruct values; [congruence | reflexivity]|].
  split; [exact Hpn|]. split; [exact Hnext|].
  pose proof (Nat.mod_upper_bound (q * (n - 1)) 100 ltac:(lia)) as Hmod.
  split.
  { subst g. apply Qle_shift_div_l; [reflexivity|].
    rewrite Qmult_0_l. unfold Qnat, Qle. simpl. lia. }
  split.
  { subst g. apply Qlt_shift_div_r; [reflexivity|].
    rewrite Qmult_1_l. unfold Qnat, Qlt. simpl. lia. }
  split.
  { apply sorted_nth_le; [apply np_sort_sorted | exact Hpn|].
    now rewrite np_sort_length. }
  split; apply np_sort_In, List.nth_In; now rewrite np_sort_length.
Qed.

Lemma interpolate_between (lo hi g : Q) :
  (lo <= hi)%Q -> (0 <= g)%Q -> (g < 1)%Q ->
  (lo <= lo + (hi - lo) * g)%Q /\ (lo + (hi - lo) * g <= hi)%Q.
Proof.
  intros Hlh Hg0 Hg1.
  assert (Hd : (0 <= hi - lo)%Q) by lra.
  assert (H1 : (0 <= (hi - lo) * g)%Q) by now apply Qmult_le_0_compat.
  assert (H2 : (0 <= (hi - lo) * (1 - g))%Q)
    by (apply Qmult_le_0_compat; lra).
  split; [lra|].
  assert (E : ((hi - lo) * (1 - g) == (hi - lo) - (hi - lo) * g)%Q) by ring.
  rewrite E in H2. lra.
Qed.

Lemma quartiles_Some (values : list Q) :
  values <> [] -> exists p25 p75, quartiles values = Some (p25, p75).
Proof.
  intros Hne. unfold quartiles.
  destruct (np_percentile_defined false values 25 Hne) as [p25 ->].
  destruct (np_percentile_defined false values 75 Hne) as [p75 ->].
  eauto.
Qed.

Lemma remove_outlier_quartiles (legacy : bool) (values : list Q) (p25 p75 : Q) :
  quartiles values = Some (p25, p75) ->
  remove_outlier legacy values =
  Ok (List.filter
        (fun v => Qltb (p25 - (3 # 2) * (p75 - p25)) v
                  && Qltb v (p75 + (3 # 2) * (p75 - p25)))
        values).
Proof.
  unfold quartiles. intros H.
  destruct values as [|v values]; [discriminate H|].
  destruct (np_percentile false (v :: values) 25) as [[p|]|] eqn:E25;
    try discriminate H.
  destruct (np_percentile false (v :: values) 75) as [[p'|]|] eqn:E75;
    try discriminate H.
  injection H as <- <-.
  apply remove_outlier_filter.
  - rewrite <- E25. now apply np_percentile_legacy_irrelevant.
  - rewrite <- E75. now apply np_percentile_legacy_irrelevant.
Qed.

(** The first quartile is never above the third, and the value just below
    the third quartile in the sorted array lies between the two, except
    that it may fall below the first when both quartiles come from the
    same gap. *)
Lemma quartiles_ordered (values : list Q) (p25 p75 : Q) :
  quartiles values = Some (p25, p75) ->
  (p25 <= p75)%Q /\
  ((p25 < p75)%Q ->
   exists v, In v values /\
             (p25 - (3 # 2) * (p75 - p25) < v)%Q /\ (v <= p75)%Q).
Proof.
  intros H.
  assert (Hne : values <> []) by (intros ->; discriminate H).
  unfold quartiles in H.
  destruct (np_percentile_between false values 25 Hne ltac:(lia))
    as (E25 & Hpn25 & Hn25 & Hg25 & Hg25' & Hlh25 & Hin25 & _).
  destruct (np_percentile_between false values 75 Hne ltac:(lia))
    as (E75 & Hpn75 & Hn75 & Hg75 & Hg75' & Hlh75 & Hin75 & _).
  rewrite E25, E75 in H.
  set (n := length values) in *.
  set (s := np_sort values) in *.
  set (k25 := (25 * (n - 1) / 100)%nat) in *.
  set (k75 := (75 * (n - 1) / 100)%nat) in *.
  set (g25 := (Qnat (25 * (n - 1) mod 100) / 100)%Q) in *.
  set (g75 := (Qnat (75 * (n - 1) mod 100) / 100)%Q) in *.
  set (lo25 := nth k25 s 0%Q) in *.
  set (hi25 := nth (Nat.min (k25 + 1) (n - 1)) s 0%Q) in *.
  set (lo75 := nth k75 s 0%Q) in *.
  set (hi75 := nth (Nat.min (k75 + 1) (n - 1)) s 0%Q) in *.
  assert (Hp25 : p25 = (lo25 + (hi25 - lo25) * g25)%Q) by congruence.
  assert (Hp75 : p75 = (lo75 + (hi75 - lo75) * g75)%Q) by congruence.
  rewrite Hp25, Hp75. clear H Hp25 Hp75 E25 E75.
  destruct (interpolate_between lo25 hi25 g25 Hlh25 Hg25 Hg25') as [A1 A2].
  destruct (interpolate_between lo75 hi75 g75 Hlh75 Hg75 Hg75') as [B1 B2].
  assert (Hk : (k25 <= k75)%nat)
    by (subst k25 k75; apply Nat.Div0.div_le_mono; lia).
  assert (Hsorted : sorted_Q s) by apply np_sort_sorted.
  assert (Hlen : length s = n) by apply np_sort_length.
  destruct (Nat.eq_dec k25 k75) as [Heq|Hneq].
  - (* both quartiles interpolate in the same gap *)
    assert (Elo : lo75 = lo25) by (subst lo25 lo75; now rewrite Heq).
    assert (Ehi : hi75 = hi25) by (subst hi25 hi75; now rewrite Heq).
    rewrite Elo, Ehi in *.
    pose proof (Nat.div_mod_eq (25 * (n - 1)) 100) as D25.
    pose proof (Nat.div_mod_eq (75 * (n - 1)) 100) as D75.
    fold k25 in D25. fold k75 in D75. rewrite <- Heq in D75.
    set (r25 := (25 * (n - 1) mod 100)%nat) in *.
    set (r75 := (75 * (n - 1) mod 100)%nat) in *.
    assert (Hr : (r25 <= r75)%nat) by lia.
    assert (Hr' : (r25 < r75 -> 5 * r25 < 3 * r75)%nat) by lia.
    assert (Hg : (g25 <= g75)%Q).
    { subst g25 g75. apply Qmult_le_compat_r; [|discriminate].
      unfold Qnat, Qle. simpl. lia. }
    assert (Hd : (0 <= hi25 - lo25)%Q) by lra.
    assert (Hdiff : (0 <= (hi25 - lo25) * (g75 - g25))%Q)
      by (apply Qmult_le_0_compat; lra).
    assert (Ediff : ((hi25 - lo25) * (g75 - g25) ==
                     (hi25 - lo25) * g75 - (hi25 - lo25) * g25)%Q) by ring.
    split; [lra|].
    intros Hlt. exists lo25. split; [exact Hin25|]. split; [|lra].
    assert (Hrlt : (r25 < r75)%nat).
    { destruct (Nat.eq_dec r25 r75) as [Er|Er]; [|lia].
      exfalso. subst g25 g75. fold r25 r75 in Hlt. rewrite Er in Hlt.
      lra. }
    specialize (Hr' Hrlt).
    assert (Hdpos : (0 < hi25 - lo25)%Q).
    { destruct (Qlt_le_dec 0 (hi25 - lo25)) as [Hp|Hn]; [exact Hp|].
      exfalso. assert (Ez : (hi25 - lo25 == 0)%Q) by lra.
      rewrite Ez in Hlt. lra. }
    assert (Hcoef : (0 < (3 # 2) * g75 - (5 # 2) * g25)%Q).
    { subst g25 g75. fold r25 r75. clearbody r25 r75.
      assert (Hq : (5 * Qnat r25 < 3 * Qnat r75)%Q).
      { unfold Qnat, Qlt. simpl. lia. }
      assert (E1 : (Qnat r75 / 100 == Qnat r75 * (1 # 100))%Q) by reflexivity.
      assert (E2 : (Qnat r25 / 100 == Qnat r25 * (1 # 100))%Q) by reflexivity.
      rewrite E1, E2. lra. }
    pose proof (Qmult_lt_0_compat _ _ Hdpos Hcoef) as Hprod.
    assert (Eprod :
      ((hi25 - lo25) * ((3 # 2) * g75 - (5 # 2) * g25) ==
       lo25 - (lo25 + (hi25 - lo25) * g25
               - (3 # 2) * (lo25 + (hi25 - lo25) * g75
                            - (lo25 + (hi25 - lo25) * g25))))%Q) by ring.
    rewrite Eprod in Hprod. lra.
  - (* the third quartile starts at or after the end of the first's gap *)
    assert (Hmid : (hi25 <= lo75)%Q).
    { subst hi25 lo75. apply sorted_nth_le; [exact Hsorted | lia | lia]. }
    split; [lra|].
    intros Hlt. exists lo75. split; [exact Hin75|]. lra.
Qed.

(** X12. On a non-empty array the filter returns, and its result is empty
    exactly when the two quartiles coincide: not only a constant array but
    any array whose middle half is constant loses all its values. *)
Theorem remove_outlier_empty_iff (legacy : bool) (values : list Q)
    (p25 p75 : Q) :
  quartiles values = Some (p25, p75) ->
  exists result,
    remove_outlier legacy values = Ok result /\
    (result = [] <-> (p25 == p75)%Q).
Proof.
  intros Hq. rewrite (remove_outlier_quartiles legacy values p25 p75 Hq).
  eexists. split; [reflexivity|].
  destruct (quartiles_ordered values p25 p75 Hq) as [Hle Hex].
  split.
  - intros Hnil.
    destruct (Qlt_le_dec p25 p75) as [Hlt|Hge]; [|now apply Qle_antisym].
    exfalso. destruct (Hex Hlt) as (v & Hv & Hlo & Hhi).
    assert (Hin : In v (List.filter
              (fun v => Qltb (p25 - (3 # 2) * (p75 - p25)) v
                        && Qltb v (p75 + (3 # 2) * (p75 - p25))) values)).
    { apply filter_In. split; [exact Hv|].
      apply andb_true_iff. rewrite !Qltb_lt. split; lra. }
    rewrite Hnil in Hin. exact Hin.
  - intros Heq. apply filter_none. intros v _.
    apply andb_false_iff. rewrite !Qltb_false.
    destruct (Qlt_le_dec p25 v) as [Hlt|Hge]; [right | left]; lra.
Qed.

Lemma remove_outlier_empty_iff_witness :
  remove_outlier true [1; 5; 5; 5; 5; 5; 9]%Q = Ok [].
Proof.
  destruct (quartiles_Some [1; 5; 5; 5; 5; 5; 9]%Q ltac:(discriminate))
    as (p25 & p75 & Hq).
  destruct (remove_outlier_empty_iff true _ p25 p75 Hq) as (result & Hr & Hiff).
  rewrite Hr. f_equal. apply Hiff.
  vm_compute in Hq. injection Hq as <- <-. reflexivity.
Defined.

(** X13. The first quartile is never above the third, so the lower bound is
    never above the upper; and when the quartiles differ, every value lying
    between them is kept. *)
Theorem interquartile_values_kept (legacy : bool) (values : list Q)
    (p25 p75 : Q) :
  quartiles values = Some (p25, p75) ->
  (p25 <= p75)%Q /\
  (p25 - (3 # 2) * (p75 - p25) <= p75 + (3 # 2) * (p75 - p25))%Q /\
  exists result,
    remove_outlier legacy values = Ok result /\
    ((p25 < p75)%Q ->
     forall v, In v values -> (p25 <= v)%Q -> (v <= p75)%Q -> In v result).
Proof.
  intros Hq. destruct (quartiles_ordered values p25 p75 Hq) as [Hle _].
  split; [exact Hle|]. split; [lra|].
  rewrite (remove_outlier_quartiles legacy values p25 p75 Hq).
  eexists. split; [reflexivity|].
  intros Hlt v Hv Hlo Hhi. apply filter_In. split; [exact Hv|].
  apply andb_true_iff. rewrite !Qltb_lt. split; lra.
Qed.

Lemma interquartile_values_kept_witness :
  exists result,
    remove_outlier true [1; 2; 3; 4; 100]%Q = Ok result /\ In 3%Q result.
Proof.
  destruct (quartiles_Some [1; 2; 3; 4; 100]%Q ltac:(discriminate))
    as (p25 & p75 & Hq).
  destruct (interquartile_values_kept true _ p25 p75 Hq)
    as (_ & _ & result & Hr & Hkeep).
  exists result. split; [exact Hr|].
  vm_compute in Hq. injection Hq as <- <-.
  apply Hkeep.
  - reflexivity.
  - right. right. left. reflexivity.
  - vm_compute. discriminate.
  - vm_compute. discriminate.
Defined.

(** ** The scan loop as a fold over the per-utterance results *)

Section ScanSummary.
Variable C : Collaborators.
Variable cfg : Config.

Lemma scan_line_summary (val_prior : option (list string)) (s s' : Scan)
    (parts : list string) :
  scan_line C cfg val_prior s parts = Ok s' ->
  exists basename r,
    scanned C cfg parts basename r /\
    n_wavs s' = (n_wavs s + n_wav r)%nat /\
    max_seq_len s' = Nat.max (max_seq_len s) (n_mel r) /\
    energy_scaler s' = energy_scaler s ++ ret_energy r /\
    f0s s' = collect_f0 (f0s s) (ret_f0 r) /\
    match val_prior with
    | None =>
        out s' = out s ++ [info r] /\ train s' = train s /\ val s' = val s
    | Some names =>
        out s' = out s /\
        train s' = train s ++ (if py_in basename names then [] else [info r]) /\
        val s' = val s ++ (if py_in basename names then [info r] else [])
    end.
Proof.
  unfold scan_line, py_index. intros H.
  destruct (nth_error parts 0) as [basename|] eqn:E0;
    cbn [rbind] in H; [|discriminate H].
  destruct (nth_error parts 2) as [text|] eqn:E2;
    cbn [rbind] in H; [|discriminate H].
  bind_ok H as [disk ret].
  destruct (process_utterance_ok C cfg _ _ _ _ _ _ _ E)
    as (r & ? & ? & ? & ? & ? & ? & -> & _ & _ & _ & _ & _ & _ & Hinfo & _).
  bind_ok H as mel_min'. bind_ok H as mel_max'. injection H as <-.
  exists basename, r.
  cbn [n_wavs max_seq_len energy_scaler f0s out train val].
  split.
  { split; [exact E0|]. exists text, (scan_disk s), disk.
    split; [exact E2|]. split; [exact E|exact Hinfo]. }
  split; [reflexivity|].
  split.
  { destruct (max_seq_len s <? n_mel r)%nat eqn:Hlt.
    - apply Nat.ltb_lt in Hlt. lia.
    - apply Nat.ltb_ge in Hlt. lia. }
  split.
  { unfold partial_fit, scaler_partial_fit.
    destruct (ret_energy r); cbn; [now rewrite app_nil_r | reflexivity]. }
  split; [reflexivity|].
  destruct val_prior as [names|]; cbn.
  - destruct (py_in basename names); cbn; rewrite ?app_nil_r; tauto.
  - tauto.
Qed.

Lemma scan_lines_summary (val_prior : option (list string))
    (metadata : list (list string)) (s s' : Scan) :
  scan_lines C cfg val_prior metadata s = Ok s' ->
  exists rs : list (string * UtteranceResult),
    Forall2 (fun parts br => scanned C cfg parts (fst br) (snd br))
      metadata rs /\
    n_wavs s' = (n_wavs s + list_sum (List.map (fun br => n_wav (snd br)) rs))%nat /\
    max_seq_len s' =
      fold_left Nat.max (List.map (fun br => n_mel (snd br)) rs)
        (max_seq_len s) /\
    energy_scaler s' =
      energy_scaler s ++ concat (List.map (fun br => ret_energy (snd br)) rs) /\
    f0s s' =
      fold_left collect_f0 (List.map (fun br => ret_f0 (snd br)) rs) (f0s s) /\
    match val_prior with
    | None =>
        out s' = out s ++ infos rs /\ train s' = train s /\ val s' = val s
    | Some names =>
        out s' = out s /\
        train s' = train s ++ infos (List.filter (not_in_names names) rs) /\
        val s' = val s ++ infos (List.filter (in_names names) rs)
    end.
Proof.
  revert s. induction metadata as [|parts rest IH]; intros s H.
  - injection H as <-. exists []. cbn.
    rewrite Nat.add_0_r, !app_nil_r.
    split; [constructor|]. repeat (split; [reflexivity|]).
    destruct val_prior; tauto.
  - rewrite scan_lines_cons in H. bind_ok H as s1.
    apply scan_line_summary in E
      as (bn & r & Hsc & Hn & Hm & He & Hf & Hl).
    apply IH in H as (rs & Hall & Hn' & Hm' & He' & Hf' & Hl').
    exists ((bn, r) :: rs). cbn [List.map list_sum concat fold_left fst snd].
    split; [constructor; [exact Hsc | exact Hall]|].
    split; [rewrite Hn', Hn; unfold list_sum; cbn [fold_right]; lia|].
    split; [now rewrite Hm', Hm|].
    split; [now rewrite He', He, <- app_assoc|].
    split; [now rewrite Hf', Hf|].
    destruct val_prior as [names|].
    + destruct Hl as (Ho & Ht & Hv). destruct Hl' as (Ho' & Ht' & Hv').
      split; [congruence|].
      rewrite Ht', Hv', Ht, Hv, <- !app_assoc.
      unfold infos. cbn [List.filter]. unfold not_in_names, in_names.
      cbn [fst snd]. destruct (py_in bn names); cbn; tauto.
    + destruct Hl as (Ho & Ht & Hv). destruct Hl' as (Ho' & Ht' & Hv').
      split; [|split; congruence].
      rewrite Ho', Ho, <- app_assoc. reflexivity.
Qed.

Lemma scanned_basenames (metadata : list (list string))
    (rs : list (string * UtteranceResult)) :
  Forall2 (fun parts br => scanned C cfg parts (fst br) (snd br))
    metadata rs ->
  List.map fst rs = manifest_basenames metadata.
Proof.
  induction 1 as [|parts br metadata rs [H0 _] _ IH]; [reflexivity|].
  cbn. rewrite IH. f_equal.
  destruct parts as [|p parts]; [discriminate H0|].
  now injection H0.
Qed.

End ScanSummary.

(** ** The split and the corpus files *)

Lemma first_field_append (b rest : string) :
  pipe_free b = true ->
  first_field (String.append b (String pipe rest)) = b.
Proof.
  induction b as [|c b IH].
  - intros _. reflexivity.
  - intros H.
    change (negb (Ascii.eqb c pipe) && pipe_free b = true) in H.
    apply andb_true_iff in H as [Hc Hb]. apply negb_true_iff in Hc.
    change (first_field (String.append (String c b) (String pipe rest)))
      with (if Ascii.eqb c pipe then EmptyString
            else String c (first_field (String.append b (String pipe rest)))).
    rewrite Hc, (IH Hb). reflexivity.
Qed.

Lemma string_append_assoc (a b c : string) :
  String.append (String.append a b) c = String.append a (String.append b c).
Proof.
  induction a as [|x a IH]; [reflexivity|].
  change (String x (String.append (String.append a b) c)
          = String x (String.append a (String.append b c))).
  now f_equal.
Qed.

Lemma first_field_info_line (basename speaker phones raw_text : string) :
  pipe_free basename = true ->
  first_field
    (String.append (info_line basename speaker phones raw_text) newline)
  = basename.
Proof.
  intros H. unfold info_line. cbn [str_join].
  rewrite string_append_assoc. exact (first_field_append _ _ H).
Qed.

Lemma py_in_In (x : string) (l : list string) :
  py_in x l = true <-> In x l.
Proof.
  unfold py_in. rewrite existsb_exists. split.
  - intros (y & Hy & Heq). apply String.eqb_eq in Heq. now subst.
  - intros Hx. exists x. split; [exact Hx | apply String.eqb_refl].
Qed.

(** Membership in [list(set(l))] is membership in [l]. *)
Lemma py_in_set (x : string) (l : list string) :
  py_in x (elements (list_to_set l : gset string)) = py_in x l.
Proof.
  apply eq_true_iff_eq. rewrite !py_in_In.
  rewrite <- !list_elem_of_In, elem_of_elements, elem_of_list_to_set.
  reflexivity.
Qed.

Section Split.
Variable C : Collaborators.
Variable cfg : Config.

Lemma build_from_path_inv (val_prior : option (list string))
    (metadata : list (list string)) (d d1 : Disk) (out1 : list string) :
  build_from_path C cfg val_prior metadata d = Ok (d1, out1) ->
  exists s f0s_stats disk energy_stats train' val',
    scan_lines C cfg val_prior metadata (scan_init cfg d) = Ok s /\
    compute_f0_stats (np_sqrt C) (f0s s) = Ok f0s_stats /\
    compute_energy_stats C cfg (energy_scaler s) (scan_disk s)
      = Ok (disk, energy_stats) /\
    d1 = write_corpus_files [(dataset cfg, 0%nat)]
           {| stats_f0 := f0s_stats; stats_energy := energy_stats;
              spec_min := mel_min s; spec_max := mel_max s;
              stats_max_seq_len := max_seq_len s |} train' val' disk /\
    match val_prior with
    | Some _ =>
        out1 = out s /\ train' = random_shuffle C (train s) /\ val' = val s
    | None =>
        out1 = random_shuffle C (out s) /\
        train' = skipn (val_size cfg) out1 /\
        val' = firstn (val_size cfg) out1
    end.
Proof.
  unfold build_from_path. intros H.
  bind_ok H as s. bind_ok H as f0s_stats. bind_ok H as [disk energy_stats].
  bind_ok H as [[out' train'] val']. injection H as <- <-.
  exists s, f0s_stats, disk, energy_stats, train', val'.
  repeat (split; [reflexivity|]).
  destruct val_prior as [names|].
  - destruct (length (out s) =? 0)%nat; [|discriminate E2].
    injection E2 as <- <- <-. tauto.
  - destruct ((length (train s) =? 0)%nat && (length (val s) =? 0)%nat)%bool;
      [|discriminate E2].
    injection E2 as <- <- <-. tauto.
Qed.

(** X14. Without an earlier validation file the records are shuffled once
    and cut at [val_size]: [val.txt] is the head and [train.txt] the rest, so
    the two files put end to end are the returned list, which is the shuffle
    of the per-utterance records in manifest order. *)
Theorem flat_split_partitions (metadata : list (list string))
    (d d1 : Disk) (out1 : list string) :
  build_from_path C cfg None metadata d = Ok (d1, out1) ->
  exists rs vl tr,
    Forall2 (fun parts br => scanned C cfg parts (fst br) (snd br))
      metadata rs /\
    out1 = random_shuffle C (infos rs) /\
    val_txt d1 = Some vl /\ train_txt d1 = Some tr /\
    vl ++ tr = out1 /\
    length vl = Nat.min (val_size cfg) (length out1).
Proof.
  intros H.
  apply build_from_path_inv in H
    as (s & f0st & disk & est & tr & vl & Hs & _ & _ & -> & Ho & Ht & Hv).
  apply scan_lines_summary in Hs as (rs & Hall & _ & _ & _ & _ & Hout & _).
  cbn in Hout. exists rs, vl, tr.
  split; [exact Hall|]. split; [now rewrite Ho, Hout|].
  split; [reflexivity|]. split; [reflexivity|].
  rewrite Hv, Ht. split; [apply firstn_skipn | apply length_firstn].
Qed.

(** X15. With validation names from an earlier run nothing is returned, a
    record goes to [val.txt] exactly when its basename is one of the names,
    and only the training records are shuffled: the validation records keep
    the order of the manifest. *)
Theorem predefined_split_follows_names (names : list string)
    (metadata : list (list string)) (d d1 : Disk) (out1 : list string) :
  build_from_path C cfg (Some names) metadata d = Ok (d1, out1) ->
  out1 = [] /\
  exists rs,
    Forall2 (fun parts br => scanned C cfg parts (fst br) (snd br))
      metadata rs /\
    val_txt d1 = Some (infos (List.filter (in_names names) rs)) /\
    train_txt d1 =
      Some (random_shuffle C (infos (List.filter (not_in_names names) rs))).
Proof.
  intros H.
  apply build_from_path_inv in H
    as (s & f0st & disk & est & tr & vl & Hs & _ & _ & -> & Ho & Ht & Hv).
  apply scan_lines_summary in Hs
    as (rs & Hall & _ & _ & _ & _ & Hout & Htr & Hvl).
  cbn in Hout, Htr, Hvl.
  split; [congruence|]. exists rs. split; [exact Hall|].
  cbn [val_txt train_txt write_corpus_files].
  split; congruence.
Qed.

(** X16. Neither [assert] of the split can fail: once the scan and the two
    statistics have succeeded, the build writes the corpus files and
    returns. *)
Theorem build_from_path_assertions_hold (val_prior : option (list string))
    (metadata : list (list string)) (d : Disk) (s : Scan)
    (f0s_stats : npfloat * npfloat) (disk : Disk)
    (energy_stats : Q * Q * Q * Q) :
  scan_lines C cfg val_prior metadata (scan_init cfg d) = Ok s ->
  compute_f0_stats (np_sqrt C) (f0s s) = Ok f0s_stats ->
  compute_energy_stats C cfg (energy_scaler s) (scan_disk s)
    = Ok (disk, energy_stats) ->
  exists d1 out1,
    build_from_path C cfg val_prior metadata d = Ok (d1, out1) /\
    val_txt d1 <> None /\ train_txt d1 <> None.
Proof.
  intros Hs Hf He. unfold build_from_path.
  rewrite Hs. cbn [rbind]. rewrite Hf. cbn [rbind]. rewrite He. cbn [rbind].
  apply scan_lines_summary in Hs
    as (rs & _ & _ & _ & _ & _ & Hl).
  destruct val_prior as [names|].
  - destruct Hl as (Ho & _). cbn in Ho. rewrite Ho. cbn.
    eexists _, _. split; [reflexivity|]. split; discriminate.
  - destruct Hl as (_ & Ht & Hv). cbn in Ht, Hv. rewrite Ht, Hv. cbn.
    eexists _, _. split; [reflexivity|]. split; discriminate.
Qed.

(** X17. The written statistics are those of the per-utterance results:
    the longest mel length, the population mean and deviation of the voiced
    F0 samples of all utterances, and, with energy normalisation on, the
    mean and deviation of the energies that survived the outlier filter
    (of which there must be at least one). *)
Theorem corpus_stats_from_results (val_prior : option (list string))
    (metadata : list (list string)) (d d1 : Disk) (out1 : list string) :
  build_from_path C cfg val_prior metadata d = Ok (d1, out1) ->
  exists rs st,
    Forall2 (fun parts br => scanned C cfg parts (fst br) (snd br))
      metadata rs /\
    stats_json d1 = Some st /\
    stats_max_seq_len st =
      fold_left Nat.max (List.map (fun br => n_mel (snd br)) rs) 0%nat /\
    stats_f0 st =
      (np_mean (voiced (List.map (fun br => ret_f0 (snd br)) rs)),
       np_std (np_sqrt C)
         (voiced (List.map (fun br => ret_f0 (snd br)) rs))) /\
    (energy_normalization cfg = true ->
     let E := concat (List.map (fun br => ret_energy (snd br)) rs) in
     E <> [] /\
     exists energy_min energy_max,
       stats_energy st =
         (energy_min, energy_max, mean E,
          if Qeq_bool (np_sqrt C (variance E)) 0 then 1%Q
          else np_sqrt C (variance E))).
Proof.
  intros H.
  apply build_from_path_inv in H
    as (s & f0st & disk & est & tr & vl & Hs & Hf & He & -> & _).
  apply scan_lines_summary in Hs as (rs & Hall & _ & Hm & Hen & Hf0 & _).
  cbn in Hm, Hen, Hf0.
  eexists rs, _. split; [exact Hall|]. split; [reflexivity|].
  cbn [stats_max_seq_len stats_f0 stats_energy].
  split; [exact Hm|].
  split.
  { rewrite compute_f0_stats_cases in Hf.
    destruct (f0s s) as [|a l] eqn:Hfs; [discriminate Hf|].
    injection Hf as <-. unfold voiced.
    rewrite Hf0, collect_f0_concat. reflexivity. }
  intros Hnorm. rewrite <- Hen.
  unfold compute_energy_stats in He. rewrite Hnorm in He.
  unfold scaler_mean_, scaler_scale_ in He.
  destruct (energy_scaler s) as [|x sc] eqn:Hsc; [discriminate He|].
  cbn [rbind] in He. bind_ok He as [[dir mn] mx]. injection He as _ <-.
  split; [discriminate|]. exists mn, mx. reflexivity.
Qed.

Lemma scanned_names (names : list string) (metadata : list (list string))
    (rs : list (string * UtteranceResult)) :
  Forall2 (fun parts br => scanned C cfg parts (fst br) (snd br))
    metadata rs ->
  Forall (fun b => pipe_free b = true) (manifest_basenames metadata) ->
  List.map (fun m => first_field (String.append m newline))
    (infos (List.filter (in_names names) rs))
  = List.filter (fun b => py_in b names) (manifest_basenames metadata).
Proof.
  induction 1 as [|parts [bn r] metadata rs [H0 (t & da & db & _ & _ & Hi)] _ IH];
    [reflexivity|].
  cbn [manifest_basenames List.map]. intros Hpf.
  apply Forall_cons_iff in Hpf as [Hb Hrest]. cbn [fst snd] in *.
  assert (Hn : nth 0 parts EmptyString = bn).
  { destruct parts; [discriminate H0 | now injection H0]. }
  rewrite Hn in *. cbn [List.filter]. unfold in_names at 1. cbn [fst].
  destruct (py_in bn names); [|exact (IH Hrest)].
  cbn [infos List.map snd]. rewrite Hi, (first_field_info_line _ _ _ _ Hb).
  f_equal. exact (IH Hrest).
Qed.

(** X18. After a run with validation names, the names read back from the
    [val.txt] it wrote hold no duplicate, and a name is among them exactly
    when it is a basename of the manifest and was among the names the run
    was given (basenames hold no pipe, being fields of a line split at the
    pipes).  Nothing is said of their order, which is that of a [set]. *)
Theorem val_prior_names_after_build (names : list string)
    (metadata : list (list string)) (d d1 : Disk) (out1 : list string) :
  Forall (fun b => pipe_free b = true) (manifest_basenames metadata) ->
  build_from_path C cfg (Some names) metadata d = Ok (d1, out1) ->
  exists names',
    val_prior_names d1 = Some names' /\
    List.NoDup names' /\
    forall b,
      In b names' <->
      In b (manifest_basenames metadata) /\ py_in b names = true.
Proof.
  intros Hpf H.
  apply build_from_path_inv in H
    as (s & f0st & disk & est & tr & vl & Hs & _ & _ & -> & _ & _ & Hv).
  apply scan_lines_summary in Hs as (rs & Hall & _ & _ & _ & _ & _ & _ & Hvl).
  cbn in Hvl. unfold val_prior_names. cbn [val_txt write_corpus_files].
  rewrite Hv, Hvl, (scanned_names names metadata rs Hall Hpf).
  eexists. split; [reflexivity|]. split.
  - apply NoDup_ListNoDup, NoDup_elements.
  - intros b. rewrite <- list_elem_of_In, elem_of_elements,
      elem_of_list_to_set, list_elem_of_In, filter_In. reflexivity.
Qed.

(** X19. Every returning build leaves a [val.txt], so the next run on its
    output directory takes the predefined split: it returns no records and
    its validation file holds the records whose basename is the first field
    of a line of the earlier [val.txt]. *)
Theorem rerun_takes_predefined_split (val_prior : option (list string))
    (metadata metadata' : list (list string)) (d d1 d2 : Disk)
    (out1 out2 : list string) :
  build_from_path C cfg val_prior metadata d = Ok (d1, out1) ->
  run_preprocessor C cfg metadata' d1 = Ok (d2, out2) ->
  out2 = [] /\
  exists lines rs,
    val_txt d1 = Some lines /\
    Forall2 (fun parts br => scanned C cfg parts (fst br) (snd br))
      metadata' rs /\
    val_txt d2 =
      Some (infos (List.filter
        (in_names (List.map (fun m => first_field (String.append m newline))
                     lines)) rs)).
Proof.
  intros H1 H2.
  apply build_from_path_inv in H1
    as (s & f0st & disk & est & tr & vl & _ & _ & _ & -> & _).
  unfold run_preprocessor, val_prior_names in H2.
  cbn [val_txt write_corpus_files] in H2.
  apply build_from_path_inv in H2
    as (s2 & f0st2 & disk2 & est2 & tr2 & vl2 & Hs & _ & _ & -> & Ho & _ & Hv).
  apply scan_lines_summary in Hs
    as (rs & Hall & _ & _ & _ & _ & Hout & _ & Hvl).
  cbn in Hout, Hvl.
  split; [congruence|]. exists vl, rs.
  split; [reflexivity|]. split; [exact Hall|].
  cbn [val_txt write_corpus_files]. rewrite Hv, Hvl. do 2 f_equal.
  apply List.filter_ext. intros br. apply py_in_set.
Qed.

End Split.

(** ** The energy directory after a build *)

Lemma normalize_Ok_inv (in_dir d' : gmap string (list Q)) (mean std mn mx : Q) :
  normalize in_dir mean std = Ok (d', mn, mx) ->
  d' = List.map (normalize_value mean std) <$> in_dir /\
  (forall k v, in_dir !! k = Some v -> v <> []).
Proof.
  intros Hok.
  assert (Hne : forall k v, in_dir !! k = Some v -> v <> []).
  { intros k v Hv ->. unfold normalize, listdir in Hok.
    rewrite (normalize_fold_empty_file mean std _
               (NoDup_fst_map_to_list in_dir) _ _ _ k) in Hok;
      [discriminate Hok| |exact Hv|].
    - apply elem_of_listdir. eauto.
    - intros j Hj. now apply elem_of_listdir. }
  split; [|exact Hne].
  destruct (normalize_fold mean std (listdir in_dir)
              (NoDup_fst_map_to_list in_dir) in_dir finfo_max finfo_min)
    as (d2 & mn2 & mx2 & Hfold & Hlook & _).
  { intros k Hk. apply elem_of_listdir in Hk. destruct Hk as [v Hv].
    exists v. split; [exact Hv | eapply Hne; exact Hv]. }
  unfold normalize in Hok. unfold listdir in Hfold, Hok.
  rewrite Hfold in Hok. injection Hok as <- _ _.
  apply map_eq. intros k. rewrite Hlook, lookup_fmap.
  destruct (decide (k ∈ listdir in_dir)) as [Hin|Hnin]; [reflexivity|].
  destruct (in_dir !! k) as [v|] eqn:Hv; [|reflexivity].
  exfalso. apply Hnin. apply elem_of_listdir. eauto.
Qed.

Section EnergyDirectory.
Variable C : Collaborators.
Variable cfg : Config.

Lemma scan_lines_energy_others (val_prior : option (list string))
    (metadata : list (list string)) (s s' : Scan) (k : string) :
  scan_lines C cfg val_prior metadata s = Ok s' ->
  (forall b, In b (manifest_basenames metadata) ->
             k <> artifact_filename (dataset cfg) "energy" b ".npy") ->
  energy_dir (scan_disk s') !! k = energy_dir (scan_disk s) !! k.
Proof.
  revert s. induction metadata as [|parts rest IH]; intros s H Hk.
  - injection H as <-. reflexivity.
  - rewrite scan_lines_cons in H. bind_ok H as s1.
    rewrite (IH s1 H).
    2:{ intros b Hb. apply Hk. right. exact Hb. }
    apply scan_line_disk in E as (bn & text & H0 & ret & Hp).
    apply process_utterance_writes in Hp
      as (_ & _ & _ & _ & _ & He & _).
    destruct He as [->|(_ & v & ->)]; [reflexivity|].
    apply lookup_insert_ne. intros Heq. apply (Hk bn); [|now symmetry].
    left. destruct parts; [discriminate H0 | now injection H0].
Qed.

(** X20. The normalisation pass of a build runs over the whole energy
    directory, not over the utterances of the manifest: every energy file
    the scan left is rewritten with the mean and deviation written to the
    statistics, and so is every file that was there before the run and
    belongs to no utterance of the manifest.  No other artifact directory
    is touched after the scan. *)
Theorem build_normalizes_whole_energy_dir (val_prior : option (list string))
    (metadata : list (list string)) (d d1 : Disk) (out1 : list string) :
  build_from_path C cfg val_prior metadata d = Ok (d1, out1) ->
  exists s st energy_min energy_max energy_mean energy_std,
    scan_lines C cfg val_prior metadata (scan_init cfg d) = Ok s /\
    stats_json d1 = Some st /\
    stats_energy st = (energy_min, energy_max, energy_mean, energy_std) /\
    energy_dir d1 =
      List.map (fun v => ((v - energy_mean) / energy_std)%Q)
        <$> energy_dir (scan_disk s) /\
    text_dir d1 = text_dir (scan_disk s) /\
    wav_dir d1 = wav_dir (scan_disk s) /\
    mel_dir d1 = mel_dir (scan_disk s) /\
    f0_dir d1 = f0_dir (scan_disk s) /\
    attn_prior_dir d1 = attn_prior_dir (scan_disk s) /\
    (forall k v,
       energy_dir d !! k = Some v ->
       (forall b, In b (manifest_basenames metadata) ->
                  k <> artifact_filename (dataset cfg) "energy" b ".npy") ->
       energy_dir d1 !! k
       = Some (List.map (fun x => ((x - energy_mean) / energy_std)%Q) v)).
Proof.
  intros H.
  apply build_from_path_inv in H
    as (s & f0st & disk & est & tr & vl & Hs & _ & He & -> & _).
  unfold compute_energy_stats in He.
  bind_ok He as [energy_mean energy_std].
  bind_ok He as [[dir energy_min] energy_max].
  injection He as <- <-.
  apply normalize_Ok_inv in E0 as [-> _].
  exists s. eexists. exists energy_min, energy_max, energy_mean, energy_std.
  split; [exact Hs|]. split; [reflexivity|]. split; [reflexivity|].
  cbn. repeat (split; [reflexivity|]).
  intros k v Hv Hk.
  rewrite lookup_fmap, (scan_lines_energy_others _ _ _ _ k Hs Hk).
  cbn. rewrite Hv. reflexivity.
Qed.

End EnergyDirectory.

(** ** The mel range *)

Lemma broadcast_fold_raise (f : extQ -> Q -> extQ) (ms : list (list Q))
    (e : exn) :
  fold_left (fun acc m => do a <- acc; np_broadcast2 f a m) ms (Raise e)
  = Raise e.
Proof. induction ms as [|m ms IH]; [reflexivity | exact IH]. Qed.

Lemma broadcast_fold_cons (f : extQ -> Q -> extQ) (init : list extQ)
    (m : list Q) (ms : list (list Q)) :
  broadcast_fold f init (m :: ms) =
  rbind (np_broadcast2 f init m) (fun a => broadcast_fold f a ms).
Proof.
  unfold broadcast_fold. cbn [fold_left rbind].
  destruct (np_broadcast2 f init m) as [a|e]; [reflexivity|].
  apply broadcast_fold_raise.
Qed.

Lemma broadcast_fold_snoc (f : extQ -> Q -> extQ) (init a b : list extQ)
    (m : list Q) (ms : list (list Q)) :
  np_broadcast2 f init m = Ok a ->
  broadcast_fold f a ms = Ok b ->
  broadcast_fold f init (m :: ms) = Ok b.
Proof. intros H1 H2. now rewrite broadcast_fold_cons, H1. Qed.

Lemma nth_zip_with_ext (f : extQ -> Q -> extQ) (a : list extQ) (b : list Q)
    (i : nat) (da : extQ) :
  length a = length b -> (i < length a)%nat ->
  nth i (zip_with f a b) da = f (nth i a da) (nth i b 0%Q).
Proof.
  revert b i. induction a as [|x a IH]; intros [|y b] i Hl Hi;
    cbn in *; try lia.
  destruct i as [|i]; [reflexivity|]. apply IH; lia.
Qed.

Lemma broadcast_fold_columns (f : extQ -> Q -> extQ) (n : nat)
    (ms : list (list Q)) :
  forall init out,
    length init = n ->
    Forall (fun m => length m = n) ms ->
    broadcast_fold f init ms = Ok out ->
    length out = n /\
    forall i da, (i < n)%nat ->
      nth i out da = fold_left f (column i ms) (nth i init da).
Proof.
  induction ms as [|m ms IH]; intros init out Hl Hall H.
  - injection H as <-. split; [exact Hl | reflexivity].
  - apply Forall_cons_iff in Hall as [Hm Hall].
    rewrite broadcast_fold_cons in H. unfold np_broadcast2 in H.
    rewrite Hl, Hm, Nat.eqb_refl in H. cbn [rbind] in H.
    assert (Hz : length (zip_with f init m) = n).
    { rewrite length_zip_with. lia. }
    destruct (IH _ _ Hz Hall H) as [Hlen Hcol].
    split; [exact Hlen|]. intros i da Hi.
    rewrite (Hcol i da Hi), nth_zip_with_ext by lia. reflexivity.
Qed.

Lemma fold_ext_minimum_Fin (qs : list Q) (a : Q) :
  fold_left ext_minimum qs (Fin a) = Fin (fold_left py_min2 qs a).
Proof. revert a. induction qs as [|q qs IH]; intros a; [reflexivity | apply IH]. Qed.

Lemma fold_ext_maximum_Fin (qs : list Q) (a : Q) :
  fold_left ext_maximum qs (Fin a) = Fin (fold_left py_max2 qs a).
Proof. revert a. induction qs as [|q qs IH]; intros a; [reflexivity | apply IH]. Qed.

Lemma fold_ext_minimum_PosInf (qs : list Q) :
  qs <> [] ->
  exists lo,
    fold_left ext_minimum qs PosInf = Fin lo /\ In lo qs /\
    forall x, In x qs -> (lo <= x)%Q.
Proof.
  destruct qs as [|q qs]; [congruence|]. intros _.
  cbn [fold_left ext_minimum]. rewrite fold_ext_minimum_Fin.
  destruct (fold_py_min2 qs q) as (Hin & Hle & Hall).
  eexists. split; [reflexivity|]. split.
  - destruct Hin as [->|Hin]; [left; reflexivity | right; exact Hin].
  - intros x [<-|Hx]; [exact Hle | apply Hall, Hx].
Qed.

Lemma fold_ext_maximum_NegInf (qs : list Q) :
  qs <> [] ->
  exists hi,
    fold_left ext_maximum qs NegInf = Fin hi /\ In hi qs /\
    forall x, In x qs -> (x <= hi)%Q.
Proof.
  destruct qs as [|q qs]; [congruence|]. intros _.
  cbn [fold_left ext_maximum]. rewrite fold_ext_maximum_Fin.
  destruct (fold_py_max2 qs q) as (Hin & Hle & Hall).
  eexists. split; [reflexivity|]. split.
  - destruct Hin as [->|Hin]; [left; reflexivity | right; exact Hin].
  - intros x [<-|Hx]; [exact Hle | apply Hall, Hx].
Qed.

Section MelRange.
Variable C : Collaborators.
Variable cfg : Config.

Lemma scan_line_range (val_prior : option (list string)) (s s' : Scan)
    (parts : list string) :
  scan_line C cfg val_prior s parts = Ok s' ->
  exists basename r,
    scanned C cfg parts basename r /\
    np_broadcast2 ext_minimum (mel_min s) (m_min r) = Ok (mel_min s') /\
    np_broadcast2 ext_maximum (mel_max s) (m_max r) = Ok (mel_max s').
Proof.
  unfold scan_line, py_index. intros H.
  destruct (nth_error parts 0) as [basename|] eqn:E0;
    cbn [rbind] in H; [|discriminate H].
  destruct (nth_error parts 2) as [text|] eqn:E2;
    cbn [rbind] in H; [|discriminate H].
  bind_ok H as [disk ret].
  destruct (process_utterance_ok C cfg _ _ _ _ _ _ _ E)
    as (r & ? & ? & ? & ? & ? & ? & -> & _ & _ & _ & _ & _ & _ & Hinfo & _).
  bind_ok H as mel_min'. bind_ok H as mel_max'. injection H as <-.
  exists basename, r. cbn [mel_min mel_max].
  split; [|split; [exact E1 | exact E3]].
  split; [exact E0|]. exists text, (scan_disk s), disk.
  split; [exact E2|]. split; [exact E|exact Hinfo].
Qed.

Lemma scan_lines_range (val_prior : option (list string))
    (metadata : list (list string)) (s s' : Scan) :
  scan_lines C cfg val_prior metadata s = Ok s' ->
  exists rs : list (string * UtteranceResult),
    Forall2 (fun parts br => scanned C cfg parts (fst br) (snd br))
      metadata rs /\
    broadcast_fold ext_minimum (mel_min s)
      (List.map (fun br => m_min (snd br)) rs) = Ok (mel_min s') /\
    broadcast_fold ext_maximum (mel_max s)
      (List.map (fun br => m_max (snd br)) rs) = Ok (mel_max s').
Proof.
  revert s. induction metadata as [|parts rest IH]; intros s H.
  - injection H as <-. exists []. split; [constructor|]. split; reflexivity.
  - rewrite scan_lines_cons in H. bind_ok H as s1.
    apply scan_line_range in E as (bn & r & Hsc & Hmin & Hmax).
    apply IH in H as (rs & Hall & Hmin' & Hmax').
    exists ((bn, r) :: rs). cbn [List.map snd].
    split; [constructor; [exact Hsc | exact Hall]|].
    split; eapply broadcast_fold_snoc; eassumption.
Qed.

(** X21. When every utterance gives one minimum and one maximum per
    configured mel channel, the written [spec_min] and [spec_max] hold, for
    each channel, the least of the per-utterance minima and the greatest of
    the per-utterance maxima: finite numbers, each attained by some
    utterance, as soon as one utterance was scanned. *)
Theorem mel_range_from_results (val_prior : option (list string))
    (metadata : list (list string)) (d d1 : Disk) (out1 : list string) :
  build_from_path C cfg val_prior metadata d = Ok (d1, out1) ->
  exists rs st,
    Forall2 (fun parts br => scanned C cfg parts (fst br) (snd br))
      metadata rs /\
    stats_json d1 = Some st /\
    (Forall (fun br => length (m_min (snd br)) = n_mel_channels cfg /\
                       length (m_max (snd br)) = n_mel_channels cfg) rs ->
     rs <> [] ->
     forall i, (i < n_mel_channels cfg)%nat ->
       exists lo hi,
         nth_error (spec_min st) i = Some (Fin lo) /\
         nth_error (spec_max st) i = Some (Fin hi) /\
         (forall br, In br rs ->
            (lo <= nth i (m_min (snd br)) 0)%Q /\
            (nth i (m_max (snd br)) 0 <= hi)%Q) /\
         (exists br, In br rs /\ lo = nth i (m_min (snd br)) 0%Q) /\
         (exists br, In br rs /\ hi = nth i (m_max (snd br)) 0%Q)).
Proof.
  intros H.
  apply build_from_path_inv in H
    as (s & f0st & disk & est & tr & vl & Hs & _ & _ & -> & _).
  apply scan_lines_range in Hs as (rs & Hall & Hmin & Hmax).
  cbn [mel_min mel_max scan_init] in Hmin, Hmax.
  eexists rs, _. split; [exact Hall|]. split; [reflexivity|].
  cbn [spec_min spec_max].
  intros Hlen Hne i Hi.
  apply broadcast_fold_columns with (n := n_mel_channels cfg) in Hmin
    as [Hlmin Hcmin].
  2:{ apply repeat_length. }
  2:{ apply List.Forall_forall. intros m Hm. apply in_map_iff in Hm
        as (br & <- & Hbr).
      rewrite List.Forall_forall in Hlen. exact (proj1 (Hlen br Hbr)). }
  apply broadcast_fold_columns with (n := n_mel_channels cfg) in Hmax
    as [Hlmax Hcmax].
  2:{ apply repeat_length. }
  2:{ apply List.Forall_forall. intros m Hm. apply in_map_iff in Hm
        as (br & <- & Hbr).
      rewrite List.Forall_forall in Hlen. exact (proj2 (Hlen br Hbr)). }
  specialize (Hcmin i PosInf Hi). specialize (Hcmax i NegInf Hi).
  rewrite nth_repeat in Hcmin, Hcmax.
  unfold column in Hcmin, Hcmax. rewrite List.map_map in Hcmin, Hcmax.
  destruct (fold_ext_minimum_PosInf
              (List.map (fun br => nth i (m_min (snd br)) 0%Q) rs))
    as (lo & Hlo & Hloin & Hlole).
  { destruct rs; [congruence | discriminate]. }
  destruct (fold_ext_maximum_NegInf
              (List.map (fun br => nth i (m_max (snd br)) 0%Q) rs))
    as (hi & Hhi & Hhiin & Hhile).
  { destruct rs; [congruence | discriminate]. }
  exists lo, hi.
  split.
  { rewrite (nth_error_nth' _ PosInf) by lia. congruence. }
  split.
  { rewrite (nth_error_nth' _ NegInf) by lia. congruence. }
  split.
  { intros br Hbr. split.
    - apply Hlole. apply in_map_iff. eauto.
    - apply Hhile. apply in_map_iff. eauto. }
  split.
  - apply in_map_iff in Hloin as (br & Heq & Hbr). eauto.
  - apply in_map_iff in Hhiin as (br & Heq & Hbr). eauto.
Qed.

End MelRange.

(** ** The properties on the demo corpus *)

Lemma demo_stft_wf (wav : list Q) (m : ndarray2) (e : list Q) :
  TorchSTFT demo wav = Ok (m, e) -> wf_ndarray2 m.
Proof.
  cbn [TorchSTFT demo]. unfold demo_stft.
  destruct wav as [|x wav]; [discriminate|].
  intros H. injection H as <- _. unfold wf_ndarray2. cbn [nd_rows shape0 shape1].
  split; [reflexivity|]. constructor; [|constructor].
  now rewrite length_map, length_seq.
Qed.

Lemma process_utterance_never_overwrites_witness :
  exists d' ret,
    process_utterance demo demo_config demo_stale_disk
      "hi." "corpus/wavs/LJ001-0001.wav" "LJSpeech" "LJ001-0001"
    = Ok (d', ret) /\
    text_dir d' !! "LJSpeech-text-LJ001-0001.npy" = Some [7]%Z.
Proof.
  assert (H :
    match process_utterance demo demo_config demo_stale_disk
            "hi." "corpus/wavs/LJ001-0001.wav" "LJSpeech" "LJ001-0001" with
    | Ok _ => True
    | Raise _ => False
    end) by (vm_compute; exact I).
  destruct (process_utterance demo demo_config demo_stale_disk
              "hi." "corpus/wavs/LJ001-0001.wav" "LJSpeech" "LJ001-0001")
    as [[d' ret]|e] eqn:E; [|contradiction].
  exists d', ret. split; [reflexivity|].
  apply (process_utterance_never_overwrites demo demo_config _ _ _ _ _ _ _ E).
  reflexivity.
Defined.

Lemma process_utterance_leaves_other_utterances_witness :
  exists d' ret,
    process_utterance demo demo_config demo_other_disk
      "hi." "corpus/wavs/LJ001-0001.wav" "LJSpeech" "LJ001-0001"
    = Ok (d', ret) /\
    text_dir d' !! "LJSpeech-text-LJ001-0002.npy" = Some [1; 2]%Z.
Proof.
  assert (H :
    match process_utterance demo demo_config demo_other_disk
            "hi." "corpus/wavs/LJ001-0001.wav" "LJSpeech" "LJ001-0001" with
    | Ok _ => True
    | Raise _ => False
    end) by (vm_compute; exact I).
  destruct (process_utterance demo demo_config demo_other_disk
              "hi." "corpus/wavs/LJ001-0001.wav" "LJSpeech" "LJ001-0001")
    as [[d' ret]|e] eqn:E; [|contradiction].
  exists d', ret. split; [reflexivity|].
  destruct (process_utterance_leaves_other_utterances demo demo_config
              _ _ _ _ _ _ _ "LJ001-0002" E ltac:(discriminate)) as [Ht _].
  exact Ht.
Defined.

Lemma cached_call_depends_on_cache_witness :
  exists d1 ret,
    demo_first_call = Ok (d1, ret) /\
    process_utterance demo_no_audio demo_config_raw_energy d1
      "hi." "elsewhere.wav" "LJSpeech" "LJ001-0001"
    = process_utterance demo demo_config d1
        "hi." "corpus/wavs/LJ001-0001.wav" "LJSpeech" "LJ001-0001".
Proof.
  assert (H : match demo_first_call with Ok _ => True | Raise _ => False end)
    by (vm_compute; exact I).
  destruct demo_first_call as [[d1 ret]|e] eqn:E; [|contradiction].
  exists d1, ret. split; [reflexivity|].
  unfold demo_first_call in E.
  destruct (process_utterance_ok demo demo_config _ _ _ _ _ _ _ E)
    as (r & text & file & M & energy & f0 & attn & _ & Hc & _ & _ & _ & _
        & (w & _ & Hnew & _) & _).
  specialize (Hnew eq_refl). subst file.
  exact (cached_call_depends_on_cache demo demo_config demo_no_audio
           demo_config_raw_energy d1 "hi." "corpus/wavs/LJ001-0001.wav"
           "elsewhere.wav" "LJSpeech" "LJ001-0001"
           text _ M energy f0 attn w w Hc eq_refl eq_refl eq_refl eq_refl
           eq_refl).
Defined.

Lemma mel_cached_energy_missing_witness :
  exists e,
    process_utterance demo demo_config demo_mel_only_disk
      "hi." "corpus/wavs/LJ001-0001.wav" "LJSpeech" "LJ001-0001"
    = Raise e.
Proof.
  apply (mel_cached_energy_missing demo demo_config demo_mel_only_disk
           "hi." "corpus/wavs/LJ001-0001.wav" "LJSpeech" "LJ001-0001"
           {| shape0 := 2; shape1 := 1; nd_rows := [[1]; [2]]%Q |}).
  - vm_compute. reflexivity.
  - vm_compute. reflexivity.
Defined.

Lemma wav_cached_f0_missing_witness :
  process_utterance demo demo_config demo_no_f0_disk
    "hi." "corpus/wavs/LJ001-0001.wav" "LJSpeech" "LJ001-0001"
  = Raise UnboundLocalError.
Proof.
  apply (wav_cached_f0_missing demo demo_config demo_no_f0_disk
           (save_text "LJSpeech-text-LJ001-0001.npy" [10; 20; 30]%Z
              demo_no_f0_disk)
           "hi." "corpus/wavs/LJ001-0001.wav" "LJSpeech" "LJ001-0001"
           [10; 20; 30]%Z
           {| wav_rate := 22050%positive;
              wav_samples := [19 # 20; - (19 # 40); 19 # 40; 19 # 80]%Q |}
           [19 # 20; - (19 # 40); 19 # 40; 19 # 80]%Q
           {| shape0 := 2; shape1 := 1; nd_rows := [[1]; [2]]%Q |}
           [1; 3]%Q [100; 0]%Q).
  - vm_compute. reflexivity.
  - vm_compute. reflexivity.
  - vm_compute. reflexivity.
  - vm_compute. reflexivity.
  - vm_compute. reflexivity.
  - vm_compute. reflexivity.
  - vm_compute. reflexivity.
Defined.

Lemma load_wav_duration_witness :
  exists data duration raw,
    load_wav demo demo_config "corpus/wavs/LJ001-0001.wav"
    = Ok (data, duration) /\
    librosa_load demo "corpus/wavs/LJ001-0001.wav" 22050%positive = Ok raw /\
    (duration * 2 <= snd (librosa_trim demo raw) - fst (librosa_trim demo raw))%nat.
Proof.
  assert (H :
    match load_wav demo demo_config "corpus/wavs/LJ001-0001.wav" with
    | Ok _ => True
    | Raise _ => False
    end) by (vm_compute; exact I).
  destruct (load_wav demo demo_config "corpus/wavs/LJ001-0001.wav")
    as [[data duration]|e] eqn:E; [|contradiction].
  destruct (load_wav_duration demo demo_config _ _ _ E)
    as (raw & Hraw & _ & Hlo & _).
  exists data, duration, raw. split; [reflexivity|]. split; [exact Hraw|].
  exact Hlo.
Defined.

Lemma fresh_features_truncated_witness :
  exists d1 r data duration,
    demo_first_call = Ok (d1, Some r) /\
    load_wav demo demo_config "corpus/wavs/LJ001-0001.wav"
    = Ok (data, duration) /\
    (n_mel r <= duration)%nat.
Proof.
  assert (H :
    match demo_first_call with
    | Ok (_, Some _) => True
    | _ => False
    end) by (vm_compute; exact I).
  destruct demo_first_call as [[d1 [r|]]|e] eqn:E; try contradiction.
  unfold demo_first_call in E.
  destruct (fresh_features_truncated demo demo_config empty_disk d1
              "hi." "corpus/wavs/LJ001-0001.wav" "LJSpeech" "LJ001-0001" r
              eq_refl eq_refl eq_refl E)
    as (data & duration & wav & m & e & p & Hl & _ & _ & _ & _ & _ & _ & _
        & _ & Hn & _).
  exists d1, r, data, duration. split; [reflexivity|]. split; [exact Hl|].
  exact Hn.
Defined.

Lemma process_utterance_rerun_same_result_witness :
  exists d1 ret,
    demo_first_call = Ok (d1, ret) /\
    process_utterance demo demo_config d1
      "hi." "corpus/wavs/LJ001-0001.wav" "LJSpeech" "LJ001-0001"
    = Ok (d1, ret).
Proof.
  assert (H : match demo_first_call with Ok _ => True | Raise _ => False end)
    by (vm_compute; exact I).
  destruct demo_first_call as [[d1 ret]|e] eqn:E; [|contradiction].
  exists d1, ret. split; [reflexivity|].
  unfold demo_first_call in E.
  exact (process_utterance_rerun_same_result demo demo_config _ _ _ _ _ _ _
           demo_stft_wf demo_load_wav_same_rate E).
Defined.

Lemma flat_split_partitions_witness :
  exists d1 out1 vl tr,
    build_from_path demo demo_config None demo_metadata empty_disk
    = Ok (d1, out1) /\
    val_txt d1 = Some vl /\ train_txt d1 = Some tr /\ vl ++ tr = out1.
Proof.
  assert (H :
    match build_from_path demo demo_config None demo_metadata empty_disk with
    | Ok _ => True
    | Raise _ => False
    end) by (vm_compute; exact I).
  destruct (build_from_path demo demo_config None demo_metadata empty_disk)
    as [[d1 out1]|e] eqn:E; [|contradiction].
  destruct (flat_split_partitions demo demo_config _ _ _ _ E)
    as (rs & vl & tr & _ & _ & Hv & Ht & Happ & _).
  exists d1, out1, vl, tr. tauto.
Defined.

Lemma predefined_split_follows_names_witness :
  exists d1 out1,
    build_from_path demo demo_config (Some ["LJ001-0001"]) demo_metadata
      empty_disk = Ok (d1, out1) /\
    out1 = [].
Proof.
  assert (H :
    match build_from_path demo demo_config (Some ["LJ001-0001"])
            demo_metadata empty_disk with
    | Ok _ => True
    | Raise _ => False
    end) by (vm_compute; exact I).
  destruct (build_from_path demo demo_config (Some ["LJ001-0001"])
              demo_metadata empty_disk) as [[d1 out1]|e] eqn:E;
    [|contradiction].
  exists d1, out1. split; [reflexivity|].
  exact (proj1 (predefined_split_follows_names demo demo_config _ _ _ _ _ E)).
Defined.

Lemma build_from_path_assertions_hold_witness :
  exists d1 out1,
    build_from_path demo demo_config None demo_metadata empty_disk
    = Ok (d1, out1).
Proof.
  assert (H :
    match scan_lines demo demo_config None demo_metadata
            (scan_init demo_config empty_disk) with
    | Ok s =>
        match compute_f0_stats (np_sqrt demo) (f0s s) with
        | Ok _ =>
            match compute_energy_stats demo demo_config (energy_scaler s)
                    (scan_disk s) with
            | Ok _ => True
            | Raise _ => False
            end
        | Raise _ => False
        end
    | Raise _ => False
    end) by (vm_compute; exact I).
  destruct (scan_lines demo demo_config None demo_metadata
              (scan_init demo_config empty_disk)) as [s|e] eqn:Es;
    [|contradiction].
  destruct (compute_f0_stats (np_sqrt demo) (f0s s)) as [f0s_stats|e] eqn:Ef;
    [|contradiction].
  destruct (compute_energy_stats demo demo_config (energy_scaler s)
              (scan_disk s)) as [[disk energy_stats]|e] eqn:Ee;
    [|contradiction].
  destruct (build_from_path_assertions_hold demo demo_config None
              demo_metadata empty_disk s f0s_stats disk energy_stats
              Es Ef Ee) as (d1 & out1 & Hb & _).
  exists d1, out1. exact Hb.
Defined.

Lemma corpus_stats_from_results_witness :
  exists d1 out1 st,
    build_from_path demo demo_config None demo_metadata empty_disk
    = Ok (d1, out1) /\
    stats_json d1 = Some st.
Proof.
  assert (H :
    match build_from_path demo demo_config None demo_metadata empty_disk with
    | Ok _ => True
    | Raise _ => False
    end) by (vm_compute; exact I).
  destruct (build_from_path demo demo_config None demo_metadata empty_disk)
    as [[d1 out1]|e] eqn:E; [|contradiction].
  destruct (corpus_stats_from_results demo demo_config _ _ _ _ _ E)
    as (rs & st & _ & Hst & _).
  exists d1, out1, st. split; [reflexivity | exact Hst].
Defined.

Lemma val_prior_names_after_build_witness :
  exists d1 out1 names',
    build_from_path demo demo_config (Some ["LJ001-0001"; "LJ001-0007"])
      demo_metadata empty_disk = Ok (d1, out1) /\
    val_prior_names d1 = Some names' /\
    In "LJ001-0001" names' /\ ~ In "LJ001-0007" names'.
Proof.
  assert (H :
    match build_from_path demo demo_config
            (Some ["LJ001-0001"; "LJ001-0007"]) demo_metadata empty_disk with
    | Ok _ => True
    | Raise _ => False
    end) by (vm_compute; exact I).
  destruct (build_from_path demo demo_config
              (Some ["LJ001-0001"; "LJ001-0007"]) demo_metadata empty_disk)
    as [[d1 out1]|e] eqn:E; [|contradiction].
  destruct (val_prior_names_after_build demo demo_config
              ["LJ001-0001"; "LJ001-0007"] demo_metadata empty_disk d1 out1)
    as (names' & Hn & _ & Hiff).
  - repeat constructor.
  - exact E.
  - exists d1, out1, names'. split; [reflexivity|]. split; [exact Hn|].
    split.
    + apply Hiff. split; [left; reflexivity | reflexivity].
    + intros Hin. apply Hiff in Hin as [[Hin|[]] _]. discriminate Hin.
Defined.

Lemma rerun_takes_predefined_split_witness :
  exists d1 out1 d2 out2,
    build_from_path demo demo_config None demo_metadata empty_disk
    = Ok (d1, out1) /\
    run_preprocessor demo demo_config demo_metadata d1 = Ok (d2, out2) /\
    out2 = [].
Proof.
  assert (H :
    match build_from_path demo demo_config None demo_metadata empty_disk with
    | Ok (d1, _) =>
        match run_preprocessor demo demo_config demo_metadata d1 with
        | Ok _ => True
        | Raise _ => False
        end
    | Raise _ => False
    end) by (vm_compute; exact I).
  destruct (build_from_path demo demo_config None demo_metadata empty_disk)
    as [[d1 out1]|e] eqn:E1; [|contradiction].
  destruct (run_preprocessor demo demo_config demo_metadata d1)
    as [[d2 out2]|e] eqn:E2; [|contradiction].
  exists d1, out1, d2, out2. split; [reflexivity|]. split; [exact E2|].
  exact (proj1 (rerun_takes_predefined_split demo demo_config _ _ _ _ _ _ _ _
                  E1 E2)).
Defined.

Lemma build_normalizes_whole_energy_dir_witness :
  exists d1 out1 st,
    build_from_path demo demo_config None demo_metadata demo_leftover_disk
    = Ok (d1, out1) /\
    stats_json d1 = Some st /\
    energy_dir d1 !! "LJSpeech-energy-LJ001-0009.npy"
    = Some (List.map
              (fun v => ((v - stats_energy_mean st)
                         / snd (stats_energy st))%Q) [4; 8]%Q).
Proof.
  assert (H :
    match build_from_path demo demo_config None demo_metadata
            demo_leftover_disk with
    | Ok _ => True
    | Raise _ => False
    end) by (vm_compute; exact I).
  destruct (build_from_path demo demo_config None demo_metadata
              demo_leftover_disk) as [[d1 out1]|e] eqn:E; [|contradiction].
  destruct (build_normalizes_whole_energy_dir demo demo_config _ _ _ _ _ E)
    as (s & st & mn & mx & mean & std & _ & Hst & Hen & _ & _ & _ & _ & _ & _
        & Hk).
  exists d1, out1, st. split; [reflexivity|]. split; [exact Hst|].
  unfold stats_energy_mean. rewrite Hen. cbn [snd].
  apply Hk.
  - vm_compute. reflexivity.
  - intros b [<-|[]]. vm_compute. discriminate.
Defined.

Lemma mel_range_from_results_witness :
  exists d1 out1 st,
    build_from_path demo demo_config None demo_metadata empty_disk
    = Ok (d1, out1) /\
    stats_json d1 = Some st.
Proof.
  assert (H :
    match build_from_path demo demo_config None demo_metadata empty_disk with
    | Ok _ => True
    | Raise _ => False
    end) by (vm_compute; exact I).
  destruct (build_from_path demo demo_config None demo_metadata empty_disk)
    as [[d1 out1]|e] eqn:E; [|contradiction].
  destruct (mel_range_from_results demo demo_config _ _ _ _ _ E)
    as (rs & st & _ & Hst & _).
  exists d1, out1, st. split; [reflexivity | exact Hst].
Defined.
